(** * Tag generation and build planning of [build/src/utils/config.js]

    A shallow embedding of the tag generator, the tag reverse lookup, the
    build-order planner and the parent and updated tags of [config.js], with
    the properties stated about them. The functions that read the file
    system or the environment are not part of it, and what the functions
    write to the console is left out.

    Conventions of the embedding:
    - a JavaScript string is a [string] of one-byte code units;
    - an optional string that is [undefined] or [null] is [None] where the
      code does not tell the two apart. The variant of [getTagList], which is
      compared with [===], is a [VariantArgument], for which they differ; in
      the functions that write an optional string into a text
      ([getUpdatedTag], the message of [getParentTagForVersion]), [None] is
      [undefined], an argument that is not passed;
    - an object used as a dictionary whose enumeration order matters
      ([config.definitionBuildSettings], [variantTags], a multi-parent map) is
      an association list in enumeration order, with distinct keys, none of
      them an array index (JavaScript enumerates those first); the other
      dictionaries are [gmap]s;
    - the dictionaries hold their own keys. The definition ids of the
      registry (the keys of [config.definitionBuildSettings],
      [config.definitionVariants] and [config.definitionVersions], and the
      parent ids) are not names of members that an object inherits from
      [Object.prototype] ([inheritedName]). A key that is passed to a
      function, or a declared variant, can be such a name: where the code
      then reads the inherited member in place of [undefined], the embedding
      says what follows ([getLatestTag], [getTagsForVersion], [tagTemplates],
      [getParentTagForVersion], [parentOfVariant]); elsewhere the member is,
      like [undefined], not a value of the expected type, and the lookup gives
      [None];
    - a function that can throw returns an [Outcome]. *)

From Stdlib Require Import Ascii ZArith Lia.
From Stdlib Require String.
From stdpp Require Import base option list strings gmap.

Local Open Scope char_scope.
Local Open Scope stdpp_scope.

(** ** The JavaScript string operations the module uses *)

Module JS.

(** A truthy string is a non-empty one. *)
Definition truthy (s : string) : bool :=
  match s with EmptyString => false | String _ _ => true end.

Definition isLineTerminator (c : ascii) : bool :=
  Ascii.eqb c "010" || Ascii.eqb c "013".

(** [\d] *)
Definition isDigit (c : ascii) : bool :=
  let n := nat_of_ascii c in Nat.leb 48 n && Nat.leb n 57.

Fixpoint take (n : nat) (s : string) : string :=
  match n, s with
  | S n', String c s' => String c (take n' s')
  | _, _ => EmptyString
  end.

Fixpoint drop (n : nat) (s : string) : string :=
  match n, s with
  | S n', String _ s' => drop n' s'
  | _, _ => s
  end.

(** [s.charAt(s.length - 1)], [None] standing for the empty string that
    [charAt] gives out of range. *)
Fixpoint lastChar (s : string) : option ascii :=
  match s with
  | EmptyString => None
  | String c EmptyString => Some c
  | String _ s' => lastChar s'
  end.

(** [s.charAt(s.length - 1) === ':'] *)
Definition endsWithColon (s : string) : bool :=
  match lastChar s with
  | Some c => Ascii.eqb c ":"
  | None => false
  end.

(** What is left of [s] after the prefix [p], when [s] starts with [p]. *)
Fixpoint stripPrefix (p s : string) : option string :=
  match p, s with
  | EmptyString, _ => Some s
  | String a p', String b s' => if Ascii.eqb a b then stripPrefix p' s' else None
  | String _ _, EmptyString => None
  end.

(** [s.split(sep)] for a one-character separator. *)
Fixpoint split (sep : ascii) (s : string) : list string :=
  match s with
  | EmptyString => [EmptyString]
  | String c s' =>
      if Ascii.eqb c sep then EmptyString :: split sep s'
      else match split sep s' with
           | part :: parts => String c part :: parts
           | [] => [String c EmptyString]
           end
  end.

(** [s.includes(c)] for a one-character argument. *)
Fixpoint includesChar (c : ascii) (s : string) : bool :=
  match s with
  | EmptyString => false
  | String d s' => Ascii.eqb c d || includesChar c s'
  end.

(** [s.replace(/c/mg, '')]: every occurrence of the character removed. *)
Fixpoint removeAll (c : ascii) (s : string) : string :=
  match s with
  | EmptyString => EmptyString
  | String d s' => if Ascii.eqb c d then removeAll c s' else String d (removeAll c s')
  end.

(** The expansion of a replacement string by [String.prototype.replace]
    (GetSubstitution) for a pattern without capture groups: [$$] is a dollar,
    [$&] the matched text, [$`] the text before the match and [$'] the text
    after it; every other character stands for itself. *)
Fixpoint getSubstitution (matched before after replacement : string) : string :=
  match replacement with
  | EmptyString => EmptyString
  | String c r =>
      if Ascii.eqb c "$" then
        match r with
        | EmptyString => String c EmptyString
        | String d r' =>
            if Ascii.eqb d "$" then String "$" (getSubstitution matched before after r')
            else if Ascii.eqb d "&" then matched +:+ getSubstitution matched before after r'
            else if Ascii.eqb d "`" then before +:+ getSubstitution matched before after r'
            else if Ascii.eqb d "'" then after +:+ getSubstitution matched before after r'
            else String c (getSubstitution matched before after r)
        end
      else String c (getSubstitution matched before after r)
  end.

(** A pattern, seen at one position of the text: the matched text and what
    follows it when the pattern matches there. *)
Definition Matcher := string -> option (string * string).

(** The leftmost match: the text before it, the match and the text after. *)
Fixpoint search (m : Matcher) (s : string) : option (string * string * string) :=
  match m s with
  | Some (matched, after) => Some (EmptyString, matched, after)
  | None =>
      match s with
      | EmptyString => None
      | String c s' =>
          match search m s' with
          | Some (before, matched, after) => Some (String c before, matched, after)
          | None => None
          end
      end
  end.

(** [s.replace(pattern, replacement)] without the [g] flag: the leftmost
    match only is replaced. *)
Definition replace (m : Matcher) (replacement s : string) : string :=
  match search m s with
  | Some (before, matched, after) =>
      before +:+ getSubstitution matched before after replacement +:+ after
  | None => s
  end.

(** A string pattern. *)
Definition literal (pattern : string) : Matcher :=
  fun s => match stripPrefix pattern s with
           | Some after => Some (pattern, after)
           | None => None
           end.

(** [/\$\{?VARIANT\}?/] *)
Definition variantPlaceholder : Matcher :=
  fun s =>
    let closing (opened after : string) :=
      match after with
      | String c after' =>
          if Ascii.eqb c "}" then (opened +:+ "}", after') else (opened, after)
      | EmptyString => (opened, after)
      end in
    match stripPrefix "${VARIANT" s with
    | Some after => Some (closing "${VARIANT" after)
    | None =>
        match stripPrefix "$VARIANT" s with
        | Some after => Some (closing "$VARIANT" after)
        | None => None
        end
    end.

(** The longest run of characters that [.] matches at the start of [s]. *)
Fixpoint lineLength (s : string) : nat :=
  match s with
  | EmptyString => 0
  | String c s' => if isLineTerminator c then 0 else S (lineLength s')
  end.

(** [/:.+/] *)
Definition colonAndRest : Matcher :=
  fun s =>
    match s with
    | String c after =>
        if Ascii.eqb c ":" then
          match lineLength after with
          | 0 => None
          | S n => Some (String c (take (S n) after), drop (S n) after)
          end
        else None
    | EmptyString => None
    end.

(** The number of digits at the start of [s]. *)
Fixpoint digitsLength (s : string) : nat :=
  match s with
  | EmptyString => 0
  | String c s' => if isDigit c then S (digitsLength s') else 0
  end.

(** [s.replace(/^\d+-/, '')] *)
Definition stripNumericPrefix (s : string) : string :=
  match digitsLength s with
  | 0 => s
  | S n =>
      match drop (S n) s with
      | String c after => if Ascii.eqb c "-" then after else s
      | EmptyString => s
      end
  end.

(** *** The regular expressions built by [new RegExp]

    The patterns built from a registry and a registry path use literal
    characters, [.], [.+] and the capturing [(.+)]. *)
Inductive RegexItem :=
| RChar (c : ascii)
| RDot
| RDotPlus
| RGroupDotPlus.

(** The greedy [.+]: the longest run first, then shorter ones, down to one
    character, until the rest of the pattern matches. *)
Fixpoint tryLengths (rest : string -> option (list string)) (capture : bool)
    (s : string) (n : nat) : option (list string) :=
  match n with
  | 0 => None
  | S n' =>
      match rest (drop n s) with
      | Some groups => Some (if capture then take n s :: groups else groups)
      | None => tryLengths rest capture s n'
      end
  end.

(** The capture groups when the items match at the start of [s]. *)
Fixpoint matchItems (items : list RegexItem) (s : string) : option (list string) :=
  match items with
  | [] => Some []
  | RChar c :: rest =>
      match s with
      | String d s' => if Ascii.eqb c d then matchItems rest s' else None
      | EmptyString => None
      end
  | RDot :: rest =>
      match s with
      | String d s' => if isLineTerminator d then None else matchItems rest s'
      | EmptyString => None
      end
  | RDotPlus :: rest => tryLengths (matchItems rest) false s (lineLength s)
  | RGroupDotPlus :: rest => tryLengths (matchItems rest) true s (lineLength s)
  end.

(** [regexp.exec(s)]: the capture groups of the leftmost match. *)
Fixpoint exec (items : list RegexItem) (s : string) : option (list string) :=
  match matchItems items s with
  | Some groups => Some groups
  | None =>
      match s with
      | EmptyString => None
      | String _ s' => exec items s'
      end
  end.

(** The characters with a meaning of their own in a regular expression,
    [.] apart. *)
Definition isRegexSyntax (c : ascii) : bool :=
  includesChar c "\^$*+?()[]{}|".

(** The items of a regular expression source made of literal characters and
    [.]; [None] for a source with other regular expression syntax, which this
    development does not interpret. *)
Fixpoint plainItems (source : string) : option (list RegexItem) :=
  match source with
  | EmptyString => Some []
  | String c source' =>
      if isRegexSyntax c then None
      else match plainItems source' with
           | Some items => Some ((if Ascii.eqb c "." then RDot else RChar c) :: items)
           | None => None
           end
  end.

End JS.

(** ** Results of functions that can throw *)

(** What the module throws: the [TypeError] of the runtime, raised when a
    property of [undefined] or [null] is read, or a string. *)
Inductive Thrown :=
| TypeError
| ThrownString (message : string).

Inductive Outcome (A : Type) :=
| Returns (a : A)
| Throws (e : Thrown).

Arguments Returns {A} a.
Arguments Throws {A} e.

Global Instance Outcome_ret : MRet Outcome := @Returns.
Global Instance Outcome_bind : MBind Outcome :=
  fun A B f o => match o with Returns a => f a | Throws e => Throws e end.

(** [l.forEach] with a body that updates an accumulator and can throw. *)
Fixpoint forEachOutcome {A B : Type} (f : B -> A -> Outcome B) (l : list A) (acc : B)
    : Outcome B :=
  match l with
  | [] => Returns acc
  | x :: l' => acc' ← f acc x; forEachOutcome f l' acc'
  end.

(** ** The registry: [config] *)

(** [obj[key]] for an object kept as an association list. *)
Fixpoint property {A : Type} (key : string) (obj : list (string * A)) : option A :=
  match obj with
  | [] => None
  | (k, v) :: obj' => if String.eqb k key then Some v else property key obj'
  end.

(** The names of the members that every object inherits from
    [Object.prototype]: for such a [key] that is no own key of [obj],
    [obj[key]] is the inherited member, a function or an object, and not
    [undefined]. *)
Definition inheritedName (key : string) : bool :=
  bool_decide (key ∈ ["constructor"; "__defineGetter__"; "__defineSetter__";
                      "hasOwnProperty"; "__lookupGetter__"; "__lookupSetter__";
                      "isPrototypeOf"; "propertyIsEnumerable"; "toString"; "valueOf";
                      "__proto__"; "toLocaleString"]).

(** The [parent] of a definition: absent, a definition id, or an object from
    variant to parent id. *)
Inductive Parent :=
| NoParent
| ParentId (id : string)
| ParentMap (variantParentMap : list (string * string)).

(** The [latest] property: absent, a boolean, or the name of a variant. *)
Inductive Latest :=
| LatestAbsent
| LatestBool (b : bool)
| LatestVariant (variant : string).

Global Instance Latest_eq_dec : EqDecision Latest.
Proof. solve_decision. Defined.

(** An entry of [config.definitionBuildSettings]: the [build] object of a
    manifest. *)
Record BuildSettings := {
  tags : option (list string);
  parent : Parent;
  variantTags : option (list (string * list string));
  versionedTagsOnly : bool;
  latest : Latest;
  idMismatch : option string
}.

Record Config := {
  definitionBuildSettings : list (string * BuildSettings);
  definitionVariants : gmap string (list string);
  definitionVersions : gmap string string
}.

(** [config.definitionBuildSettings[definitionId]] *)
Definition buildSettings (config : Config) (definitionId : string) : option BuildSettings :=
  property definitionId (definitionBuildSettings config).

(** A variant argument: [None] when it is not passed or is [null]. *)
Definition truthyVariant (variant : option string) : bool :=
  match variant with
  | Some v => JS.truthy v
  | None => false
  end.

(** The key under which a value is looked up in an object. *)
Definition propertyKey (variant : option string) : string :=
  match variant with
  | Some v => v
  | None => "undefined"
  end.

(** The [variant] argument of [getTagList], which the function compares with
    [===]: not passed ([undefined]), [null], or a string. *)
Inductive VariantArgument :=
| NotPassed
| Null
| Named (variant : string).

Global Instance VariantArgument_eq_dec : EqDecision VariantArgument.
Proof. solve_decision. Defined.

(** The string of a variant argument, for the uses that do not tell
    [undefined] from [null]. *)
Definition variantString (variant : VariantArgument) : option string :=
  match variant with
  | Named v => Some v
  | NotPassed | Null => None
  end.

(** An element of an array of variants read by index: [undefined] out of
    range. *)
Definition variantAt (variant : option string) : VariantArgument :=
  match variant with
  | Some v => Named v
  | None => NotPassed
  end.

(** ** Tag generator *)

Section TagGenerator.

Variable config : Config.

Definition getVersionFromRelease (release definitionId : string) : option string :=
  let definitionId := if JS.truthy definitionId then definitionId else "NOT SPECIFIED" in
  match release with
  | String c0 (String c1 _) =>
      if Ascii.eqb c0 "v" && JS.isDigit c1
      then definitionVersions config !! definitionId
      else Some "dev"
  | _ => Some "dev"
  end.

(** The prefix [`${registry}/${registryPath}/`] of a tag. *)
Definition qualify (registry registryPath tag : string) : string :=
  registry +:+ "/" +:+ registryPath +:+ "/" +:+ tag.

(** [list.indexOf(x) < 0 ? list.push(x)] *)
Definition pushNew (seen : list string) (x : string) : list string :=
  if bool_decide (x ∈ seen) then seen else seen ++ [x].

(** For an id that the registry does not have, [typeof] is ['undefined']
    unless the id names an inherited member, whose [tags] are [undefined]. *)
Definition getLatestTag (definitionId registry registryPath : string)
    : Outcome (option (list string)) :=
  match buildSettings config definitionId with
  | None => if inheritedName definitionId then Throws TypeError else Returns None
  | Some settings =>
      match tags settings with
      | None => Throws TypeError
      | Some tags =>
          Returns (Some (fold_left
            (fun seen tag =>
               let latest :=
                 qualify registry registryPath (JS.replace JS.colonAndRest ":latest" tag) in
               pushNew seen latest)
            tags []))
      end
  end.

Definition getVariants (definitionId : string) : option (list string) :=
  definitionVariants config !! definitionId.

(** [variant || 'NOVARIANT'] *)
Definition orNoVariant (variant : option string) : string :=
  match variant with
  | Some v => if JS.truthy v then v else "NOVARIANT"
  | None => "NOVARIANT"
  end.

(** The chain of replacements applied to a tag template. *)
Definition baseTag (version : string) (variant : option string) (tag : string) : string :=
  JS.replace (JS.literal "-NOVARIANT") ""
    (JS.replace JS.variantPlaceholder (orNoVariant variant)
       (JS.replace (JS.literal ":-") ":"
          (JS.replace (JS.literal "${VERSION}") version tag))).

(** [['${VARIANT}', '$VARIANT'].indexOf(variant) > -1] *)
Definition isPlaceholder (variant : option string) : bool :=
  match variant with
  | Some v => String.eqb v "${VARIANT}" || String.eqb v "$VARIANT"
  | None => false
  end.

(** The version a tag is generated for: ['dev'] is made specific to the
    definition when the definition has versioned tags only. *)
Definition tagVersion (settings : BuildSettings) (definitionId version : string) : string :=
  if String.eqb version "dev" then
    if versionedTagsOnly settings then "dev-" +:+ JS.removeAll "-" definitionId else "dev"
  else version.

(** The variant a tag is generated for: the first variant of the definition
    when none is passed, [NOVARIANT] when the definition has no variants. *)
Definition tagVariant (definitionId : string) (variant : option string) : option string :=
  if truthyVariant variant then variant
  else match getVariants definitionId with
       | Some variants => head variants
       | None => Some "NOVARIANT"
       end.

(** [variantTags[variant] || []]: the tags of the entry of the variant, no
    tags when [variantTags] has no such entry, and [None] when it has no such
    entry and the variant names an inherited member, which is then what the
    expression gives. *)
Definition variantEntryTags (variantTags : list (string * list string))
    (variant : option string) : option (list string) :=
  match property (propertyKey variant) variantTags with
  | Some variantEntry => Some variantEntry
  | None => if inheritedName (propertyKey variant) then None else Some []
  end.

(** The templates of a definition for a variant: its [tags], followed by the
    tags of every entry of [variantTags] for a placeholder variant and by the
    tags of the entry of the variant otherwise; [None] when an inherited
    member is concatenated in place of tags. *)
Definition tagTemplates (settings : BuildSettings) (tags : list string)
    (variant : option string) : option (list string) :=
  match variantTags settings with
  | None => Some tags
  | Some variantTags =>
      if isPlaceholder variant
      then Some (fold_left (fun tags variantEntry => tags ++ variantEntry.2) variantTags tags)
      else variantEntry ← variantEntryTags variantTags variant; Some (tags ++ variantEntry)
  end.

(** Like [getLatestTag] for an id that the registry does not have. An
    inherited member among the templates is not a string: its [replace] is
    not a function. *)
Definition getTagsForVersion (definitionId version registry registryPath : string)
    (variant : option string) : Outcome (option (list string)) :=
  match buildSettings config definitionId with
  | None => if inheritedName definitionId then Throws TypeError else Returns None
  | Some settings =>
      let version := tagVersion settings definitionId version in
      let variant := tagVariant definitionId variant in
      match tags settings with
      | None => Throws TypeError
      | Some tags =>
          match tagTemplates settings tags variant with
          | None => Throws TypeError
          | Some tags =>
              Returns (Some (fold_left
                (fun kept tag =>
                   let baseTag := baseTag version variant tag in
                   if JS.endsWithColon baseTag then kept
                   else kept ++ [qualify registry registryPath baseTag])
                tags []))
          end
      end
  end.

(** The argument [versionPartHandling] of [getTagList]: a boolean or the name
    of a mode; any other value behaves as a name that no [case] has. *)
Inductive Handling :=
| HBool (b : bool)
| HString (mode : string).

(** The [switch] of [getTagList]: [updateLatest], [updateUnversionedTags] and
    [versionList]; [None] when no case applies and the three stay undefined. *)
Definition versionSwitch (versionPartHandling : Handling) (version major minor : string)
    : option (bool * bool * list string) :=
  let allLatest := Some (true, true, [version; major +:+ "." +:+ minor; major]) in
  let all := Some (false, true, [version; major +:+ "." +:+ minor; major]) in
  match versionPartHandling with
  | HBool true => allLatest
  | HBool false => all
  | HString mode =>
      if String.eqb mode "all-latest" then allLatest
      else if String.eqb mode "all" then all
      else if String.eqb mode "full-only" then Some (false, false, [version])
      else if String.eqb mode "major-minor" then Some (false, false, [major +:+ "." +:+ minor])
      else if String.eqb mode "major" then Some (false, false, [major])
      else None
  end.

(** The truth value of the [latest] property. *)
Definition truthyLatest (latest : Latest) : bool :=
  match latest with
  | LatestAbsent => false
  | LatestBool b => b
  | LatestVariant v => JS.truthy v
  end.

(** [variant === definitionLatestProperty] *)
Definition isLatestVariant (variant : option string) (latest : Latest) : bool :=
  match variant, latest with
  | Some v, LatestVariant l => String.eqb v l
  | _, _ => false
  end.

(** [definitionLatestProperty === true] *)
Definition isTrue (latest : Latest) : bool :=
  match latest with
  | LatestBool true => true
  | _ => false
  end.

(** [variant === firstVariant]: [undefined] and [null] are not the same. *)
Definition sameVariant (variant firstVariant : VariantArgument) : bool :=
  bool_decide (variant = firstVariant).

Definition getTagList (definitionId release : string) (versionPartHandling : Handling)
    (registry registryPath : string) (variant : VariantArgument)
    : Outcome (option (list string)) :=
  match getVersionFromRelease release definitionId with
  | None => Throws TypeError
  | Some version =>
      if String.eqb version "dev"
      then getTagsForVersion definitionId version registry registryPath
             (variantString variant)
      else
        match JS.split "." version with
        | [major; minor; _] =>
            match versionSwitch versionPartHandling version major minor with
            | None => Throws TypeError
            | Some (updateLatest, updateUnversionedTags, versionList) =>
                versionList ←
                  (if updateUnversionedTags then
                     match buildSettings config definitionId with
                     | None => Throws TypeError
                     | Some settings =>
                         Returns (if versionedTagsOnly settings then versionList
                                  else versionList ++ [""])
                     end
                   else Returns versionList);
                let allVariants := getVariants definitionId in
                let firstVariant :=
                  match allVariants with
                  | Some variants => variantAt (head variants)
                  | None => variant
                  end in
                tagList ←
                  forEachOutcome
                    (fun tagList tagVersion =>
                       tagsForVersion ←
                         getTagsForVersion definitionId tagVersion registry registryPath
                           (variantString variant);
                       match tagsForVersion with
                       | Some tagsForVersion => Returns (tagList ++ tagsForVersion)
                       | None => Throws TypeError
                       end)
                    versionList [];
                match buildSettings config definitionId with
                | None => Throws TypeError
                | Some settings =>
                    let definitionLatestProperty := latest settings in
                    if updateLatest
                       && truthyLatest definitionLatestProperty
                       && (negb (bool_decide (is_Some allVariants))
                           || isLatestVariant (variantString variant)
                                definitionLatestProperty
                           || (isTrue definitionLatestProperty
                               && sameVariant variant firstVariant))
                    then
                      latestTags ← getLatestTag definitionId registry registryPath;
                      match latestTags with
                      | Some latestTags => Returns (Some (tagList ++ latestTags))
                      | None => Throws TypeError
                      end
                    else Returns (Some tagList)
                end
            end
        | _ => Throws (ThrownString ("Invalid version format in " +:+ version +:+ "."))
        end
  end.

End TagGenerator.

(** ** Tag reverse lookup *)

(** [{ id, variant }]: what [getDefinitionObject] builds and what
    [definitionTagLookup] holds. *)
Record DefinitionObject := getDefinitionObject {
  id : string;
  variant : option string
}.

Global Instance DefinitionObject_eq_dec : EqDecision DefinitionObject.
Proof. solve_decision. Defined.

Section TagLookup.

Variable config : Config.

(** The variants the lookup is populated for: the two placeholders first,
    then the variants of the definition; [undefined] alone for a definition
    without variants. *)
Definition lookupVariants (definitionId : string) : list (option string) :=
  match definitionVariants config !! definitionId with
  | Some definitionVariants =>
      Some "${VARIANT}" :: Some "$VARIANT" :: (Some <$> definitionVariants)
  | None => [None]
  end.

(** [tagList.forEach((tag) => { definitionTagLookup[tag] = { id, variant } })] *)
Definition recordTags (tagList : list string) (definition : DefinitionObject)
    (definitionTagLookup : gmap string DefinitionObject) : gmap string DefinitionObject :=
  fold_left (fun lookup tag => <[tag := definition]> lookup) tagList definitionTagLookup.

(** The tags of one version recorded for a definition and a variant; the
    [forEach] of a [null] tag list throws. *)
Definition recordVersion (definitionId version : string) (variant : option string)
    (definitionTagLookup : gmap string DefinitionObject)
    : Outcome (gmap string DefinitionObject) :=
  tagList ← getTagsForVersion config definitionId version "ANY" "ANY" variant;
  match tagList with
  | Some tagList =>
      Returns (recordTags tagList (getDefinitionObject definitionId variant)
                 definitionTagLookup)
  | None => Throws TypeError
  end.

(** The part of [loadConfig] that populates [definitionTagLookup], from an
    empty lookup. *)
Definition populateTagLookup : Outcome (gmap string DefinitionObject) :=
  forEachOutcome
    (fun definitionTagLookup '(definitionId, buildSettings) =>
       match tags buildSettings with
       | Some _ =>
           forEachOutcome
             (fun definitionTagLookup variant =>
                definitionTagLookup ←
                  recordVersion definitionId "" variant definitionTagLookup;
                recordVersion definitionId "dev" variant definitionTagLookup)
             (lookupVariants definitionId) definitionTagLookup
       | None => Returns definitionTagLookup
       end)
    (definitionBuildSettings config) ∅.

End TagLookup.

(** The source of a registry or registry path in the pattern of a tag: [.+]
    when it is not supplied. *)
Definition patternPart (part : option string) : option (list JS.RegexItem) :=
  if truthyVariant part then JS.plainItems (propertyKey part) else Some [JS.RDotPlus].

(** [new RegExp(`${registry}/${registryPath}/(.+):(.+)`)] *)
Definition tagPattern (registry registryPath : option string) : option (list JS.RegexItem) :=
  registry ← patternPart registry;
  registryPath ← patternPart registryPath;
  Some (registry ++ [JS.RChar "/"] ++ registryPath
        ++ [JS.RChar "/"; JS.RGroupDotPlus; JS.RChar ":"; JS.RGroupDotPlus]).

(** [getDefinitionFromTag]; [None] when the registry or the registry path
    holds regular expression syntax that [JS.plainItems] does not interpret. *)
Definition getDefinitionFromTag (definitionTagLookup : gmap string DefinitionObject)
    (tag : string) (registry registryPath : option string)
    : option (Outcome (option DefinitionObject)) :=
  pattern ← tagPattern registry registryPath;
  Some
    match JS.exec pattern tag with
    | Some [repo; tagPart] =>
        match definitionTagLookup !! ("ANY/ANY/" +:+ repo +:+ ":" +:+ tagPart) with
        | Some definition => Returns (Some definition)
        | None =>
            Returns (definitionTagLookup
                       !! ("ANY/ANY/" +:+ repo +:+ ":" +:+ JS.stripNumericPrefix tagPart))
        end
    | _ => Throws TypeError
    end.

(** ** Build order planner *)

(** A build group, and a page once groups are folded together. *)
Abbreviation Group := (list DefinitionObject).

(** The module-level variables that the planner updates. *)
Record PlannerState := {
  variantsList : list Group;
  skipParentVariants : list DefinitionObject
}.

(** A computation that updates the module-level variables and can throw;
    what it has written before a throw stays written. A group that a call
    returns is an array that stays in [variantsList]; the result of the
    computation is its value when the call returns. *)
Definition Planner (A : Type) : Type := PlannerState -> Outcome A * PlannerState.

Global Instance Planner_ret : MRet Planner := fun A a st => (Returns a, st).
Global Instance Planner_bind : MBind Planner :=
  fun A B f m st =>
    match m st with
    | (Returns a, st') => f a st'
    | (Throws e, st') => (Throws e, st')
    end.

Definition throwPlanner {A : Type} (e : Thrown) : Planner A := fun st => (Throws e, st).

(** [variantsList.push(group)] *)
Definition pushGroup (group : Group) : Planner unit :=
  fun st => (Returns (),
             {| variantsList := variantsList st ++ [group];
                skipParentVariants := skipParentVariants st |}).

(** [l.forEach] with a body that updates the module-level variables. *)
Fixpoint forEachPlanner {A : Type} (f : A -> Planner unit) (l : list A) : Planner unit :=
  match l with
  | [] => mret ()
  | x :: l' => _ ← f x; forEachPlanner f l'
  end.

(** *** Buckets

    An element of a bucket is a definition id; it is the [parent] object
    itself when a parent has a multi-parent [parent]. *)
Inductive BucketItem :=
| BId (definitionId : string)
| BObject.

Global Instance BucketItem_eq_dec : EqDecision BucketItem.
Proof. solve_decision. Defined.

(** The key an element has when it indexes [parentBuckets]. *)
Definition bucketKey (item : BucketItem) : string :=
  match item with
  | BId definitionId => definitionId
  | BObject => "[object Object]"
  end.

(** [parentBuckets]: its keys in insertion order, each with a reference to
    an array or with [undefined], and the arrays. Several keys can refer to
    one array. *)
Record ParentBuckets := {
  bucketRefs : list (string * option nat);
  bucketArrays : list (list BucketItem)
}.

(** [parentBuckets[key]], when it is an array. *)
Definition bucketRef (key : string) (parentBuckets : ParentBuckets) : option nat :=
  mjoin (property key (bucketRefs parentBuckets)).

(** [obj[key] = value], in place when the key exists. *)
Fixpoint setProperty {A : Type} (key : string) (value : A) (obj : list (string * A))
    : list (string * A) :=
  match obj with
  | [] => [(key, value)]
  | (k, v) :: obj' =>
      if String.eqb k key then (k, value) :: obj' else (k, v) :: setProperty key value obj'
  end.

Definition setBucket (key : string) (ref : option nat) (parentBuckets : ParentBuckets)
    : ParentBuckets :=
  {| bucketRefs := setProperty key ref (bucketRefs parentBuckets);
     bucketArrays := bucketArrays parentBuckets |}.

(** A new array. *)
Definition newArray (items : list BucketItem) (parentBuckets : ParentBuckets)
    : nat * ParentBuckets :=
  (length (bucketArrays parentBuckets),
   {| bucketRefs := bucketRefs parentBuckets;
      bucketArrays := bucketArrays parentBuckets ++ [items] |}).

Definition readArray (ref : nat) (parentBuckets : ParentBuckets) : list BucketItem :=
  default [] (bucketArrays parentBuckets !! ref).

Definition writeArray (ref : nat) (items : list BucketItem) (parentBuckets : ParentBuckets)
    : ParentBuckets :=
  {| bucketRefs := bucketRefs parentBuckets;
     bucketArrays := <[ref := items]> (bucketArrays parentBuckets) |}.

(** [parentBuckets[key] || [item]]: the array of the key, or a new one. *)
Definition bucketOrNew (key : string) (item : BucketItem) (parentBuckets : ParentBuckets)
    : nat * ParentBuckets :=
  match bucketRef key parentBuckets with
  | Some ref => (ref, parentBuckets)
  | None => newArray [item] parentBuckets
  end.

(** [if (bucket.indexOf(item) < 0) bucket.push(item)] *)
Definition pushAbsent (ref : nat) (item : BucketItem) (parentBuckets : ParentBuckets)
    : ParentBuckets :=
  let bucket := readArray ref parentBuckets in
  if bool_decide (item ∈ bucket) then parentBuckets
  else writeArray ref (bucket ++ [item]) parentBuckets.

(** [noParentList.splice(noParentList.indexOf(parentId), 1)]: for an id that
    is not in the list the index is -1 and the last element is removed. *)
Fixpoint indexOf (x : string) (l : list string) : option nat :=
  match l with
  | [] => None
  | y :: l' => if String.eqb y x then Some 0 else S <$> indexOf x l'
  end.

Definition spliceIndexOf (x : string) (l : list string) : list string :=
  match indexOf x l with
  | Some i => delete i l
  | None => removelast l
  end.

(** [typeof parent] is neither ['undefined'] nor an empty string. *)
Definition truthyParent (parent : Parent) : bool :=
  match parent with
  | NoParent => false
  | ParentId parentId => JS.truthy parentId
  | ParentMap _ => true
  end.

(** [a.id === b.id && a.variant === b.variant] *)
Definition sameItem (a b : DefinitionObject) : bool := bool_decide (a = b).

Section Planner.

Variable config : Config.

(** The parent id, [None] for the [undefined] that an empty map gives. *)
Definition createMultiParentBucket (variantParentMap : list (string * string))
    (parentBuckets : ParentBuckets) (dupeBuckets : list string)
    : option string * ParentBuckets * list string :=
  match variantParentMap with
  | [] => (None, parentBuckets, dupeBuckets)
  | (_, parentId) :: _ =>
      let '(firstParentBucket, parentBuckets) :=
        bucketOrNew parentId (BId parentId) parentBuckets in
      let '(parentBuckets, dupeBuckets) :=
        fold_left
          (fun '(parentBuckets, dupeBuckets) '(currentVariant, currentParentId) =>
             if String.eqb currentParentId parentId then (parentBuckets, dupeBuckets)
             else
               let merged :=
                 match bucketRef currentParentId parentBuckets with
                 | Some currentParentBucket =>
                     if bool_decide (currentParentId ∈ dupeBuckets)
                     then pushAbsent firstParentBucket (BId currentParentId) parentBuckets
                     else writeArray firstParentBucket
                            (readArray firstParentBucket parentBuckets
                             ++ readArray currentParentBucket parentBuckets)
                            parentBuckets
                 | None => pushAbsent firstParentBucket (BId currentParentId) parentBuckets
                 end in
               (setBucket currentParentId (Some firstParentBucket) merged,
                dupeBuckets ++ [currentParentId]))
          variantParentMap (parentBuckets, dupeBuckets) in
      (Some parentId, setBucket parentId (Some firstParentBucket) parentBuckets, dupeBuckets)
  end.

(** The parent id is [None] when it is [undefined]: reading the build
    settings of [undefined] throws (no definition has that name). *)
Definition bucketDefinition (definitionId : string) (parentId : option string)
    (parentBuckets : ParentBuckets) : Outcome ParentBuckets :=
  match parentId ≫= buildSettings config with
  | None => Throws TypeError
  | Some parentSettings =>
      let oldParentId := propertyKey parentId in
      let '(parentId, parentBuckets) :=
        if truthyParent (parent parentSettings) then
          let parentId :=
            match parent parentSettings with
            | ParentId grandParentId => BId grandParentId
            | _ => BObject
            end in
          let '(bucket, parentBuckets) :=
            bucketOrNew (bucketKey parentId) parentId parentBuckets in
          let parentBuckets := setBucket (bucketKey parentId) (Some bucket) parentBuckets in
          (parentId, pushAbsent bucket (BId oldParentId) parentBuckets)
        else (BId oldParentId, parentBuckets) in
      let '(bucket, parentBuckets) :=
        bucketOrNew (bucketKey parentId) parentId parentBuckets in
      let parentBuckets := setBucket (bucketKey parentId) (Some bucket) parentBuckets in
      Returns (pushAbsent bucket (BId definitionId) parentBuckets)
  end.

(** The first loop of [getSortedDefinitionBuildList]: definitions bucketed
    by parent. *)
Definition bucketByParent (definitionsToSkip : list string)
    : Outcome (ParentBuckets * list string * list string) :=
  forEachOutcome
    (fun '(parentBuckets, dupeBuckets, noParentList) '(definitionId, settings) =>
       if bool_decide (definitionId ∈ definitionsToSkip)
       then Returns (parentBuckets, dupeBuckets, noParentList)
       else
         let parentId := parent settings in
         if truthyParent parentId then
           let '(parentId, parentBuckets, dupeBuckets) :=
             match parentId with
             | ParentMap variantParentMap =>
                 createMultiParentBucket variantParentMap parentBuckets dupeBuckets
             | ParentId parentId => (Some parentId, parentBuckets, dupeBuckets)
             | NoParent => (None, parentBuckets, dupeBuckets)
             end in
           parentBuckets ← bucketDefinition definitionId parentId parentBuckets;
           Returns (parentBuckets, dupeBuckets, noParentList)
         else Returns (parentBuckets, dupeBuckets, noParentList ++ [definitionId]))
    (definitionBuildSettings config)
    ({| bucketRefs := []; bucketArrays := [] |}, [], []).

(** The buckets without the duplicates, and the list of definitions without
    parent without the ids that have a bucket. *)
Definition pruneBuckets (parentBuckets : ParentBuckets) (dupeBuckets noParentList : list string)
    : ParentBuckets * list string :=
  let parentBuckets :=
    fold_left (fun parentBuckets currentBucketId => setBucket currentBucketId None parentBuckets)
      dupeBuckets parentBuckets in
  (parentBuckets,
   fold_left
     (fun noParentList '(parentId, _) =>
        if JS.truthy parentId then spliceIndexOf parentId noParentList else noParentList)
     (bucketRefs parentBuckets) noParentList).

(** The group of [variantsList] that holds the parent item gets the child
    item; [None] when no group holds the parent item. *)
Fixpoint pushToGroupOf (parentItem childItem : DefinitionObject) (groups : list Group)
    : option (list Group) :=
  match groups with
  | [] => None
  | group :: groups' =>
      if existsb (sameItem parentItem) group
      then Some ((group ++ [childItem]) :: groups')
      else (group ::.) <$> pushToGroupOf parentItem childItem groups'
  end.

Definition addToVariantsList (parentItem childItem : DefinitionObject) : Planner unit :=
  fun st =>
    let variantsList :=
      match pushToGroupOf parentItem childItem (variantsList st) with
      | Some variantsList => variantsList
      | None => variantsList st ++ [[parentItem; childItem]]
      end in
    (Returns (),
     {| variantsList := variantsList;
        skipParentVariants := skipParentVariants st ++ [parentItem] |}).

(** [skipParentVariants.filter(...).length === 0] *)
Definition notSkipped (definitionId : string) (variant : string) : Planner bool :=
  fun st =>
    (Returns (negb (existsb (sameItem (getDefinitionObject definitionId (Some variant)))
                      (skipParentVariants st))),
     st).

(** The id a variant has among the variants of the parent. *)
Definition parentVariantId (settings : BuildSettings) (variant : string) : string :=
  if bool_decide (idMismatch settings = Some "true") && JS.includesChar "-" variant
  then default "undefined" (JS.split "-" variant !! 1)
  else variant.

(** [parentVariants.includes(variant)], which throws when the parent has no
    variants. *)
Definition includesVariant (parentVariants : option (list string)) (variant : string)
    : Planner bool :=
  match parentVariants with
  | Some parentVariants => mret (bool_decide (variant ∈ parentVariants))
  | None => throwPlanner TypeError
  end.

(** The body of [definitionBucket.reverse().forEach], for the bucket of the
    key [id]. *)
Definition clubDefinition (id : string) (item : BucketItem) : Planner unit :=
  match item with
  | BObject => throwPlanner TypeError
  | BId definitionId =>
      let variants := definitionVariants config !! definitionId in
      match buildSettings config definitionId with
      | None => throwPlanner TypeError
      | Some settings =>
          let parentId := parent settings in
          match variants, parentId with
          | Some variants, NoParent | Some variants, ParentId EmptyString =>
              forEachPlanner
                (fun variant =>
                   keep ← notSkipped definitionId variant;
                   if keep : bool
                   then pushGroup [getDefinitionObject definitionId (Some variant)]
                   else mret ())
                variants
          | Some variants, ParentId parentId =>
              let parentVariants := definitionVariants config !! parentId in
              forEachPlanner
                (fun variant =>
                   let variantId := parentVariantId settings variant in
                   isParentVariant ← includesVariant parentVariants variantId;
                   if isParentVariant : bool
                   then addToVariantsList (getDefinitionObject parentId (Some variantId))
                          (getDefinitionObject definitionId (Some variant))
                   else pushGroup [getDefinitionObject definitionId (Some variant)])
                variants
          | None, ParentId parentId =>
              match tags settings with
              | Some _ =>
                  pushGroup [getDefinitionObject id None;
                             getDefinitionObject definitionId None]
              | None => mret ()
              end
          | _, ParentMap variantParentMap =>
              forEachPlanner
                (fun '(commonVariant, parentObjId) =>
                   let parentVariants := definitionVariants config !! parentObjId in
                   if JS.truthy commonVariant then
                     isParentVariant ← includesVariant parentVariants commonVariant;
                     if isParentVariant : bool
                     then addToVariantsList
                            (getDefinitionObject parentObjId (Some commonVariant))
                            (getDefinitionObject definitionId (Some commonVariant))
                     else if JS.truthy parentObjId
                     then pushGroup [getDefinitionObject definitionId (Some commonVariant)]
                     else mret ()
                   else
                     match tags settings with
                     | Some _ =>
                         pushGroup [getDefinitionObject commonVariant None;
                                    getDefinitionObject definitionId None]
                     | None => mret ()
                     end)
                variantParentMap
          | None, NoParent => mret ()
          end
      end
  end.

(** The second loop: every bucket is reversed in place and its definitions
    are clubbed with the variants of their parents. *)
Fixpoint clubBuckets (refs : list (string * option nat)) (parentBuckets : ParentBuckets)
    : Planner unit :=
  match refs with
  | [] => mret ()
  | (id, None) :: refs' => clubBuckets refs' parentBuckets
  | (id, Some definitionBucket) :: refs' =>
      let reversed := reverse (readArray definitionBucket parentBuckets) in
      let parentBuckets := writeArray definitionBucket reversed parentBuckets in
      _ ← forEachPlanner (clubDefinition id) reversed;
      clubBuckets refs' parentBuckets
  end.

(** The third loop: the definitions without parent, one group a variant. *)
Definition addNoParentList (noParentList : list string) : Planner unit :=
  forEachPlanner
    (fun definitionId =>
       match definitionVariants config !! definitionId with
       | Some variants =>
           forEachPlanner
             (fun variant => pushGroup [getDefinitionObject definitionId (Some variant)])
             variants
       | None =>
           match buildSettings config definitionId ≫= tags with
           | Some _ => pushGroup [getDefinitionObject definitionId None]
           | None => mret ()
           end
       end)
    noParentList.

End Planner.

(** *** Pagination *)

(** The [while] loop that adds the excess pages to the last one, [i] being
    [pageTotal] throughout; every turn removes a page, so that as many turns
    as there are pages are enough. *)
Fixpoint foldExcessPages (turns pageTotal : nat) (allPages : list Group) : list Group :=
  match turns with
  | 0 => allPages
  | S turns' =>
      if bool_decide (pageTotal < length allPages) then
        let lastPage := default [] (allPages !! (pageTotal - 1)) in
        let excess := default [] (allPages !! pageTotal) in
        foldExcessPages turns' pageTotal
          (delete pageTotal (<[pageTotal - 1 := lastPage ++ excess]> allPages))
      else allPages
  end.

(** The [for] loop that adds empty pages. *)
Definition padPages (pageTotal : nat) (allPages : list Group) : list Group :=
  allPages ++ replicate (pageTotal - length allPages) [].

(** The pagination of [getSortedDefinitionBuildList]. With too many pages
    and a page total below one, [allPages[pageTotal - 1]] is [undefined] and
    its [concat] throws. *)
Definition paginate (pageTotal : Z) (allPages : list Group) : Outcome (list Group) :=
  if bool_decide (pageTotal < Z.of_nat (length allPages))%Z then
    if bool_decide (pageTotal - 1 < 0)%Z then Throws TypeError
    else Returns (foldExcessPages (length allPages) (Z.to_nat pageTotal) allPages)
  else if bool_decide (Z.of_nat (length allPages) < pageTotal)%Z then
    Returns (padPages (Z.to_nat pageTotal) allPages)
  else Returns allPages.

(** [allPages[page - 1]] *)
Definition pageAt (page : Z) (allPages : list Group) : option Group :=
  if bool_decide (page - 1 < 0)%Z then None else allPages !! Z.to_nat (page - 1).

(** [x || 1] *)
Definition orOne (x : Z) : Z := if bool_decide (x = 0%Z) then 1%Z else x.

(** The end of [getSortedDefinitionBuildList]: the pages are [variantsList]
    itself, which stays paginated after the call. *)
Definition paginateVariantsList (page pageTotal : Z) : Planner (option Group) :=
  fun st =>
    match paginate pageTotal (variantsList st) with
    | Throws e => (Throws e, st)
    | Returns allPages =>
        (Returns (pageAt page allPages),
         {| variantsList := allPages; skipParentVariants := skipParentVariants st |})
    end.

Section SortedBuildList.

Variable config : Config.

(** The three loops of [getSortedDefinitionBuildList], which leave the build
    groups in [variantsList]. *)
Definition planGroups (definitionsToSkip : list string) : Planner unit :=
  match bucketByParent config definitionsToSkip with
  | Throws e => throwPlanner e
  | Returns (parentBuckets, dupeBuckets, noParentList) =>
      let '(parentBuckets, noParentList) :=
        pruneBuckets parentBuckets dupeBuckets noParentList in
      _ ← clubBuckets config (bucketRefs parentBuckets) parentBuckets;
      addNoParentList config noParentList
  end.

(** An argument that is not passed is [0]. *)
Definition getSortedDefinitionBuildList (page pageTotal : Z) (definitionsToSkip : list string)
    : Planner (option Group) :=
  let page := orOne page in
  let pageTotal := orOne pageTotal in
  _ ← planGroups definitionsToSkip;
  paginateVariantsList page pageTotal.

End SortedBuildList.

(** The module-level variables when the module is loaded. *)
Definition initialState : PlannerState :=
  {| variantsList := []; skipParentVariants := [] |}.

(** * Notions used in the statements *)

(** The variant tags of a definition are read by an own key: the definition
    has no [variantTags], or the variant is a placeholder, or [variantTags]
    has an entry for the variant, or the variant does not name an inherited
    member. *)
Definition ownVariantTags (settings : BuildSettings) (variant : option string) : bool :=
  match variantTags settings with
  | None => true
  | Some variantTags =>
      isPlaceholder variant
      || bool_decide (is_Some (property (propertyKey variant) variantTags))
      || negb (inheritedName (propertyKey variant))
  end.

(** The templates of a definition for a variant whose variant tags are read
    by an own key: the [tags], then the tags of every entry of [variantTags]
    for a placeholder variant, the tags of the entry of the variant
    otherwise. *)
Definition ownTemplates (settings : BuildSettings) (templates : list string)
    (variant : option string) : list string :=
  match variantTags settings with
  | None => templates
  | Some variantTags =>
      if isPlaceholder variant
      then templates ++ concat (snd <$> variantTags)
      else templates ++ default [] (property (propertyKey variant) variantTags)
  end.

(** The base tags of a definition for a version and a variant: the
    templates after the replacements, those that end in [:] left out. *)
Definition baseTags (config : Config) (settings : BuildSettings) (templates : list string)
    (definitionId version : string) (variant : option string) : list string :=
  List.filter (fun tag => negb (JS.endsWithColon tag))
    (baseTag (tagVersion settings definitionId version) (tagVariant config definitionId variant)
       <$> ownTemplates settings templates (tagVariant config definitionId variant)).






(** The latest form of a template: the text after the first [:] replaced by
    [latest]. The text is what follows the [:] up to the end of the line; a
    template without text after a [:] is its own latest form. *)
Fixpoint latestForm (tag : string) : string :=
  match tag with
  | EmptyString => EmptyString
  | String c rest =>
      if Ascii.eqb c ":" && negb (Nat.eqb (JS.lineLength rest) 0)
      then ":latest" +:+ JS.drop (JS.lineLength rest) rest
      else String c (latestForm rest)
  end.

(** A list without its duplicates, in first-seen order: an element is kept
    where it comes first and left out further on. *)
Fixpoint dedupe (l : list string) : list string :=
  match l with
  | [] => []
  | x :: l' => x :: List.filter (fun y => negb (String.eqb y x)) (dedupe l')
  end.

(** ** Registries used as examples *)

Definition settingsWithTags (templates : list string) : BuildSettings :=
  {| tags := Some templates; parent := NoParent; variantTags := None;
     versionedTagsOnly := false; latest := LatestAbsent; idMismatch := None |}.

(** One definition without variants, whose template has the variant in the
    middle. *)
Definition slimConfig : Config :=
  {| definitionBuildSettings := [("app", settingsWithTags ["app:${VERSION}-${VARIANT}-slim"])];
     definitionVariants := ∅;
     definitionVersions := ∅ |}.

(** One definition without variants, with a recorded version and the
    [latest] flag. *)
Definition pythonConfig : Config :=
  {| definitionBuildSettings :=
       [("python",
         {| tags := Some ["python:${VERSION}-3"]; parent := NoParent; variantTags := None;
            versionedTagsOnly := false; latest := LatestBool true; idMismatch := None |})];
     definitionVariants := ∅;
     definitionVersions := {[ "python" := "1.2.3" ]} |}.

(** The same definition with a recorded version of three parts that are not
    numbers. *)
Definition lettersConfig : Config :=
  {| definitionBuildSettings := definitionBuildSettings pythonConfig;
     definitionVariants := ∅;
     definitionVersions := {[ "python" := "a.b.c" ]} |}.

(** The same definition without a recorded version. *)
Definition unversionedConfig : Config :=
  {| definitionBuildSettings := definitionBuildSettings pythonConfig;
     definitionVariants := ∅;
     definitionVersions := ∅ |}.

(** ** Notions for [getTagList] *)

(** A function call raises an error. *)
Definition raises {A : Type} (o : Outcome A) : Prop :=
  match o with
  | Throws _ => True
  | Returns _ => False
  end.

(** A part of a version is numeric: digits, one at least. *)
Fixpoint allDigits (s : string) : bool :=
  match s with
  | EmptyString => true
  | String c s' => JS.isDigit c && allDigits s'
  end.

Definition numericPart (s : string) : bool := JS.truthy s && allDigits s.

(** A version splits into exactly three dot-separated numeric parts. *)
Definition threeNumericParts (version : string) : bool :=
  match JS.split "." version with
  | [major; minor; patch] => numericPart major && numericPart minor && numericPart patch
  | _ => false
  end.

(** A release string has the form [v<digit>...]. *)
Definition isReleaseString (release : string) : bool :=
  match release with
  | String c0 (String c1 _) => Ascii.eqb c0 "v" && JS.isDigit c1
  | _ => false
  end.

(** The values of [versionPartHandling] that [getTagList] knows. *)
Definition knownHandling (versionPartHandling : Handling) : bool :=
  match versionPartHandling with
  | HBool _ => true
  | HString mode =>
      bool_decide (mode ∈ ["all-latest"; "all"; "full-only"; "major-minor"; "major"])
  end.

(** The modes for which [updateLatest] is true. *)
Definition updatesLatest (versionPartHandling : Handling) : bool :=
  match versionPartHandling with
  | HBool b => b
  | HString mode => String.eqb mode "all-latest"
  end.

(** The modes for which [updateUnversionedTags] is true. *)
Definition updatesUnversionedTags (versionPartHandling : Handling) : bool :=
  match versionPartHandling with
  | HBool _ => true
  | HString mode => String.eqb mode "all-latest" || String.eqb mode "all"
  end.

(** The tags of a known definition for a list of versions, version after
    version. *)
Definition versionTags (config : Config) (settings : BuildSettings) (templates : list string)
    (definitionId registry registryPath : string) (variant : option string)
    (versionList : list string) : list string :=
  concat ((fun version =>
             qualify registry registryPath
               <$> baseTags config settings templates definitionId version variant)
          <$> versionList).

(** The latest tags of a definition with the given templates. *)
Definition latestTags (registry registryPath : string) (templates : list string)
    : list string :=
  dedupe ((fun tag => qualify registry registryPath (latestForm tag)) <$> templates).

(** When the latest tags are appended: the mode updates [latest], the
    definition declares a [latest] property ([true] or the name of a
    variant), and the definition has no variants, or the variant is the
    declared latest variant, or [latest] is [true] and the variant is the
    first declared variant; of an empty list of variants that is
    [undefined], which a variant that is not passed equals and [null] does
    not. *)
Definition latestAppended (versionPartHandling : Handling) (settings : BuildSettings)
    (allVariants : option (list string)) (variant : VariantArgument) : bool :=
  updatesLatest versionPartHandling
  && truthyLatest (latest settings)
  && (bool_decide (allVariants = None)
      || bool_decide (Some (latest settings) = LatestVariant <$> variantString variant)
      || (bool_decide (latest settings = LatestBool true)
          && bool_decide (variant = variantAt (allVariants ≫= head)))).

(** The versions that a mode selects, as the table of modes has them. *)
Definition selectedVersions (versionPartHandling : Handling) (version major minor : string)
    : list string :=
  let all := [version; major +:+ "." +:+ minor; major] in
  match versionPartHandling with
  | HBool _ => all
  | HString mode =>
      if bool_decide (mode ∈ ["all-latest"; "all"]) then all
      else if String.eqb mode "full-only" then [version]
      else if String.eqb mode "major-minor" then [major +:+ "." +:+ minor]
      else if String.eqb mode "major" then [major]
      else []
  end.

(** The versions that tags are generated for: the selected ones and, when
    the mode updates the unversioned tags of a definition that does not have
    versioned tags only, the empty version. *)
Definition expandedVersions (versionPartHandling : Handling) (settings : BuildSettings)
    (version major minor : string) : list string :=
  selectedVersions versionPartHandling version major minor
  ++ (if updatesUnversionedTags versionPartHandling && negb (versionedTagsOnly settings)
      then [""] else []).

(** ** Registries used as examples for the planner *)

(** A definition [base] with the variant [stretch] and a definition [child]
    with the parent [base] and the same variant. *)
Definition familyConfig : Config :=
  {| definitionBuildSettings :=
       [("base", settingsWithTags ["base:${VERSION}-${VARIANT}"]);
        ("child",
         {| tags := Some ["child:${VERSION}-${VARIANT}"]; parent := ParentId "base";
            variantTags := None; versionedTagsOnly := false; latest := LatestAbsent;
            idMismatch := None |})];
     definitionVariants := {[ "base" := ["stretch"]; "child" := ["stretch"] ]};
     definitionVersions := ∅ |}.

(** One definition without parent, with one declared variant. *)
Definition loneConfig : Config :=
  {| definitionBuildSettings := [("base", settingsWithTags ["base:${VERSION}-${VARIANT}"])];
     definitionVariants := {[ "base" := ["stretch"] ]};
     definitionVersions := ∅ |}.

(** ** Notions for the reverse lookup *)

(** A registry or registry path that [new RegExp] reads as itself: it is not
    empty and has no regular expression syntax other than [.]. *)
Definition plainText (s : string) : Prop :=
  JS.truthy s = true ∧ is_Some (JS.plainItems s).

(** A text without line terminator. *)
Definition onOneLine (s : string) : Prop := JS.lineLength s = String.length s.

(** The versions the lookup is populated for. *)
Definition lookupVersions : list string := [""; "dev"].

(** A tag of the lookup has a sole owner: no other definition and variant
    that the lookup is populated for generates it. *)
Definition soleOwner (config : Config) (key : string) (definition : DefinitionObject) : Prop :=
  ∀ definitionId variant version tagList,
    variant ∈ lookupVariants config definitionId →
    version ∈ lookupVersions →
    getTagsForVersion config definitionId version "ANY" "ANY" variant
      = Returns (Some tagList) →
    key ∈ tagList →
    getDefinitionObject definitionId variant = definition.

(** The lookup that [loadConfig] populates for [pythonConfig]. *)
Definition pythonLookup : gmap string DefinitionObject :=
  match populateTagLookup pythonConfig with
  | Returns definitionTagLookup => definitionTagLookup
  | Throws _ => ∅
  end.

(** One definition without variants, whose first template is the version
    alone after the [:]. *)
Definition colonConfig : Config :=
  {| definitionBuildSettings :=
       [("app", settingsWithTags ["app:${VERSION}"; "app:${VERSION}-slim"])];
     definitionVariants := ∅;
     definitionVersions := ∅ |}.

(** One definition with two variants and a template without the variant. *)
Definition sharedConfig : Config :=
  {| definitionBuildSettings := [("img", settingsWithTags ["img:${VERSION}"])];
     definitionVariants := {[ "img" := ["a"; "b"] ]};
     definitionVersions := ∅ |}.

(** The lookup that [loadConfig] populates for [sharedConfig]. *)
Definition sharedLookup : gmap string DefinitionObject :=
  match populateTagLookup sharedConfig with
  | Returns definitionTagLookup => definitionTagLookup
  | Throws _ => ∅
  end.

(** ** Notions for the further properties *)

(** The groups that a definition without parent gives: one a variant, or one
    without variant for a definition with tags and without variants. *)
Definition ownGroups (config : Config) (definitionId : string) : list Group :=
  match definitionVariants config !! definitionId with
  | Some variants =>
      (fun variant => [getDefinitionObject definitionId (Some variant)]) <$> variants
  | None =>
      match buildSettings config definitionId ≫= tags with
      | Some _ => [[getDefinitionObject definitionId None]]
      | None => []
      end
  end.

(** The ids of the registry that are not skipped, in enumeration order. *)
Definition keptIds (config : Config) (definitionsToSkip : list string) : list string :=
  List.filter (fun definitionId => negb (bool_decide (definitionId ∈ definitionsToSkip)))
    (definitionBuildSettings config).*1.

(** A text made of digits only. *)
Definition digitsOnly (s : string) : Prop := JS.digitsLength s = String.length s.

(** ** The other functions of the module *)

Section MoreTagFunctions.

Variable config : Config.

(** [majorFromRelease]: [version.split] throws for a release without
    recorded version. *)
Definition majorFromRelease (release definitionId : string) : Outcome string :=
  match getVersionFromRelease config release definitionId with
  | None => Throws TypeError
  | Some version =>
      if String.eqb version "dev" then Returns "dev"
      else
        let versionParts := JS.split "." version in
        Returns (default "" (versionParts !! 0))
  end.

End MoreTagFunctions.

(** ** Notions for the entries of the lookup *)

(** A definition and a variant generate a tag of the lookup: the definition
    is in the registry, the variant is one that the lookup is populated for,
    and the tag is in the tag list of one of the two versions of the lookup,
    with ["ANY"/"ANY"]. *)
Definition generates (config : Config) (definition : DefinitionObject) (key : string)
    : Prop :=
  ∃ settings version tagList,
    (id definition, settings) ∈ definitionBuildSettings config
    ∧ variant definition ∈ lookupVariants config (id definition)
    ∧ version ∈ lookupVersions
    ∧ getTagsForVersion config (id definition) version "ANY" "ANY" (variant definition)
      = Returns (Some tagList)
    ∧ key ∈ tagList.

(** What the lookup holds was generated. *)
Definition generatedEntries (config : Config)
    (definitionTagLookup : gmap string DefinitionObject) : Prop :=
  ∀ key definition,
    definitionTagLookup !! key = Some definition → generates config definition key.

(** ** Parent tags *)

(** The [parentVariant] property of the build settings of a definition:
    absent, the name of a variant, or an object from variant to parent
    variant; the variant that is looked up in such an object is a key of it
    or names no inherited member. *)
Inductive ParentVariant :=
| NoParentVariant
| ParentVariantName (parentVariant : string)
| ParentVariantMap (variantMap : list (string * string)).

(** [Object.keys(s)[0]] for a string, as a property key: the index of the
    first character, [undefined] for the empty string. *)
Definition firstKeyOfString (s : string) : string :=
  if JS.truthy s then "0" else "undefined".

(** [list.includes(x)] for a list of strings and a string or [undefined]. *)
Definition includesOption (l : list string) (x : option string) : bool :=
  match x with
  | Some x => bool_decide (x ∈ l)
  | None => false
  end.

Section ParentTag.

Variable config : Config.

(** [variant ? parentId[variant] : parentId[Object.keys(parentId)[0]]] for a
    multi-parent [parent]. For a variant without entry that names an
    inherited member the parent is that member, a function or an object
    whose text is no definition id: it has no variants and no build settings,
    [getTagsForVersion] returns [null] for it, and reading the first of its
    tags throws. *)
Definition parentOfVariant (variantParentMap : list (string * string))
    (variant : option string) : Outcome (option string) :=
  if truthyVariant variant then
    match property (propertyKey variant) variantParentMap with
    | Some parentId => Returns (Some parentId)
    | None => if inheritedName (propertyKey variant) then Throws TypeError else Returns None
    end
  else
    match variantParentMap with
    | [] => Returns None
    | (firstVariant, _) :: _ => Returns (property firstVariant variantParentMap)
    end.

(** The variant of the parent: the [parentVariant] of the build settings, or
    the variant of the child; the entry of the variant when the value is not
    a string, which throws for a value that is [undefined]. *)
Definition resolveParentVariant (parentVariant : ParentVariant)
    (parentId variant : option string) : Outcome (option string) :=
  let ofVariant :=
    match variant with
    | Some variant => Returns (Some variant)
    | None => Throws TypeError
    end in
  match parentVariant with
  | NoParentVariant => ofVariant
  | ParentVariantName parentVariant =>
      if JS.truthy parentVariant then Returns (Some parentVariant) else ofVariant
  | ParentVariantMap variantMap =>
      if truthyVariant variant then Returns (property (propertyKey variant) variantMap)
      else
        match parentId with
        | Some parentId => Returns (property (firstKeyOfString parentId) variantMap)
        | None => Throws TypeError
        end
  end.

(** The variant that is looked for among the variants of the parent;
    [variant.includes] throws when no variant is passed. *)
Definition variantIdForParent (settings : BuildSettings) (variant : option string)
    : Outcome (option string) :=
  match variant with
  | Some variant => Returns (Some (parentVariantId settings variant))
  | None =>
      if bool_decide (idMismatch settings = Some "true") then Throws TypeError
      else Returns None
  end.

(** The message thrown for a variant that the parent does not have. *)
Definition noParentVariantMessage (parentVariantId parentId : option string)
    (parentVariantList : list string) : string :=
  "Unable to determine variant for parent. Variant " +:+ propertyKey parentVariantId
  +:+ " is not in " +:+ propertyKey parentId
  +:+ " list: " +:+ String.concat "," parentVariantList.

(** [getTagsForVersion(parentId, parentVersion, ...)] for a parent id and a
    version that can be [undefined]: an [undefined] version is written as
    the text [undefined], and [definitionId.replace] throws for an
    [undefined] id. *)
Definition getTagsForParent (parentId parentVersion : option string)
    (registry registryPath : string) (parentVariant : option string)
    : Outcome (option (list string)) :=
  let parentVersion := propertyKey parentVersion in
  match parentId with
  | Some parentId =>
      getTagsForVersion config parentId parentVersion registry registryPath parentVariant
  | None =>
      match buildSettings config "undefined" with
      | Some settings =>
          if String.eqb parentVersion "dev" && versionedTagsOnly settings
          then Throws TypeError
          else getTagsForVersion config "undefined" parentVersion registry registryPath
                 parentVariant
      | None => Returns None
      end
  end.

(** [getParentTagForVersion]; [parentVariant] is the property of this name of
    the build settings of [definitionId]. For an id that the registry does
    not have, reading [parent] throws, unless the id names an inherited
    member, which has no [parent]. *)
Definition getParentTagForVersion (parentVariant : ParentVariant)
    (definitionId version registry registryPath : string) (variant : option string)
    : Outcome (option string) :=
  match buildSettings config definitionId with
  | None => if inheritedName definitionId then Returns None else Throws TypeError
  | Some settings =>
      if truthyParent (parent settings) then
        parentId ←
          match parent settings with
          | ParentId parentId => Returns (Some parentId)
          | ParentMap variantParentMap => parentOfVariant variantParentMap variant
          | NoParent => Returns None
          end;
        let parentVariantList := getVariants config (propertyKey parentId) in
        parentVariant ←
          match parentVariantList with
          | Some parentVariantList =>
              parentVariant ← resolveParentVariant parentVariant parentId variant;
              parentVariantId ← variantIdForParent settings variant;
              if includesOption parentVariantList parentVariantId
              then Returns parentVariant
              else Throws (ThrownString
                             (noParentVariantMessage parentVariantId parentId
                                parentVariantList))
          | None => Returns None
          end;
        let parentVersion := getVersionFromRelease config version (default "" parentId) in
        parentTags ←
          getTagsForParent parentId parentVersion registry registryPath parentVariant;
        match parentTags with
        | Some parentTags => Returns (head parentTags)
        | None => Throws TypeError
        end
      else Returns None
  end.

End ParentTag.

(** *** Notions and registries for the parent tags *)

(** The first tag of a parent, for the version that a release has for the
    parent. *)
Definition firstParentTag (config : Config) (parentId version registry registryPath : string)
    (parentVariant : option string) : Outcome (option string) :=
  parentTags ←
    getTagsForVersion config parentId
      (propertyKey (getVersionFromRelease config version parentId))
      registry registryPath parentVariant;
  match parentTags with
  | Some parentTags => Returns (head parentTags)
  | None => Throws TypeError
  end.

(** A definition [base] without variants and a definition [child] with the
    parent [base] and a variant. *)
Definition plainParentConfig : Config :=
  {| definitionBuildSettings :=
       [("base", settingsWithTags ["base:${VERSION}"]);
        ("child",
         {| tags := Some ["child:${VERSION}-${VARIANT}"]; parent := ParentId "base";
            variantTags := None; versionedTagsOnly := false; latest := LatestAbsent;
            idMismatch := None |})];
     definitionVariants := {[ "child" := ["slim"] ]};
     definitionVersions := {[ "base" := "1.2.3"; "child" := "4.5.6" ]} |}.

(** Two definitions without variants and a definition [cpp] whose parent is
    the first for the variant [buster] and the second for the variant
    [focal]. *)
Definition multiParentSettings : BuildSettings :=
  {| tags := Some ["cpp:${VERSION}-${VARIANT}"];
     parent := ParentMap [("buster", "debian"); ("focal", "ubuntu")];
     variantTags := None; versionedTagsOnly := false; latest := LatestAbsent;
     idMismatch := None |}.

Definition multiParentConfig : Config :=
  {| definitionBuildSettings :=
       [("debian", settingsWithTags ["debian:${VERSION}"]);
        ("ubuntu", settingsWithTags ["ubuntu:${VERSION}"]);
        ("cpp", multiParentSettings)];
     definitionVariants := {[ "cpp" := ["buster"; "focal"] ]};
     definitionVersions := ∅ |}.

(** ** Updated tags *)

(** The expansion of a replacement string (GetSubstitution) for a pattern
    with one capture group: [$1] and [$01] are the capture, the empty text
    when the group took no part in the match; a digit after [$1] stands for
    itself, like every [$] that is followed by another digit. *)
Fixpoint getSubstitutionWithGroup (matched before after : string) (group : option string)
    (replacement : string) : string :=
  match replacement with
  | EmptyString => EmptyString
  | String c r =>
      if Ascii.eqb c "$" then
        match r with
        | EmptyString => String c EmptyString
        | String d r' =>
            if Ascii.eqb d "$"
            then String "$" (getSubstitutionWithGroup matched before after group r')
            else if Ascii.eqb d "&"
            then matched +:+ getSubstitutionWithGroup matched before after group r'
            else if Ascii.eqb d "`"
            then before +:+ getSubstitutionWithGroup matched before after group r'
            else if Ascii.eqb d "'"
            then after +:+ getSubstitutionWithGroup matched before after group r'
            else if Ascii.eqb d "1"
            then default "" group +:+ getSubstitutionWithGroup matched before after group r'
            else if Ascii.eqb d "0" then
              match r' with
              | String e r'' =>
                  if Ascii.eqb e "1"
                  then default "" group
                       +:+ getSubstitutionWithGroup matched before after group r''
                  else String c (getSubstitutionWithGroup matched before after group r)
              | EmptyString => String c (getSubstitutionWithGroup matched before after group r)
              end
            else String c (getSubstitutionWithGroup matched before after group r)
        end
      else String c (getSubstitutionWithGroup matched before after group r)
  end.

(** A pattern with one capture group, seen at one position of the text: the
    matched text, the capture and what follows the match. *)
Definition GroupMatcher := string -> option (string * option string * string).

(** The leftmost match of a pattern with one capture group. *)
Fixpoint searchGroup (m : GroupMatcher) (s : string)
    : option (string * string * option string * string) :=
  match m s with
  | Some (matched, group, after) => Some (EmptyString, matched, group, after)
  | None =>
      match s with
      | EmptyString => None
      | String c s' =>
          match searchGroup m s' with
          | Some (before, matched, group, after) => Some (String c before, matched, group, after)
          | None => None
          end
      end
  end.

(** [s.replace(pattern, replacement)] for a pattern with one capture group
    and without the [g] flag. *)
Definition replaceGroup (m : GroupMatcher) (replacement s : string) : string :=
  match searchGroup m s with
  | Some (before, matched, group, after) =>
      before +:+ getSubstitutionWithGroup matched before after group replacement +:+ after
  | None => s
  end.

(** The match of items that are literal characters and [.]: every item
    matches one character. *)
Definition matchFixed (items : list JS.RegexItem) : JS.Matcher :=
  fun s =>
    match JS.matchItems items s with
    | Some _ => Some (JS.take (length items) s, JS.drop (length items) s)
    | None => None
    end.

(** [prefix(dev-|version-)?]: after the prefix, the group takes [dev-], or
    else the version and a dash, or else no part in the match. *)
Definition optionalVersionPrefix (prefix version : list JS.RegexItem) : GroupMatcher :=
  fun s =>
    match matchFixed prefix s with
    | None => None
    | Some (matched, after) =>
        match matchFixed [JS.RChar "d"; JS.RChar "e"; JS.RChar "v"; JS.RChar "-"] after with
        | Some (group, after) => Some (matched +:+ group, Some group, after)
        | None =>
            match matchFixed (version ++ [JS.RChar "-"]) after with
            | Some (group, after) => Some (matched +:+ group, Some group, after)
            | None => Some (matched, None, after)
            end
        end
    end.

(** [a || b] for arguments that are strings when they are passed. *)
Definition orElse (a b : option string) : option string :=
  if truthyVariant a then a else b.

(** [new RegExp(`${currentRegistry}/${currentRegistryPath}/(.+):`)] *)
Definition repositoryPattern (currentRegistry currentRegistryPath : option string)
    : option (list JS.RegexItem) :=
  registry ← JS.plainItems (propertyKey currentRegistry);
  registryPath ← JS.plainItems (propertyKey currentRegistryPath);
  Some (registry ++ [JS.RChar "/"] ++ registryPath
        ++ [JS.RChar "/"; JS.RGroupDotPlus; JS.RChar ":"]).

(** [new RegExp(`${currentRegistry}/${currentRegistryPath}/${repository}:(dev-|${updatedVersion}-)?`)] *)
Definition updatedTagPattern (currentRegistry currentRegistryPath : option string)
    (repository updatedVersion : string) : option GroupMatcher :=
  registry ← JS.plainItems (propertyKey currentRegistry);
  registryPath ← JS.plainItems (propertyKey currentRegistryPath);
  repository ← JS.plainItems repository;
  updatedVersion ← JS.plainItems updatedVersion;
  Some (optionalVersionPrefix
          (registry ++ [JS.RChar "/"] ++ registryPath ++ [JS.RChar "/"] ++ repository
           ++ [JS.RChar ":"])
          updatedVersion).

Section UpdatedTag.

Variable config : Config.
Variable definitionTagLookup : gmap string DefinitionObject.

(** The branch of [getUpdatedTag] for a tag that the lookup does not hold:
    the registry, the registry path and the version prefix are swapped by a
    regular expression. [None] when the registries, the repository or the
    version hold regular expression syntax other than [.]. *)
Definition updateByPattern (currentTag : string)
    (currentRegistry currentRegistryPath : option string) (updatedVersion : string)
    (updatedRegistry updatedRegistryPath : option string) : option (Outcome string) :=
  pattern ← repositoryPattern currentRegistry currentRegistryPath;
  match JS.exec pattern currentTag with
  | Some [repository] =>
      pattern ←
        updatedTagPattern currentRegistry currentRegistryPath repository updatedVersion;
      Some (Returns
              (replaceGroup pattern
                 (propertyKey updatedRegistry +:+ "/" +:+ propertyKey updatedRegistryPath
                  +:+ "/" +:+ repository +:+ ":" +:+ updatedVersion +:+ "-")
                 currentTag))
  | _ => Some (Throws TypeError)
  end.

(** [getUpdatedTag], without what it writes to the console; [None] as for
    [getDefinitionFromTag] and [updateByPattern]. *)
Definition getUpdatedTag (currentTag : string)
    (currentRegistry currentRegistryPath : option string) (updatedVersion : string)
    (updatedRegistry updatedRegistryPath variant : option string)
    : option (Outcome string) :=
  let updatedRegistry := orElse updatedRegistry currentRegistry in
  let updatedRegistryPath := orElse updatedRegistryPath currentRegistryPath in
  definition ←
    getDefinitionFromTag definitionTagLookup currentTag currentRegistry currentRegistryPath;
  match definition with
  | Throws e => Some (Throws e)
  | Returns None =>
      updateByPattern currentTag currentRegistry currentRegistryPath updatedVersion
        updatedRegistry updatedRegistryPath
  | Returns (Some (getDefinitionObject definitionId definitionVariant)) =>
      let variant := if truthyVariant variant then variant else definitionVariant in
      Some (updatedTags ←
              getTagsForVersion config definitionId updatedVersion
                (propertyKey updatedRegistry) (propertyKey updatedRegistryPath) variant;
            Returns match updatedTags with
                    | Some (updatedTag :: _) => updatedTag
                    | _ => currentTag
                    end)
  end.

End UpdatedTag.

(** ** More notions and registries for the planner and the lookup *)

(** The lookup that [loadConfig] populates for [colonConfig]. *)
Definition colonLookup : gmap string DefinitionObject :=
  match populateTagLookup colonConfig with
  | Returns definitionTagLookup => definitionTagLookup
  | Throws _ => ∅
  end.

(** A definition whose parent is not a definition of the registry. *)
Definition orphanSettings : BuildSettings :=
  {| tags := Some ["child:${VERSION}"]; parent := ParentId "missing";
     variantTags := None; versionedTagsOnly := false; latest := LatestAbsent;
     idMismatch := None |}.

Definition orphanConfig : Config :=
  {| definitionBuildSettings :=
       [("base", settingsWithTags ["base:${VERSION}"]); ("child", orphanSettings)];
     definitionVariants := ∅;
     definitionVersions := ∅ |}.

(** No item of the groups is an item of the definition. *)
Definition unplanned (definitionId : string) (st : PlannerState) : Prop :=
  ∀ group item, group ∈ variantsList st → item ∈ group → id item ≠ definitionId.

(** A definition [other] without parent, and a definition [child] whose
    parent [base] comes before it. *)
Definition bystanderConfig : Config :=
  {| definitionBuildSettings :=
       [("other", settingsWithTags ["other:${VERSION}"]);
        ("base", settingsWithTags ["base:${VERSION}"]);
        ("child",
         {| tags := Some ["child:${VERSION}"]; parent := ParentId "base";
            variantTags := None; versionedTagsOnly := false; latest := LatestAbsent;
            idMismatch := None |})];
     definitionVariants := ∅;
     definitionVersions := ∅ |}.

(** ** Notions for the families of the planner *)

(** Every definition has no parent, or a parent that is a definition
    without parent. *)
Definition oneLevel (config : Config) : Prop :=
  ∀ definitionId settings,
    (definitionId, settings) ∈ definitionBuildSettings config →
    parent settings = NoParent
    ∨ ∃ parentId parentSettings,
        parent settings = ParentId parentId
        ∧ parentId ≠ ""
        ∧ buildSettings config parentId = Some parentSettings
        ∧ parent parentSettings = NoParent.

(** An item is the item of a child of the definition of another item, for
    the variant of this item (its second part for a definition with
    [idMismatch]). *)
Definition childOf (config : Config) (child parentItem : DefinitionObject) : Prop :=
  ∃ settings,
    buildSettings config (id child) = Some settings
    ∧ parent settings = ParentId (id parentItem)
    ∧ variant parentItem = parentVariantId settings <$> variant child.

(** Every group is an item followed by items of children of its definition. *)
Definition familyGroups (config : Config) (st : PlannerState) : Prop :=
  ∀ group,
    group ∈ variantsList st →
    match group with
    | [] => False
    | first :: others => ∀ child, child ∈ others → childOf config child first
    end.

(** A definition in the bucket of a key has the key as its parent, when it
    has one. *)
Definition bucketItemOf (config : Config) (key : string) (item : BucketItem) : Prop :=
  match item with
  | BId definitionId =>
      ∀ settings parentId,
        buildSettings config definitionId = Some settings →
        parent settings = ParentId parentId →
        parentId ≠ "" →
        parentId = key
  | BObject => True
  end.

(** The buckets of a registry whose parents have no parent: every key has an
    array of its own, which holds the key and children of the key. *)
Definition familyBuckets (config : Config) (parentBuckets : ParentBuckets) : Prop :=
  NoDup (bucketRefs parentBuckets).*1
  ∧ (∀ key ref,
       (key, ref) ∈ bucketRefs parentBuckets →
       ∃ index, ref = Some index ∧ index < length (bucketArrays parentBuckets))
  ∧ (∀ key1 key2 index,
       (key1, Some index) ∈ bucketRefs parentBuckets →
       (key2, Some index) ∈ bucketRefs parentBuckets →
       key1 = key2)
  ∧ (∀ key index item,
       (key, Some index) ∈ bucketRefs parentBuckets →
       item ∈ readArray index parentBuckets →
       bucketItemOf config key item).

(** The module-level variables have grown: every group is where it was, with
    the items it had in front of the items it has got, and the items of
    [skipParentVariants] are in front of those it has got. *)
Definition extends (before after : PlannerState) : Prop :=
  (∀ (i : nat) (group : Group),
     variantsList before !! i = Some group →
     ∃ group', variantsList after !! i = Some group' ∧ group `prefix_of` group')
  ∧ skipParentVariants before `prefix_of` skipParentVariants after.

(** The references of the buckets are arrays of the store. *)
Definition validBuckets (parentBuckets : ParentBuckets) : Prop :=
  ∀ key index,
    bucketRef key parentBuckets = Some index → index < length (bucketArrays parentBuckets).

(** ** Registries with a variant that is not a plain name *)

(** The definition [python] with an empty list of variants and [latest]
    [true]. *)
Definition noVariantsConfig : Config :=
  {| definitionBuildSettings := definitionBuildSettings pythonConfig;
     definitionVariants := {[ "python" := [] ]};
     definitionVersions := {[ "python" := "1.2.3" ]} |}.

(** A definition with variant tags for [slim] and the declared variants
    [slim] and [constructor]. *)
Definition inheritedVariantConfig : Config :=
  {| definitionBuildSettings :=
       [("app",
         {| tags := Some ["app:${VERSION}-${VARIANT}"]; parent := NoParent;
            variantTags := Some [("slim", ["app:${VERSION}-small"])];
            versionedTagsOnly := false; latest := LatestAbsent; idMismatch := None |})];
     definitionVariants := {[ "app" := ["slim"; "constructor"] ]};
     definitionVersions := {[ "app" := "1.2.3" ]} |}.

(** * Properties *)

(** ** Strings *)

#[local] Arguments String.append !_ _ / : simpl nomatch.

Lemma append_empty_r (s : string) : s +:+ "" = s.
Proof. induction s as [|c s IH]; simpl; [done|by f_equal]. Qed.

Lemma append_assoc (a b c : string) : (a +:+ b) +:+ c = a +:+ b +:+ c.
Proof. induction a as [|x a IH]; simpl; [done|by f_equal]. Qed.

Lemma append_inj_l (a b c : string) : a +:+ b = a +:+ c → b = c.
Proof. induction a as [|x a IH]; simpl; [done|]. intros [= H]. auto. Qed.

Lemma lastChar_cons (c : ascii) (s : string) :
  JS.lastChar (String c s) = Some (default c (JS.lastChar s)).
Proof.
  revert c. induction s as [|d s IH]; intros c; [done|].
  change (JS.lastChar (String c (String d s))) with (JS.lastChar (String d s)).
  by rewrite IH.
Qed.

Lemma lastChar_append (a b : string) :
  JS.lastChar (a +:+ b)
  = match JS.lastChar b with Some c => Some c | None => JS.lastChar a end.
Proof.
  induction a as [|x a IH].
  - simpl. by destruct (JS.lastChar b).
  - change (String x a +:+ b) with (String x (a +:+ b)).
    rewrite (lastChar_cons x (a +:+ b)), IH, (lastChar_cons x a).
    by destruct (JS.lastChar b), (JS.lastChar a).
Qed.

Lemma lastChar_qualify (registry registryPath tag : string) :
  JS.lastChar (qualify registry registryPath tag)
  = Some (default "/"%char (JS.lastChar tag)).
Proof.
  unfold qualify. rewrite !lastChar_append.
  by destruct (JS.lastChar tag).
Qed.

Lemma stripPrefix_Some (p s after : string) :
  JS.stripPrefix p s = Some after ↔ s = p +:+ after.
Proof.
  revert s. induction p as [|a p IH]; intros s; simpl.
  - split; [by intros [= ->]|by intros ->].
  - destruct s as [|b s]; [done|].
    destruct (Ascii.eqb_spec a b) as [->|Hne].
    + rewrite IH. split; [by intros ->|by intros [= ->]].
    + split; [done|]. intros [= ? ?]. done.
Qed.

Lemma stripPrefix_append (p after : string) : JS.stripPrefix p (p +:+ after) = Some after.
Proof. by apply stripPrefix_Some. Qed.

(** ** The result of [getTagsForVersion] as a filter and a map *)

(** The templates kept one by one, in order. *)
Lemma fold_left_keep {A : Type} (discard : A → bool) (f : A → string)
    (templates : list A) (kept : list string) :
  fold_left (fun kept tag => if discard tag then kept else kept ++ [f tag]) templates kept
  = kept ++ (f <$> List.filter (fun tag => negb (discard tag)) templates).
Proof.
  revert kept. induction templates as [|tag templates IH]; intros kept; simpl.
  - by rewrite app_nil_r.
  - rewrite IH. destruct (discard tag); simpl; [done|].
    by rewrite <- app_assoc.
Qed.

Lemma filter_fmap {A B : Type} (f : A → B) (p : B → bool) (l : list A) :
  List.filter p (f <$> l) = f <$> List.filter (fun x => p (f x)) l.
Proof.
  induction l as [|x l IH]; [done|].
  rewrite fmap_cons. simpl. destruct (p (f x)); [rewrite fmap_cons|]; by rewrite IH.
Qed.

Lemma fold_left_variantEntries (variantTags : list (string * list string))
    (tags : list string) :
  fold_left (fun tags variantEntry => tags ++ variantEntry.2) variantTags tags
  = tags ++ concat (snd <$> variantTags).
Proof.
  revert tags. induction variantTags as [|variantEntry variantTags IH]; intros tags.
  - simpl. by rewrite app_nil_r.
  - rewrite fmap_cons. cbn [fold_left concat]. by rewrite IH, app_assoc.
Qed.

(** The templates are found when the variant tags are read by an own key,
    and only then. *)
Lemma tagTemplates_own (settings : BuildSettings) (templates : list string)
    (variant : option string) :
  ownVariantTags settings variant = true →
  tagTemplates settings templates variant = Some (ownTemplates settings templates variant).
Proof.
  unfold ownVariantTags, tagTemplates, ownTemplates, variantEntryTags.
  destruct (variantTags settings) as [variantTags|]; [|done].
  destruct (isPlaceholder variant); [by rewrite fold_left_variantEntries|].
  destruct (property (propertyKey variant) variantTags) as [variantEntry|]; [done|].
  rewrite bool_decide_eq_false_2 by (by intros [? ?]).
  cbn [orb]. by intros ->%negb_true_iff.
Qed.

Lemma tagTemplates_inherited (settings : BuildSettings) (templates : list string)
    (variant : option string) :
  ownVariantTags settings variant = false →
  tagTemplates settings templates variant = None.
Proof.
  unfold ownVariantTags, tagTemplates, variantEntryTags.
  destruct (variantTags settings) as [variantTags|]; [|done].
  destruct (isPlaceholder variant); [done|].
  destruct (property (propertyKey variant) variantTags) as [variantEntry|].
  - rewrite bool_decide_eq_true_2 by eauto. done.
  - rewrite bool_decide_eq_false_2 by (by intros [? ?]).
    cbn [orb]. by intros ->%negb_false_iff.
Qed.

Lemma getTagsForVersion_known (config : Config) (settings : BuildSettings)
    (templates : list string) (definitionId version registry registryPath : string)
    (variant : option string) :
  buildSettings config definitionId = Some settings →
  tags settings = Some templates →
  ownVariantTags settings (tagVariant config definitionId variant) = true →
  getTagsForVersion config definitionId version registry registryPath variant
  = Returns (Some (qualify registry registryPath
                     <$> baseTags config settings templates definitionId version variant)).
Proof.
  intros Hsettings Htags Hown. unfold getTagsForVersion, baseTags.
  rewrite Hsettings, Htags. cbv zeta. rewrite (tagTemplates_own _ _ _ Hown).
  rewrite (fold_left_keep
             (fun tag => JS.endsWithColon
                (baseTag (tagVersion settings definitionId version)
                   (tagVariant config definitionId variant) tag))
             (fun tag => qualify registry registryPath
                (baseTag (tagVersion settings definitionId version)
                   (tagVariant config definitionId variant) tag))).
  simpl. rewrite filter_fmap, <- list_fmap_compose. done.
Qed.

(** A variant that names an inherited member in place of an entry of
    [variantTags] makes [getTagsForVersion] throw. *)
Lemma getTagsForVersion_inherited_variant (config : Config) (settings : BuildSettings)
    (templates : list string) (definitionId version registry registryPath : string)
    (variant : option string) :
  buildSettings config definitionId = Some settings →
  tags settings = Some templates →
  ownVariantTags settings (tagVariant config definitionId variant) = false →
  getTagsForVersion config definitionId version registry registryPath variant
  = Throws TypeError.
Proof.
  intros Hsettings Htags Hown. unfold getTagsForVersion.
  rewrite Hsettings, Htags. cbv zeta. by rewrite (tagTemplates_inherited _ _ _ Hown).
Qed.

Lemma getTagsForVersion_unknown (config : Config)
    (definitionId version registry registryPath : string) (variant : option string) :
  buildSettings config definitionId = None →
  getTagsForVersion config definitionId version registry registryPath variant
  = if inheritedName definitionId then Throws TypeError else Returns None.
Proof. intros H. unfold getTagsForVersion. by rewrite H. Qed.

Lemma getTagsForVersion_no_tags (config : Config) (settings : BuildSettings)
    (definitionId version registry registryPath : string) (variant : option string) :
  buildSettings config definitionId = Some settings →
  tags settings = None →
  getTagsForVersion config definitionId version registry registryPath variant
  = Throws TypeError.
Proof. intros H1 H2. unfold getTagsForVersion. by rewrite H1, H2. Qed.

(** A tag list returned by [getTagsForVersion] comes from a known
    definition with tags, whose variant tags are read by an own key. *)
Lemma getTagsForVersion_returns (config : Config)
    (definitionId version registry registryPath : string) (variant : option string)
    (tagList : list string) :
  getTagsForVersion config definitionId version registry registryPath variant
    = Returns (Some tagList) →
  ∃ settings templates,
    buildSettings config definitionId = Some settings
    ∧ tags settings = Some templates
    ∧ ownVariantTags settings (tagVariant config definitionId variant) = true
    ∧ tagList = qualify registry registryPath
                  <$> baseTags config settings templates definitionId version variant.
Proof.
  intros H.
  destruct (buildSettings config definitionId) as [settings|] eqn:Hsettings.
  - destruct (tags settings) as [templates|] eqn:Htags.
    + destruct (ownVariantTags settings (tagVariant config definitionId variant)) eqn:Hown.
      * rewrite (getTagsForVersion_known _ _ _ _ _ _ _ _ Hsettings Htags Hown) in H.
        exists settings, templates. by injection H as <-.
      * by rewrite (getTagsForVersion_inherited_variant _ _ _ _ _ _ _ _ Hsettings Htags Hown)
          in H.
    + by rewrite (getTagsForVersion_no_tags _ _ _ _ _ _ _ Hsettings Htags) in H.
  - rewrite getTagsForVersion_unknown in H by done. by destruct (inheritedName definitionId).
Qed.

Lemma elem_of_filter_bool {A : Type} (p : A → bool) (l : list A) (x : A) :
  x ∈ List.filter p l ↔ x ∈ l ∧ p x = true.
Proof. rewrite !list_elem_of_In. apply filter_In. Qed.

(** C5: for every definition id, version, registry, registry path and
    variant, no string of a list that [getTagsForVersion] returns ends in the
    character [:]. For a known definition with tags, whose variant tags are
    read by an own key, the list is returned, and it holds the prefixed texts
    of the templates without those whose replacements give a text that ends
    in a bare [:]. *)
Theorem getTagsForVersion_never_ends_in_colon (config : Config)
    (definitionId version registry registryPath : string) (variant : option string) :
  (∀ tagList tag,
     getTagsForVersion config definitionId version registry registryPath variant
       = Returns (Some tagList) →
     tag ∈ tagList →
     JS.lastChar tag ≠ Some ":"%char)
  ∧ (∀ settings templates,
       buildSettings config definitionId = Some settings →
       tags settings = Some templates →
       ownVariantTags settings (tagVariant config definitionId variant) = true →
       getTagsForVersion config definitionId version registry registryPath variant
       = Returns (Some
           (qualify registry registryPath
              <$> List.filter (fun tag => negb (JS.endsWithColon tag))
                    (baseTag (tagVersion settings definitionId version)
                       (tagVariant config definitionId variant)
                     <$> ownTemplates settings templates
                           (tagVariant config definitionId variant))))).
Proof.
  split.
  - intros tagList tag H.
    apply getTagsForVersion_returns in H as (settings & templates & Hs & Ht & _ & ->).
    intros [base [-> Hbase]]%list_elem_of_fmap.
    apply elem_of_filter_bool in Hbase as [_ Hcolon].
    rewrite lastChar_qualify. unfold JS.endsWithColon in Hcolon.
    destruct (JS.lastChar base) as [c|]; simpl; [|done].
    intros [= ->]. done.
  - intros settings templates Hs Ht Hown. by apply getTagsForVersion_known.
Qed.

Lemma getTagsForVersion_never_ends_in_colon_witness :
  getTagsForVersion colonConfig "app" "" "r" "p" None = Returns (Some ["r/p/app:slim"])
  ∧ JS.lastChar "r/p/app:slim" ≠ Some ":"%char.
Proof.
  destruct (getTagsForVersion_never_ends_in_colon colonConfig "app" "" "r" "p" None)
    as [Hcolon Hlist].
  pose proof (Hlist (settingsWithTags ["app:${VERSION}"; "app:${VERSION}-slim"])
                ["app:${VERSION}"; "app:${VERSION}-slim"] eq_refl eq_refl eq_refl) as Htags.
  split; [exact Htags|].
  apply (Hcolon ["r/p/app:slim"] "r/p/app:slim" Htags). left.
Defined.

(** ** The replacements of a template *)

Lemma getSubstitution_empty (matched before after : string) :
  JS.getSubstitution matched before after "" = "".
Proof. done. Qed.








(** ** The latest tags *)

Lemma filter_filter_bool {A : Type} (p q : A → bool) (l : list A) :
  List.filter p (List.filter q l) = List.filter (fun x => q x && p x) l.
Proof.
  induction l as [|x l IH]; simpl; [done|].
  destruct (q x); simpl; [destruct (p x)|]; by rewrite IH.
Qed.

Lemma filter_ext_bool {A : Type} (p q : A → bool) (l : list A) :
  (∀ x, p x = q x) → List.filter p l = List.filter q l.
Proof. intros H. apply filter_ext. exact H. Qed.

Lemma filter_true {A : Type} (l : list A) : List.filter (fun _ => true) l = l.
Proof. induction l as [|x l IH]; simpl; [done|by rewrite IH]. Qed.

Lemma dedupe_filter (p : string → bool) (l : list string) :
  dedupe (List.filter p l) = List.filter p (dedupe l).
Proof.
  induction l as [|x l IH]; simpl; [done|].
  destruct (p x) eqn:Hp; simpl.
  - rewrite IH, !filter_filter_bool. f_equal.
    apply filter_ext_bool. intros y. apply andb_comm.
  - rewrite IH, filter_filter_bool.
    apply filter_ext_bool. intros y.
    by destruct (String.eqb_spec y x) as [->|]; simpl.
Qed.

(** [reduce] with [indexOf] and [push] leaves the list without its
    duplicates, in first-seen order. *)
Lemma fold_left_pushNew (l seen : list string) :
  fold_left pushNew l seen
  = seen ++ dedupe (List.filter (fun y => negb (bool_decide (y ∈ seen))) l).
Proof.
  revert seen. induction l as [|x l IH]; intros seen; simpl.
  - by rewrite app_nil_r.
  - unfold pushNew at 2. destruct (bool_decide_reflect (x ∈ seen)) as [Hin|Hout]; simpl.
    + apply IH.
    + rewrite IH, <- app_assoc. simpl. do 2 f_equal.
      rewrite <- dedupe_filter, filter_filter_bool. f_equal.
      apply filter_ext_bool. intros y.
      destruct (String.eqb_spec y x) as [->|Hne].
      * rewrite andb_false_r. apply negb_false_iff, bool_decide_eq_true.
        set_unfold. tauto.
      * rewrite andb_true_r. f_equal. apply bool_decide_ext.
        set_unfold. tauto.
Qed.

Lemma fold_left_fmap {A B C : Type} (f : A → B) (g : C → B → C) (l : list A) (init : C) :
  fold_left (fun acc x => g acc (f x)) l init = fold_left g (f <$> l) init.
Proof. revert init. induction l as [|x l IH]; intros init; simpl; [done|apply IH]. Qed.

Lemma NoDup_filter_bool {A : Type} (p : A → bool) (l : list A) :
  NoDup l → NoDup (List.filter p l).
Proof.
  induction 1 as [|x l Hx Hl IH]; simpl; [constructor|].
  destruct (p x); [|done]. constructor; [|done].
  rewrite elem_of_filter_bool. tauto.
Qed.

Lemma NoDup_dedupe (l : list string) : NoDup (dedupe l).
Proof.
  induction l as [|x l IH]; simpl; constructor.
  - rewrite elem_of_filter_bool, String.eqb_refl. intros [_ H]. done.
  - by apply NoDup_filter_bool.
Qed.

Lemma elem_of_dedupe (l : list string) (x : string) : x ∈ dedupe l ↔ x ∈ l.
Proof.
  induction l as [|y l IH]; simpl; [done|].
  rewrite !elem_of_cons, elem_of_filter_bool, IH.
  destruct (String.eqb_spec x y) as [->|Hne]; simpl; [tauto|]. tauto.
Qed.

Lemma latestForm_unfold (tag : string) :
  latestForm tag
  = match tag with
    | EmptyString => EmptyString
    | String c rest =>
        if Ascii.eqb c ":" && negb (Nat.eqb (JS.lineLength rest) 0)
        then ":latest" +:+ JS.drop (JS.lineLength rest) rest
        else String c (latestForm rest)
    end.
Proof. by destruct tag. Qed.

Lemma search_unfold (m : JS.Matcher) (s : string) :
  JS.search m s
  = match m s with
    | Some (matched, after) => Some (EmptyString, matched, after)
    | None =>
        match s with
        | EmptyString => None
        | String c s' =>
            match JS.search m s' with
            | Some (before, matched, after) => Some (String c before, matched, after)
            | None => None
            end
        end
    end.
Proof. by destruct s. Qed.

Lemma colonAndRest_cons (c : ascii) (rest : string) :
  JS.colonAndRest (String c rest)
  = if Ascii.eqb c ":" && negb (Nat.eqb (JS.lineLength rest) 0)
    then Some (String c (JS.take (JS.lineLength rest) rest),
               JS.drop (JS.lineLength rest) rest)
    else None.
Proof.
  unfold JS.colonAndRest.
  destruct (Ascii.eqb c ":"); [|done].
  by destruct (JS.lineLength rest).
Qed.

(** The replacement of [/:.+/] by [:latest] gives the latest form. *)
Lemma replace_colonAndRest (tag : string) :
  JS.replace JS.colonAndRest ":latest" tag = latestForm tag.
Proof.
  induction tag as [|c rest IH]; [done|].
  rewrite latestForm_unfold. unfold JS.replace in *.
  rewrite search_unfold, colonAndRest_cons.
  destruct (Ascii.eqb c ":" && negb (Nat.eqb (JS.lineLength rest) 0)); [done|].
  rewrite <- IH.
  by destruct (JS.search JS.colonAndRest rest) as [[[before matched] after]|].
Qed.

Lemma drop_lineLength (text : string) :
  JS.lineLength text = String.length text → JS.drop (JS.lineLength text) text = "".
Proof.
  induction text as [|c text IH]; simpl; [done|].
  destruct (JS.isLineTerminator c); [done|]. intros [= H]. auto.
Qed.

(** The latest form of [repo:text]. *)
Lemma latestForm_repo_text (repo text : string) :
  JS.includesChar ":" repo = false →
  text ≠ "" →
  JS.lineLength text = String.length text →
  latestForm (repo +:+ ":" +:+ text) = repo +:+ ":latest".
Proof.
  intros Hrepo Htext Hline. induction repo as [|c repo IH].
  - change ("" +:+ ":" +:+ text) with (String ":" text).
    rewrite latestForm_unfold, (drop_lineLength _ Hline), Hline.
    by destruct text.
  - change (JS.includesChar ":" (String c repo))
      with (Ascii.eqb ":" c || JS.includesChar ":" repo) in Hrepo.
    apply orb_false_iff in Hrepo as [Hc Hrepo].
    change (String c repo +:+ ":" +:+ text) with (String c (repo +:+ ":" +:+ text)).
    rewrite latestForm_unfold, Ascii.eqb_sym, Hc, (IH Hrepo). done.
Qed.

(** The latest tags of a known definition with tags. *)
Lemma getLatestTag_with_tags (config : Config) (settings : BuildSettings)
    (templates : list string) (definitionId registry registryPath : string) :
  buildSettings config definitionId = Some settings →
  tags settings = Some templates →
  getLatestTag config definitionId registry registryPath
  = Returns (Some (latestTags registry registryPath templates)).
Proof.
  intros Hs Ht. unfold getLatestTag, latestTags. rewrite Hs, Ht. do 2 f_equal.
  rewrite (fold_left_fmap
             (fun tag => qualify registry registryPath
                           (JS.replace JS.colonAndRest ":latest" tag)) pushNew).
  rewrite fold_left_pushNew. simpl.
  rewrite filter_true. f_equal.
  apply list_fmap_ext. intros _ tag _. by rewrite replace_colonAndRest.
Qed.


(** ** The tag list of a release *)

Lemma versionSwitch_known (versionPartHandling : Handling) (version major minor : string) :
  knownHandling versionPartHandling = true →
  versionSwitch versionPartHandling version major minor
  = Some (updatesLatest versionPartHandling, updatesUnversionedTags versionPartHandling,
          selectedVersions versionPartHandling version major minor).
Proof.
  destruct versionPartHandling as [[]|mode]; [done..|].
  intros H%bool_decide_eq_true. set_unfold.
  destruct H as [->|[->|[->|[->|[->|[]]]]]]; reflexivity.
Qed.

Lemma versionSwitch_unknown (versionPartHandling : Handling) (version major minor : string) :
  knownHandling versionPartHandling = false →
  versionSwitch versionPartHandling version major minor = None.
Proof.
  destruct versionPartHandling as [[]|mode]; [done..|].
  intros H%bool_decide_eq_false. set_unfold. unfold versionSwitch.
  repeat match goal with
         | |- context [String.eqb ?a ?b] => destruct (String.eqb_spec a b); [tauto|]
         end.
  done.
Qed.

Section KnownDefinition.

Variables (config : Config) (settings : BuildSettings) (templates : list string).
Variables (definitionId registry registryPath : string) (variant : VariantArgument).
Hypothesis Hsettings : buildSettings config definitionId = Some settings.
Hypothesis Htags : tags settings = Some templates.

Lemma forEach_getTagsForVersion (versionList tagList : list string) :
  ownVariantTags settings (tagVariant config definitionId (variantString variant)) = true →
  forEachOutcome
    (fun tagList tagVersion =>
       tagsForVersion ←
         getTagsForVersion config definitionId tagVersion registry registryPath
           (variantString variant);
       match tagsForVersion with
       | Some tagsForVersion => Returns (tagList ++ tagsForVersion)
       | None => Throws TypeError
       end)
    versionList tagList
  = Returns (tagList ++ versionTags config settings templates definitionId registry
                          registryPath (variantString variant) versionList).
Proof.
  intros Hown.
  revert tagList. induction versionList as [|version versionList IH]; intros tagList.
  - simpl. unfold versionTags. simpl. by rewrite app_nil_r.
  - cbn [forEachOutcome].
    rewrite (getTagsForVersion_known _ _ _ _ _ _ _ _ Hsettings Htags Hown).
    cbn [mbind Outcome_bind].
    rewrite IH. unfold versionTags. rewrite fmap_cons. simpl. by rewrite app_assoc.
Qed.

Lemma forEach_getTagsForVersion_inherited (version : string) (versionList tagList : list string) :
  ownVariantTags settings (tagVariant config definitionId (variantString variant)) = false →
  forEachOutcome
    (fun tagList tagVersion =>
       tagsForVersion ←
         getTagsForVersion config definitionId tagVersion registry registryPath
           (variantString variant);
       match tagsForVersion with
       | Some tagsForVersion => Returns (tagList ++ tagsForVersion)
       | None => Throws TypeError
       end)
    (version :: versionList) tagList
  = Throws TypeError.
Proof.
  intros Hown. cbn [forEachOutcome].
  by rewrite (getTagsForVersion_inherited_variant _ _ _ _ _ _ _ _ Hsettings Htags Hown).
Qed.

Lemma latest_condition (versionPartHandling : Handling) :
  updatesLatest versionPartHandling
  && truthyLatest (latest settings)
  && (negb (bool_decide (is_Some (getVariants config definitionId)))
      || isLatestVariant (variantString variant) (latest settings)
      || (isTrue (latest settings)
          && sameVariant variant
               match getVariants config definitionId with
               | Some variants => variantAt (head variants)
               | None => variant
               end))
  = latestAppended versionPartHandling settings (getVariants config definitionId) variant.
Proof.
  unfold latestAppended. destruct (updatesLatest versionPartHandling); [|done].
  destruct (truthyLatest (latest settings)) eqn:Htruthy; [|done]. simpl.
  destruct (getVariants config definitionId) as [variants|]; simpl; [|done].
  f_equal.
  - unfold isLatestVariant.
    destruct variant as [| |v], (latest settings) as [|b|l]; simpl; try done.
    destruct (String.eqb_spec v l) as [->|Hne].
    + symmetry. by apply bool_decide_eq_true.
    + symmetry. apply bool_decide_eq_false. congruence.
  - f_equal. by destruct (latest settings) as [|[]|l].
Qed.

Lemma expandedVersions_cons (versionPartHandling : Handling) (version major minor : string) :
  knownHandling versionPartHandling = true →
  ∃ first others,
    expandedVersions versionPartHandling settings version major minor = first :: others.
Proof.
  intros Hknown. unfold expandedVersions.
  assert (∃ first others,
            selectedVersions versionPartHandling version major minor = first :: others)
    as (first & others & ->); [|by eauto].
  destruct versionPartHandling as [[]|mode]; [by eauto..|].
  apply bool_decide_eq_true in Hknown. set_unfold.
  destruct Hknown as [->|[->|[->|[->|[->|[]]]]]]; by eauto.
Qed.

(** The result of [getTagList] for a release that resolves to a version of
    three parts, with a mode that [getTagList] knows. *)
Lemma getTagList_expands (release : string) (versionPartHandling : Handling)
    (version major minor patch : string) :
  getVersionFromRelease config release definitionId = Some version →
  version ≠ "dev" →
  JS.split "." version = [major; minor; patch] →
  knownHandling versionPartHandling = true →
  ownVariantTags settings (tagVariant config definitionId (variantString variant)) = true →
  getTagList config definitionId release versionPartHandling registry registryPath variant
  = Returns (Some
      (versionTags config settings templates definitionId registry registryPath
         (variantString variant)
         (expandedVersions versionPartHandling settings version major minor)
       ++ (if latestAppended versionPartHandling settings (getVariants config definitionId)
                variant
           then latestTags registry registryPath templates
           else []))).
Proof.
  intros Hversion Hdev Hsplit Hknown Hown. unfold getTagList.
  rewrite Hversion. apply String.eqb_neq in Hdev. rewrite Hdev, Hsplit.
  rewrite (versionSwitch_known _ _ _ _ Hknown), Hsettings.
  assert ((if updatesUnversionedTags versionPartHandling
           then Returns (if versionedTagsOnly settings
                         then selectedVersions versionPartHandling version major minor
                         else selectedVersions versionPartHandling version major minor ++ [""])
           else Returns (selectedVersions versionPartHandling version major minor))
          = Returns (expandedVersions versionPartHandling settings version major minor))
    as ->.
  { unfold expandedVersions.
    destruct (updatesUnversionedTags versionPartHandling), (versionedTagsOnly settings);
      simpl; by rewrite ?app_nil_r. }
  cbn [mbind Outcome_bind]. rewrite forEach_getTagsForVersion by done.
  cbn [mbind Outcome_bind].
  rewrite latest_condition, (getLatestTag_with_tags _ _ _ _ _ _ Hsettings Htags). simpl.
  destruct (latestAppended versionPartHandling settings (getVariants config definitionId)
              variant); [done|]. by rewrite app_nil_r.
Qed.

(** With a variant that names an inherited member in place of an entry of
    [variantTags], the first version of the list throws. *)
Lemma getTagList_inherited_variant (release : string) (versionPartHandling : Handling)
    (version major minor patch : string) :
  getVersionFromRelease config release definitionId = Some version →
  version ≠ "dev" →
  JS.split "." version = [major; minor; patch] →
  knownHandling versionPartHandling = true →
  ownVariantTags settings (tagVariant config definitionId (variantString variant)) = false →
  getTagList config definitionId release versionPartHandling registry registryPath variant
  = Throws TypeError.
Proof.
  intros Hversion Hdev Hsplit Hknown Hown. unfold getTagList.
  rewrite Hversion. apply String.eqb_neq in Hdev. rewrite Hdev, Hsplit.
  rewrite (versionSwitch_known _ _ _ _ Hknown), Hsettings.
  assert ((if updatesUnversionedTags versionPartHandling
           then Returns (if versionedTagsOnly settings
                         then selectedVersions versionPartHandling version major minor
                         else selectedVersions versionPartHandling version major minor ++ [""])
           else Returns (selectedVersions versionPartHandling version major minor))
          = Returns (expandedVersions versionPartHandling settings version major minor))
    as ->.
  { unfold expandedVersions.
    destruct (updatesUnversionedTags versionPartHandling), (versionedTagsOnly settings);
      simpl; by rewrite ?app_nil_r. }
  cbn [mbind Outcome_bind].
  destruct (expandedVersions_cons versionPartHandling version major minor Hknown)
    as (first & others & ->).
  by rewrite forEach_getTagsForVersion_inherited.
Qed.

End KnownDefinition.



(** [null] is not the first variant of an empty list of variants: for a
    definition with [variants: []] and [latest: true], the latest tag is
    appended for a variant that is not passed, and is not for [null]. *)
Lemma getTagList_null_is_not_first_variant :
  getTagList noVariantsConfig "python" "v1.0.0" (HString "all-latest") "r" "p" NotPassed
  = Returns (Some ["r/p/python:1.2.3-3"; "r/p/python:1.2-3"; "r/p/python:1-3";
                   "r/p/python:3"; "r/p/python:latest"])
  ∧ getTagList noVariantsConfig "python" "v1.0.0" (HString "all-latest") "r" "p" Null
    = Returns (Some ["r/p/python:1.2.3-3"; "r/p/python:1.2-3"; "r/p/python:1-3";
                     "r/p/python:3"]).
Proof. split; vm_compute; reflexivity. Qed.

(** A variant that names an inherited member and has no entry in
    [variantTags]: the member is concatenated to the templates, and the
    functions throw; with an entry, or without [variantTags], they return. *)
Lemma getTagsForVersion_inherited_variant_throws :
  getTagsForVersion inheritedVariantConfig "app" "dev" "r" "p" (Some "constructor")
  = Throws TypeError
  ∧ getTagList inheritedVariantConfig "app" "v1.0.0" (HString "all") "r" "p"
      (Named "constructor")
    = Throws TypeError
  ∧ populateTagLookup inheritedVariantConfig = Throws TypeError
  ∧ getTagsForVersion inheritedVariantConfig "app" "dev" "r" "p" (Some "slim")
    = Returns (Some ["r/p/app:dev-slim"; "r/p/app:dev-small"])
  ∧ getTagsForVersion familyConfig "base" "dev" "r" "p" (Some "constructor")
    = Returns (Some ["r/p/base:dev-constructor"]).
Proof. repeat split; vm_compute; reflexivity. Qed.

(** C3, as amended: for a known definition with tag templates, whose
    variant tags are read by an own key, a mode that [getTagList] knows and a
    release that resolves to a recorded version other than ['dev'],
    [getTagList] raises an error if and only if the version does not split
    into exactly three dot-separated parts, numeric or not; the error is the
    invalid version format; with three parts no error is raised and a tag
    list is returned. *)
Theorem getTagList_raises_iff_not_three_parts (config : Config) (settings : BuildSettings)
    (templates : list string) (definitionId release : string)
    (versionPartHandling : Handling) (registry registryPath : string)
    (variant : VariantArgument) (version : string) :
  buildSettings config definitionId = Some settings →
  tags settings = Some templates →
  ownVariantTags settings (tagVariant config definitionId (variantString variant)) = true →
  getVersionFromRelease config release definitionId = Some version →
  version ≠ "dev" →
  knownHandling versionPartHandling = true →
  (raises (getTagList config definitionId release versionPartHandling registry registryPath
             variant)
   ↔ length (JS.split "." version) ≠ 3)
  ∧ (length (JS.split "." version) ≠ 3 →
     getTagList config definitionId release versionPartHandling registry registryPath variant
     = Throws (ThrownString ("Invalid version format in " +:+ version +:+ ".")))
  ∧ (length (JS.split "." version) = 3 →
     ∃ tagList,
       getTagList config definitionId release versionPartHandling registry registryPath
         variant
       = Returns (Some tagList)).
Proof.
  intros Hsettings Htags Hown Hversion Hdev Hknown.
  destruct (decide (length (JS.split "." version) = 3)) as [Hthree|Hother].
  - destruct (JS.split "." version) as [|major [|minor [|patch [|]]]] eqn:Hsplit; try done.
    rewrite (getTagList_expands _ _ _ _ _ _ _ Hsettings Htags _ _ _ _ _ _
               Hversion Hdev Hsplit Hknown Hown).
    split; [simpl; tauto|]. split; [done|]. eauto.
  - assert (getTagList config definitionId release versionPartHandling registry
              registryPath variant
            = Throws (ThrownString ("Invalid version format in " +:+ version +:+ ".")))
      as Hthrows.
    { unfold getTagList. rewrite Hversion.
      apply String.eqb_neq in Hdev. rewrite Hdev.
      by destruct (JS.split "." version) as [|major [|minor [|patch [|]]]]. }
    rewrite Hthrows. split; [simpl; tauto|]. split; [done|]. done.
Qed.

Lemma getTagList_raises_iff_not_three_parts_witness :
  (raises (getTagList lettersConfig "python" "v1.0.0" (HString "all") "r" "p" NotPassed)
   ↔ length (JS.split "." "a.b.c") ≠ 3)
  ∧ (length (JS.split "." "a.b.c") ≠ 3 →
     getTagList lettersConfig "python" "v1.0.0" (HString "all") "r" "p" NotPassed
     = Throws (ThrownString ("Invalid version format in " +:+ "a.b.c" +:+ ".")))
  ∧ (length (JS.split "." "a.b.c") = 3 →
     ∃ tagList,
       getTagList lettersConfig "python" "v1.0.0" (HString "all") "r" "p" NotPassed
       = Returns (Some tagList)).
Proof.
  apply (getTagList_raises_iff_not_three_parts lettersConfig
           {| tags := Some ["python:${VERSION}-3"]; parent := NoParent;
              variantTags := None; versionedTagsOnly := false;
              latest := LatestBool true; idMismatch := None |}
           ["python:${VERSION}-3"]);
    [reflexivity | reflexivity | reflexivity | reflexivity | discriminate | reflexivity].
Defined.

(** C3, as stated, fails: the recorded version [a.b.c] of [python] has three
    parts, none of them numeric, and [getTagList] raises no error. *)
Lemma getTagList_accepts_letters :
  getTagList lettersConfig "python" "v1.0.0" (HString "all") "r" "p" NotPassed
    = Returns (Some ["r/p/python:a.b.c-3"; "r/p/python:a.b-3"; "r/p/python:a-3";
                     "r/p/python:3"])
  ∧ threeNumericParts "a.b.c" = false
  ∧ ¬ (raises (getTagList lettersConfig "python" "v1.0.0" (HString "all") "r" "p" NotPassed)
       ↔ threeNumericParts "a.b.c" = false).
Proof.
  split; [vm_compute; reflexivity|]. split; [reflexivity|].
  intros [_ H]. exact (H eq_refl).
Qed.

(** A mode that [getTagList] does not know leaves [versionList] undefined:
    the call throws, also for a version of three numeric parts. *)
Lemma getTagList_unknown_mode_throws :
  threeNumericParts "1.2.3" = true
  ∧ getTagList pythonConfig "python" "v1.0.0" (HString "latest-only") "r" "p" NotPassed
    = Throws TypeError.
Proof. split; vm_compute; reflexivity. Qed.

Lemma getVersionFromRelease_branch (config : Config) (release definitionId : string) :
  isReleaseString release = false →
  getVersionFromRelease config release definitionId = Some "dev".
Proof.
  unfold isReleaseString, getVersionFromRelease.
  destruct release as [|c0 [|c1 release]]; [done..|]. by intros ->.
Qed.

(** The tag list of a branch: the tags of ['dev'], whatever the mode. *)
Lemma getTagList_branch (config : Config) (definitionId release : string)
    (versionPartHandling : Handling) (registry registryPath : string)
    (variant : VariantArgument) :
  isReleaseString release = false →
  getTagList config definitionId release versionPartHandling registry registryPath variant
  = getTagsForVersion config definitionId "dev" registry registryPath
      (variantString variant).
Proof.
  intros H. unfold getTagList. by rewrite (getVersionFromRelease_branch _ _ _ H).
Qed.

Lemma elem_of_versionTags (config : Config) (settings : BuildSettings)
    (templates : list string) (definitionId registry registryPath : string)
    (variant : option string) (versionList : list string) (version tag : string) :
  version ∈ versionList →
  tag ∈ qualify registry registryPath
          <$> baseTags config settings templates definitionId version variant →
  tag ∈ versionTags config settings templates definitionId registry registryPath variant
          versionList.
Proof.
  intros Hversion Htag. unfold versionTags. apply list_elem_of_In, in_concat.
  eexists. split; [|apply list_elem_of_In; exact Htag].
  apply list_elem_of_In, list_elem_of_fmap. by exists version.
Qed.

(** C4, as amended: for every known definition with [versionedTagsOnly]
    false that declares tag templates, and whose variant tags are read by an
    own key, [getTagList(id, "main", "all", R, P)] returns the tags of the version ['dev'] and nothing else; with a release
    that resolves to a recorded version of three parts, it returns a list
    that includes every fully-qualified version tag and every unversioned
    tag. *)
Theorem getTagList_all_includes_unversioned (config : Config) (settings : BuildSettings)
    (templates : list string) (definitionId registry registryPath : string)
    (variant : VariantArgument) :
  buildSettings config definitionId = Some settings →
  tags settings = Some templates →
  ownVariantTags settings (tagVariant config definitionId (variantString variant)) = true →
  versionedTagsOnly settings = false →
  getTagList config definitionId "main" (HString "all") registry registryPath variant
  = Returns (Some (qualify registry registryPath
                     <$> baseTags config settings templates definitionId "dev"
                           (variantString variant)))
  ∧ ∀ release version major minor patch,
      getVersionFromRelease config release definitionId = Some version →
      version ≠ "dev" →
      JS.split "." version = [major; minor; patch] →
      ∃ tagList,
        getTagList config definitionId release (HString "all") registry registryPath variant
          = Returns (Some tagList)
        ∧ (∀ tag,
             tag ∈ qualify registry registryPath
                     <$> baseTags config settings templates definitionId version
                           (variantString variant) →
             tag ∈ tagList)
        ∧ (∀ tag,
             tag ∈ qualify registry registryPath
                     <$> baseTags config settings templates definitionId ""
                           (variantString variant) →
             tag ∈ tagList).
Proof.
  intros Hsettings Htags Hown Hversioned. split.
  - rewrite getTagList_branch by done.
    by apply getTagsForVersion_known.
  - intros release version major minor patch Hversion Hdev Hsplit.
    eexists. split.
    + by eapply getTagList_expands.
    + unfold latestAppended, expandedVersions. rewrite Hversioned. simpl.
      rewrite app_nil_r.
      split; intros tag Htag; eapply elem_of_versionTags; try exact Htag; set_unfold; tauto.
Qed.

Lemma getTagList_all_includes_unversioned_witness :
  ∃ tagList,
    getTagList pythonConfig "python" "v1.0.0" (HString "all") "r" "p" NotPassed
      = Returns (Some tagList)
    ∧ "r/p/python:1.2.3-3" ∈ tagList
    ∧ "r/p/python:3" ∈ tagList.
Proof.
  destruct (getTagList_all_includes_unversioned pythonConfig
              {| tags := Some ["python:${VERSION}-3"]; parent := NoParent;
                 variantTags := None; versionedTagsOnly := false;
                 latest := LatestBool true; idMismatch := None |}
              ["python:${VERSION}-3"] "python" "r" "p" NotPassed
              eq_refl eq_refl eq_refl eq_refl)
    as [_ H].
  destruct (H "v1.0.0" "1.2.3" "1" "2" "3" eq_refl ltac:(discriminate) eq_refl)
    as (tagList & Hlist & Hfull & Hblank).
  exists tagList. split; [exact Hlist|].
  split; [apply Hfull|apply Hblank]; vm_compute; constructor.
Defined.

(** C4, as stated, fails: [python] has [versionedTagsOnly] false and the
    template [python:${VERSION}-3]; for ["main"] and ["all"] the list is the
    tag of ['dev'] alone, without the unversioned tag [python:3] and without
    the tag [python:1.2.3-3] of the recorded version. *)
Lemma getTagList_main_has_dev_tags_only :
  getTagList pythonConfig "python" "main" (HString "all") "r" "p" NotPassed
    = Returns (Some ["r/p/python:dev-3"])
  ∧ getTagsForVersion pythonConfig "python" "" "r" "p" None
    = Returns (Some ["r/p/python:3"])
  ∧ getTagsForVersion pythonConfig "python" "1.2.3" "r" "p" None
    = Returns (Some ["r/p/python:1.2.3-3"])
  ∧ ¬ (∃ tag, tag ∈ ["r/p/python:dev-3"] ∧ tag ∈ ["r/p/python:3"])
  ∧ ¬ (∃ tag, tag ∈ ["r/p/python:dev-3"] ∧ tag ∈ ["r/p/python:1.2.3-3"]).
Proof.
  split; [vm_compute; reflexivity|]. split; [vm_compute; reflexivity|].
  split; [vm_compute; reflexivity|].
  split; intros (tag & ->%list_elem_of_singleton & H%list_elem_of_singleton); discriminate.
Qed.

(** C9, as amended: for every definition with no recorded version,
    resolving a release string that does not have the form [v<digit>...]
    yields the version ['dev'], and [getTagList] returns the tags of ['dev']
    that [getTagsForVersion] gives, without semver expansion. *)
Theorem getTagList_branch_is_dev (config : Config) (definitionId release : string)
    (versionPartHandling : Handling) (registry registryPath : string)
    (variant : VariantArgument) :
  definitionVersions config !! definitionId = None →
  isReleaseString release = false →
  getVersionFromRelease config release definitionId = Some "dev"
  ∧ getTagList config definitionId release versionPartHandling registry registryPath variant
    = getTagsForVersion config definitionId "dev" registry registryPath
        (variantString variant).
Proof.
  intros _ Hbranch. split.
  - by apply getVersionFromRelease_branch.
  - by apply getTagList_branch.
Qed.

Lemma getTagList_branch_is_dev_witness :
  getVersionFromRelease unversionedConfig "main" "python" = Some "dev"
  ∧ getTagList unversionedConfig "python" "main" (HBool true) "r" "p" NotPassed
    = getTagsForVersion unversionedConfig "python" "dev" "r" "p" None.
Proof.
  apply (getTagList_branch_is_dev unversionedConfig "python" "main" (HBool true) "r" "p"
           NotPassed);
    reflexivity.
Defined.

(** C9, as stated, fails: [python] has no recorded version, the release
    [v1.0.0] does not resolve to ['dev'] but to no version at all, and
    [getTagList] throws where the claim has it return the tags of ['dev']. *)
Lemma getVersionFromRelease_unversioned_release :
  definitionVersions unversionedConfig !! "python" = None
  ∧ getVersionFromRelease unversionedConfig "v1.0.0" "python" = None
  ∧ getVersionFromRelease unversionedConfig "v1.0.0" "python" ≠ Some "dev"
  ∧ getTagList unversionedConfig "python" "v1.0.0" (HString "all") "r" "p" NotPassed
    = Throws TypeError
  ∧ getTagList unversionedConfig "python" "v1.0.0" (HString "all") "r" "p" NotPassed
    ≠ getTagsForVersion unversionedConfig "python" "dev" "r" "p" None.
Proof. repeat split; try (vm_compute; reflexivity); vm_compute; discriminate. Qed.

(** ** Pagination *)

(** The loop that folds the excess pages, from the page before [pageTotal]
    on: the pages after it are concatenated to it, in order. *)
Lemma foldExcessPages_middle (turns : nat) (pages rest : list Group) (lastPage : Group) :
  length rest ≤ turns →
  foldExcessPages turns (S (length pages)) (pages ++ lastPage :: rest)
  = pages ++ [lastPage ++ concat rest].
Proof.
  revert rest lastPage. induction turns as [|turns IH]; intros rest lastPage Hturns.
  - destruct rest; [|simpl in Hturns; lia]. simpl. by rewrite app_nil_r.
  - cbn [foldExcessPages]. destruct rest as [|excess rest].
    + rewrite bool_decide_eq_false_2; [simpl; by rewrite app_nil_r|].
      rewrite length_app. simpl. lia.
    + rewrite bool_decide_eq_true_2 by (rewrite length_app; simpl; lia).
      replace (S (length pages) - 1) with (length pages) by lia.
      rewrite (list_lookup_middle pages (excess :: rest) lastPage (length pages) eq_refl).
      replace (pages ++ lastPage :: excess :: rest)
        with ((pages ++ [lastPage]) ++ excess :: rest) at 1 by by rewrite <- app_assoc.
      rewrite (list_lookup_middle (pages ++ [lastPage]) rest excess (S (length pages)))
        by (rewrite length_app; simpl; lia).
      simpl.
      assert (delete (S (length pages))
                (<[length pages := lastPage ++ excess]>
                   (pages ++ lastPage :: excess :: rest))
              = pages ++ (lastPage ++ excess) :: rest) as ->.
      { rewrite insert_app_r_alt by lia. rewrite Nat.sub_diag. simpl.
        rewrite (cons_middle (lastPage ++ excess) pages (excess :: rest)), app_assoc.
        replace (S (length pages)) with (length (pages ++ [lastPage ++ excess]))
          by (rewrite length_app; simpl; lia).
        rewrite delete_middle, <- app_assoc. done. }
      rewrite IH by (simpl in Hturns; lia).
      by rewrite <- app_assoc.
Qed.

(** With more groups than pages, the loop leaves the first [pageTotal - 1]
    groups as they are and makes one page of all the others. *)
Lemma foldExcessPages_closed (pageTotal : nat) (allPages : list Group) :
  1 ≤ pageTotal →
  pageTotal < length allPages →
  foldExcessPages (length allPages) pageTotal allPages
  = take (pageTotal - 1) allPages ++ [concat (drop (pageTotal - 1) allPages)].
Proof.
  intros Hone Hlt.
  destruct (lookup_lt_is_Some_2 allPages (pageTotal - 1)) as [lastPage Hlast]; [lia|].
  rewrite <- (take_drop_middle allPages (pageTotal - 1) lastPage Hlast) at 2.
  replace pageTotal with (S (length (take (pageTotal - 1) allPages))) at 1
    by (rewrite length_take; lia).
  rewrite foldExcessPages_middle.
  - f_equal. rewrite (drop_S allPages lastPage (pageTotal - 1) Hlast). done.
  - rewrite length_drop. lia.
Qed.

Lemma concat_replicate_nil {A : Type} (n : nat) : concat (replicate n (@nil A)) = [].
Proof. induction n as [|n IH]; simpl; [done|exact IH]. Qed.

Lemma sum_list_length_concat {A : Type} (pages : list (list A)) :
  sum_list (length <$> pages) = length (concat pages).
Proof.
  induction pages as [|page pages IH]; simpl; [done|].
  rewrite length_app. by rewrite <- IH.
Qed.

(** C2, as amended: for every list of build groups and every page total of
    one or more, pagination returns pages, and the sum over the pages of the
    length of each page equals the number of definition and variant pairs of
    the groups (the items of the groups, in the same order), not the number
    of groups; with a page total above the number of groups, exactly
    [pageTotal] pages result, the groups followed by empty pages; with a page
    total below the number of groups, no group is dropped: the groups from the
    index [pageTotal] on are concatenated to the last page, so that exactly
    [pageTotal] pages result. *)
Theorem paginate_conserves_items (pageTotal : Z) (groups : list Group) :
  (0 < pageTotal)%Z →
  ∃ allPages,
    paginate pageTotal groups = Returns allPages
    ∧ concat allPages = concat groups
    ∧ sum_list (length <$> allPages) = sum_list (length <$> groups)
    ∧ (Z.to_nat pageTotal = length groups → allPages = groups)
    ∧ (length groups < Z.to_nat pageTotal →
       length allPages = Z.to_nat pageTotal
       ∧ allPages = groups ++ replicate (Z.to_nat pageTotal - length groups) [])
    ∧ (Z.to_nat pageTotal < length groups →
       length allPages = Z.to_nat pageTotal
       ∧ allPages = take (Z.to_nat pageTotal - 1) groups
                    ++ [concat (drop (Z.to_nat pageTotal - 1) groups)]).
Proof.
  intros Hpositive. unfold paginate.
  destruct (decide (pageTotal < Z.of_nat (length groups))%Z) as [Hfold|Hnofold].
  - rewrite bool_decide_eq_true_2 by done.
    rewrite bool_decide_eq_false_2 by lia.
    rewrite foldExcessPages_closed by lia.
    eexists. split; [reflexivity|].
    assert (concat (take (Z.to_nat pageTotal - 1) groups
                    ++ [concat (drop (Z.to_nat pageTotal - 1) groups)])
            = concat groups) as Hconcat.
    { rewrite concat_app. simpl. rewrite app_nil_r, <- concat_app.
      by rewrite take_drop. }
    split; [exact Hconcat|].
    split; [by rewrite !sum_list_length_concat, Hconcat|].
    split; [lia|]. split; [lia|]. intros _. split; [|done].
    rewrite length_app, length_take. simpl. lia.
  - rewrite bool_decide_eq_false_2 by done.
    destruct (decide (Z.of_nat (length groups) < pageTotal)%Z) as [Hpad|Hsame].
    + rewrite bool_decide_eq_true_2 by done. unfold padPages.
      eexists. split; [reflexivity|].
      assert (concat (groups ++ replicate (Z.to_nat pageTotal - length groups) [])
              = concat groups) as Hconcat.
      { by rewrite concat_app, concat_replicate_nil, app_nil_r. }
      split; [exact Hconcat|].
      split; [by rewrite !sum_list_length_concat, Hconcat|].
      split; [lia|]. split; [|lia]. intros _. split; [|done].
      rewrite length_app, length_replicate. lia.
    + rewrite bool_decide_eq_false_2 by done.
      exists groups. repeat split; try done; lia.
Qed.

Lemma paginate_conserves_items_witness :
  ∃ allPages,
    paginate 1 [[getDefinitionObject "base" (Some "stretch")];
                [getDefinitionObject "child" (Some "stretch")]]
      = Returns allPages
    ∧ allPages = [[getDefinitionObject "base" (Some "stretch");
                   getDefinitionObject "child" (Some "stretch")]].
Proof.
  destruct (paginate_conserves_items 1
              [[getDefinitionObject "base" (Some "stretch")];
               [getDefinitionObject "child" (Some "stretch")]] ltac:(lia))
    as (allPages & Hpages & _ & _ & _ & _ & Hfold).
  exists allPages. split; [exact Hpages|].
  destruct Hfold as [_ ->]; [simpl; lia|reflexivity].
Defined.

(** C2, as stated, fails: for [base] and [child] the planning passes give
    one group of two pairs; with one page the sum of the lengths of the pages
    is two, where the number of groups before pagination is one. *)
Lemma paginate_counts_pairs_not_groups :
  variantsList (planGroups familyConfig [] initialState).2
    = [[getDefinitionObject "base" (Some "stretch");
        getDefinitionObject "child" (Some "stretch")]]
  ∧ paginate 1 (variantsList (planGroups familyConfig [] initialState).2)
    = Returns [[getDefinitionObject "base" (Some "stretch");
                getDefinitionObject "child" (Some "stretch")]]
  ∧ sum_list (length <$> [[getDefinitionObject "base" (Some "stretch");
                           getDefinitionObject "child" (Some "stretch")]])
    ≠ length (variantsList (planGroups familyConfig [] initialState).2).
Proof.
  split; [vm_compute; reflexivity|]. split; [vm_compute; reflexivity|].
  vm_compute. discriminate.
Qed.

(** A page total below zero gives no pages: the pagination throws. *)
Lemma paginate_negative_throws (groups : list Group) :
  paginate (-1) groups = Throws TypeError.
Proof.
  unfold paginate. rewrite bool_decide_eq_true_2 by lia.
  by rewrite bool_decide_eq_true_2 by lia.
Qed.

(** ** Repeated calls *)

(** C10: [getSortedDefinitionBuildList] is not deterministic across
    successive calls. There is a populated registry, with one definition
    without parent and with a declared variant, for which two successive calls
    with the same arguments (page 1 of 1, nothing skipped) return different
    groups: [variantsList] and [skipParentVariants] are not reset between the
    calls, and the result of the second call holds the group of the first
    call again. *)
Theorem getSortedDefinitionBuildList_not_repeatable :
  ∃ (config : Config) (definitionId : string) (settings : BuildSettings)
    (variants : list string) (group : Group),
    buildSettings config definitionId = Some settings
    ∧ parent settings = NoParent
    ∧ definitionVariants config !! definitionId = Some variants
    ∧ variants ≠ []
    ∧ let first := getSortedDefinitionBuildList config 1 1 [] initialState in
      let second := getSortedDefinitionBuildList config 1 1 [] first.2 in
      first.1 = Returns (Some group)
      ∧ second.1 = Returns (Some (group ++ group))
      ∧ first.1 ≠ second.1
      ∧ variantsList first.2 = [group]
      ∧ variantsList second.2 = [group ++ group].
Proof.
  exists loneConfig, "base", (settingsWithTags ["base:${VERSION}-${VARIANT}"]),
    ["stretch"], [getDefinitionObject "base" (Some "stretch")].
  split; [reflexivity|]. split; [reflexivity|]. split; [reflexivity|].
  split; [discriminate|].
  vm_compute. repeat split; discriminate.
Qed.

(** With a parent and a child the second call does not return the group of
    the first call either: the child is pushed to the group that is still in
    [variantsList], and [skipParentVariants] holds the parent twice. *)
Lemma getSortedDefinitionBuildList_repeats_child :
  let first := getSortedDefinitionBuildList familyConfig 1 1 [] initialState in
  let second := getSortedDefinitionBuildList familyConfig 1 1 [] first.2 in
  first.1 = Returns (Some [getDefinitionObject "base" (Some "stretch");
                           getDefinitionObject "child" (Some "stretch")])
  ∧ second.1 = Returns (Some [getDefinitionObject "base" (Some "stretch");
                              getDefinitionObject "child" (Some "stretch");
                              getDefinitionObject "child" (Some "stretch")])
  ∧ skipParentVariants second.2 = [getDefinitionObject "base" (Some "stretch");
                                   getDefinitionObject "base" (Some "stretch")].
Proof. vm_compute. repeat split. Qed.

(** ** The reverse lookup *)

Lemma take_drop_string (n : nat) (s : string) : JS.take n s +:+ JS.drop n s = s.
Proof.
  revert s. induction n as [|n IH]; intros [|c s]; simpl; try done.
  by rewrite IH.
Qed.

Lemma drop_append_length (a b : string) : JS.drop (String.length a) (a +:+ b) = b.
Proof. induction a as [|c a IH]; simpl; [by destruct b|exact IH]. Qed.

Lemma length_append (a b : string) :
  String.length (a +:+ b) = String.length a + String.length b.
Proof. induction a as [|c a IH]; simpl; [done|by rewrite IH]. Qed.

Lemma lineLength_le (s : string) : JS.lineLength s ≤ String.length s.
Proof.
  induction s as [|c s IH]; simpl; [done|].
  destruct (JS.isLineTerminator c); lia.
Qed.

Lemma onOneLine_cons (c : ascii) (s : string) :
  onOneLine (String c s) ↔ JS.isLineTerminator c = false ∧ onOneLine s.
Proof.
  unfold onOneLine. simpl. destruct (JS.isLineTerminator c); [split; [done|by intros []]|].
  split; [intros [= H]; done|intros [_ ->]; done].
Qed.

Lemma onOneLine_append (a b : string) : onOneLine (a +:+ b) ↔ onOneLine a ∧ onOneLine b.
Proof.
  induction a as [|c a IH].
  - simpl. unfold onOneLine at 2. simpl. tauto.
  - change (String c a +:+ b) with (String c (a +:+ b)).
    rewrite !onOneLine_cons, IH. tauto.
Qed.

Lemma take_onOneLine (s : string) : onOneLine s → JS.take (JS.lineLength s) s = s.
Proof.
  intros H. rewrite H. clear H. induction s as [|c s IH]; simpl; [done|by rewrite IH].
Qed.

(** The literal items match the text they are built from. *)
Lemma matchItems_plainItems (source : string) (items rest : list JS.RegexItem) (s : string) :
  JS.plainItems source = Some items →
  JS.matchItems (items ++ rest) (source +:+ s) = JS.matchItems rest s.
Proof.
  revert items. induction source as [|c source IH]; intros items.
  - intros [= <-]. done.
  - cbn [JS.plainItems]. destruct (JS.isRegexSyntax c) eqn:Hsyntax; [done|].
    destruct (JS.plainItems source) as [items'|]; [|done]. intros [= <-].
    change (String c source +:+ s) with (String c (source +:+ s)).
    destruct (Ascii.eqb_spec c ".") as [->|Hdot].
    + simpl. by apply IH.
    + cbn [app JS.matchItems]. rewrite Ascii.eqb_refl. by apply IH.
Qed.

Lemma matchItems_char (c : ascii) (rest : list JS.RegexItem) (s : string) :
  JS.matchItems (JS.RChar c :: rest) (String c s) = JS.matchItems rest s.
Proof. cbn [JS.matchItems]. by rewrite Ascii.eqb_refl. Qed.

(** A greedy [.+] that matches is followed by a match of the rest. *)
Lemma tryLengths_Some (rest : string → option (list string)) (s : string) (n : nat)
    (groups : list string) :
  JS.tryLengths rest true s n = Some groups →
  ∃ k groups', 1 ≤ k ≤ n ∧ rest (JS.drop k s) = Some groups'
               ∧ groups = JS.take k s :: groups'.
Proof.
  induction n as [|n IH]; [done|]. cbn [JS.tryLengths].
  destruct (rest (JS.drop (S n) s)) as [groups'|] eqn:Hrest.
  - intros [= <-]. exists (S n), groups'. split; [lia|done].
  - intros (k & groups' & ? & ? & ?)%IH. exists k, groups'. split; [lia|done].
Qed.

(** A greedy [.+] matches when the rest matches after one of its lengths. *)
Lemma tryLengths_is_Some (rest : string → option (list string)) (capture : bool)
    (s : string) (n k : nat) :
  1 ≤ k ≤ n →
  is_Some (rest (JS.drop k s)) →
  is_Some (JS.tryLengths rest capture s n).
Proof.
  intros Hk Hrest. induction n as [|n IH]; [lia|]. cbn [JS.tryLengths].
  destruct (rest (JS.drop (S n) s)) as [groups|] eqn:Hn; [done|].
  apply IH. destruct (decide (k = S n)) as [->|]; [|lia].
  rewrite Hn in Hrest. by destruct Hrest.
Qed.

Lemma matchItems_group (rest : list JS.RegexItem) (s : string) :
  JS.matchItems (JS.RGroupDotPlus :: rest) s
  = JS.tryLengths (JS.matchItems rest) true s (JS.lineLength s).
Proof. done. Qed.

(** A [(.+)] at the end of the pattern takes the longest run. *)
Lemma tryLengths_last (s : string) (n : nat) :
  JS.tryLengths (JS.matchItems []) true s n
  = match n with
    | 0 => None
    | S _ => Some [JS.take n s]
    end.
Proof. by destruct n. Qed.

(** [:(.+)] at the start of a text on one line. *)
Lemma matchItems_colon_group_Some (s : string) (groups : list string) :
  onOneLine s →
  JS.matchItems [JS.RChar ":"; JS.RGroupDotPlus] s = Some groups →
  ∃ tagPart, s = ":" +:+ tagPart ∧ groups = [tagPart].
Proof.
  intros Hline. destruct s as [|c s]; [done|].
  change (JS.matchItems [JS.RChar ":"; JS.RGroupDotPlus] (String c s))
    with (if Ascii.eqb ":" c then JS.matchItems [JS.RGroupDotPlus] s else None).
  destruct (Ascii.eqb_spec ":" c) as [<-|]; [|done].
  apply onOneLine_cons in Hline as [_ Hline].
  rewrite matchItems_group, tryLengths_last. pose proof (take_onOneLine s Hline) as Htake.
  destruct (JS.lineLength s) as [|n]; [done|].
  intros [= <-]. exists s. split; [done|]. f_equal. exact Htake.
Qed.

Lemma matchItems_colon_group_is_Some (tagPart : string) :
  tagPart ≠ "" →
  onOneLine tagPart →
  is_Some (JS.matchItems [JS.RChar ":"; JS.RGroupDotPlus] (":" +:+ tagPart)).
Proof.
  intros Hne Hline. change (":" +:+ tagPart) with (String ":" tagPart).
  rewrite matchItems_char, matchItems_group, tryLengths_last, Hline. by destruct tagPart as [|c tagPart].
Qed.

(** [(.+):(.+)] matches a text [repo:tagPart] on one line as a whole. *)
Lemma matchItems_repo_tagPart (tag repo tagPart : string) :
  onOneLine tag →
  tag = repo +:+ ":" +:+ tagPart →
  repo ≠ "" →
  tagPart ≠ "" →
  ∃ repo' tagPart',
    JS.matchItems [JS.RGroupDotPlus; JS.RChar ":"; JS.RGroupDotPlus] tag
      = Some [repo'; tagPart']
    ∧ repo' +:+ ":" +:+ tagPart' = tag.
Proof.
  intros Hline Htag Hrepo HtagPart. rewrite matchItems_group.
  destruct (JS.tryLengths (JS.matchItems [JS.RChar ":"; JS.RGroupDotPlus]) true tag
              (JS.lineLength tag)) as [groups|] eqn:Htry.
  - apply tryLengths_Some in Htry as (k & groups' & Hk & Hrest & ->).
    apply matchItems_colon_group_Some in Hrest as (tagPart' & Hdrop & ->).
    + exists (JS.take k tag), tagPart'. split; [done|].
      by rewrite <- Hdrop, take_drop_string.
    + rewrite <- (take_drop_string k tag) in Hline.
      by apply onOneLine_append in Hline as [_ ?].
  - assert (is_Some (JS.tryLengths (JS.matchItems [JS.RChar ":"; JS.RGroupDotPlus]) true tag
                       (JS.lineLength tag))) as [? Hsome]; [|congruence].
    apply (tryLengths_is_Some _ _ _ _ (String.length repo)).
    + rewrite Hline, Htag, length_append. destruct repo; [done|]. simpl. lia.
    + rewrite Htag, drop_append_length.
      apply matchItems_colon_group_is_Some; [done|].
      rewrite Htag in Hline. apply onOneLine_append in Hline as [_ Hline].
      by apply (onOneLine_append ":" tagPart) in Hline as [_ ?].
Qed.

Lemma exec_matchItems (items : list JS.RegexItem) (s : string) (groups : list string) :
  JS.matchItems items s = Some groups → JS.exec items s = Some groups.
Proof. intros H. destruct s; simpl; by rewrite H. Qed.

(** The pattern of a tag finds the repository and the tag part of a tag
    with the registry and the registry path it is built from. *)
Lemma exec_tagPattern (registry registryPath tag repo tagPart : string) :
  plainText registry →
  plainText registryPath →
  onOneLine tag →
  tag = repo +:+ ":" +:+ tagPart →
  repo ≠ "" →
  tagPart ≠ "" →
  ∃ pattern repo' tagPart',
    tagPattern (Some registry) (Some registryPath) = Some pattern
    ∧ JS.exec pattern (qualify registry registryPath tag) = Some [repo'; tagPart']
    ∧ repo' +:+ ":" +:+ tagPart' = tag.
Proof.
  intros [Hregistry [registryItems HregistryItems]] [Hpath [pathItems HpathItems]]
    Hline Htag Hrepo HtagPart.
  destruct (matchItems_repo_tagPart tag repo tagPart Hline Htag Hrepo HtagPart)
    as (repo' & tagPart' & Hmatch & Hwhole).
  eexists _, repo', tagPart'. split; [|split; [|exact Hwhole]].
  - unfold tagPattern, patternPart. simpl. rewrite Hregistry, Hpath.
    rewrite HregistryItems, HpathItems. reflexivity.
  - apply exec_matchItems. unfold qualify.
    rewrite (matchItems_plainItems _ _ _ _ HregistryItems).
    change ("/" +:+ registryPath +:+ "/" +:+ tag)
      with (String "/" (registryPath +:+ "/" +:+ tag)).
    cbn [app]. rewrite matchItems_char.
    rewrite (matchItems_plainItems _ _ _ _ HpathItems).
    change ("/" +:+ tag) with (String "/" tag).
    rewrite matchItems_char. exact Hmatch.
Qed.

(** *** The population of the lookup *)

Lemma recordTags_lookup (tagList : list string) (definition : DefinitionObject)
    (definitionTagLookup : gmap string DefinitionObject) (key : string) :
  recordTags tagList definition definitionTagLookup !! key
  = if bool_decide (key ∈ tagList) then Some definition else definitionTagLookup !! key.
Proof.
  unfold recordTags. revert definitionTagLookup.
  induction tagList as [|tag tagList IH]; intros definitionTagLookup; simpl; [done|].
  rewrite IH. destruct (decide (key ∈ tagList)) as [Hin|Hout].
  - rewrite !bool_decide_eq_true_2; [done| |done]. by right.
  - rewrite (bool_decide_eq_false_2 _ Hout).
    destruct (decide (tag = key)) as [->|Hne].
    + rewrite lookup_insert_eq, bool_decide_eq_true_2; [done|by left].
    + rewrite lookup_insert_ne by done.
      rewrite bool_decide_eq_false_2; [done|].
      intros [?|?]%elem_of_cons; [congruence|done].
Qed.

(** What a loop that can throw leaves true when it returns: a property that
    every turn keeps. *)
Lemma forEachOutcome_keeps {A B : Type} (f : B → A → Outcome B) (P : B → Prop)
    (l : list A) (acc acc' : B) :
  (∀ x acc acc', x ∈ l → f acc x = Returns acc' → P acc → P acc') →
  forEachOutcome f l acc = Returns acc' →
  P acc → P acc'.
Proof.
  revert acc. induction l as [|x l IH]; intros acc Hkeeps; simpl.
  - by intros [= <-].
  - destruct (f acc x) as [acc1|e] eqn:Hf; [|done]. cbn [mbind Outcome_bind].
    intros Hrest Hacc. apply (IH acc1); [|done|].
    + intros y b b' Hy. apply Hkeeps. by right.
    + apply (Hkeeps x acc acc1); [by left|done|done].
Qed.

(** A property that one turn of the loop brings about and that every turn
    keeps. *)
Lemma forEachOutcome_brings {A B : Type} (f : B → A → Outcome B) (P : B → Prop)
    (l : list A) (x0 : A) (acc acc' : B) :
  x0 ∈ l →
  (∀ x acc acc', x ∈ l → f acc x = Returns acc' → P acc → P acc') →
  (∀ acc acc', f acc x0 = Returns acc' → P acc') →
  forEachOutcome f l acc = Returns acc' →
  P acc'.
Proof.
  revert acc. induction l as [|x l IH]; intros acc Hin Hkeeps Hbrings; [by inversion Hin|].
  simpl. destruct (f acc x) as [acc1|e] eqn:Hf; [|done]. cbn [mbind Outcome_bind].
  intros Hrest. apply elem_of_cons in Hin as [->|Hin].
  - apply (forEachOutcome_keeps f P l acc1 acc'); [|done|by eapply Hbrings].
    intros y b b' Hy. apply Hkeeps. by right.
  - apply (IH acc1); [done| |done|done].
    intros y b b' Hy. apply Hkeeps. by right.
Qed.

Lemma property_elem_of {A : Type} (key : string) (obj : list (string * A)) (value : A) :
  property key obj = Some value → (key, value) ∈ obj.
Proof.
  induction obj as [|[k v] obj IH]; simpl; [done|].
  destruct (String.eqb_spec k key) as [->|Hne].
  - intros [= ->]. by left.
  - intros H. right. by apply IH.
Qed.

Lemma qualify_inj (registry registryPath a b : string) :
  qualify registry registryPath a = qualify registry registryPath b → a = b.
Proof.
  unfold qualify. intros H.
  apply append_inj_l in H. apply (append_inj_l "/") in H.
  apply append_inj_l in H. by apply (append_inj_l "/") in H.
Qed.

Section Population.

Variables (config : Config) (key : string) (definition : DefinitionObject).
Hypothesis Hsole : soleOwner config key definition.

(** The recording of the tags of a version leaves the owner in place. *)
Lemma recordVersion_keeps (definitionId version : string) (variant : option string)
    (before after : gmap string DefinitionObject) :
  variant ∈ lookupVariants config definitionId →
  version ∈ lookupVersions →
  recordVersion config definitionId version variant before = Returns after →
  before !! key = Some definition →
  after !! key = Some definition.
Proof.
  intros Hvariant Hversion. unfold recordVersion.
  destruct (getTagsForVersion config definitionId version "ANY" "ANY" variant)
    as [[tagList|]|e] eqn:Htags; cbn [mbind Outcome_bind]; [|done..].
  intros [= <-] Hbefore. rewrite recordTags_lookup.
  destruct (decide (key ∈ tagList)) as [Hin|Hout].
  - rewrite bool_decide_eq_true_2 by done. f_equal. by eapply Hsole.
  - by rewrite bool_decide_eq_false_2.
Qed.

(** The recording of a version that has the tag puts its owner in place. *)
Lemma recordVersion_brings (definitionId version : string) (variant : option string)
    (tagList : list string) (before after : gmap string DefinitionObject) :
  getTagsForVersion config definitionId version "ANY" "ANY" variant
    = Returns (Some tagList) →
  key ∈ tagList →
  getDefinitionObject definitionId variant = definition →
  recordVersion config definitionId version variant before = Returns after →
  after !! key = Some definition.
Proof.
  intros Htags Hin <-. unfold recordVersion. rewrite Htags. cbn [mbind Outcome_bind].
  intros [= <-]. rewrite recordTags_lookup. by rewrite bool_decide_eq_true_2.
Qed.

(** The turn of the population for a variant of a definition. *)
Lemma recordVariant_keeps (definitionId : string) (variant : option string)
    (before after : gmap string DefinitionObject) :
  variant ∈ lookupVariants config definitionId →
  (definitionTagLookup ← recordVersion config definitionId "" variant before;
   recordVersion config definitionId "dev" variant definitionTagLookup) = Returns after →
  before !! key = Some definition →
  after !! key = Some definition.
Proof.
  intros Hvariant.
  destruct (recordVersion config definitionId "" variant before) as [middle|e] eqn:Hblank;
    cbn [mbind Outcome_bind]; [|done].
  intros Hdev Hbefore.
  eapply (recordVersion_keeps _ "dev"); [done|by right; left|done|].
  eapply (recordVersion_keeps _ ""); [done|by left|done|done].
Qed.

Lemma recordVariant_brings (definitionId version : string) (variant : option string)
    (tagList : list string) (before after : gmap string DefinitionObject) :
  variant ∈ lookupVariants config definitionId →
  version ∈ lookupVersions →
  getTagsForVersion config definitionId version "ANY" "ANY" variant
    = Returns (Some tagList) →
  key ∈ tagList →
  getDefinitionObject definitionId variant = definition →
  (definitionTagLookup ← recordVersion config definitionId "" variant before;
   recordVersion config definitionId "dev" variant definitionTagLookup) = Returns after →
  after !! key = Some definition.
Proof.
  intros Hvariant Hversion Htags Hin Hdefinition.
  destruct (recordVersion config definitionId "" variant before) as [middle|e] eqn:Hblank;
    cbn [mbind Outcome_bind]; [|done].
  intros Hdev. unfold lookupVersions in Hversion.
  apply elem_of_cons in Hversion as [->|Hversion].
  - eapply (recordVersion_keeps _ "dev"); [done|by right; left|done|].
    by eapply recordVersion_brings.
  - apply list_elem_of_singleton in Hversion as ->.
    by eapply recordVersion_brings.
Qed.

(** The lookup holds the owner of the tag once it is populated, when a
    known definition with tags generates the tag for a version and a variant
    that the lookup is populated for. *)
Lemma populateTagLookup_owner (definitionTagLookup : gmap string DefinitionObject)
    (definitionId version : string) (variant : option string) (settings : BuildSettings)
    (tagList : list string) :
  populateTagLookup config = Returns definitionTagLookup →
  buildSettings config definitionId = Some settings →
  variant ∈ lookupVariants config definitionId →
  version ∈ lookupVersions →
  getTagsForVersion config definitionId version "ANY" "ANY" variant
    = Returns (Some tagList) →
  key ∈ tagList →
  getDefinitionObject definitionId variant = definition →
  definitionTagLookup !! key = Some definition.
Proof.
  intros Hpopulate Hsettings Hvariant Hversion Htags Hin Hdefinition.
  unfold populateTagLookup in Hpopulate.
  refine (forEachOutcome_brings _ (fun lookup => lookup !! key = Some definition)
            _ (definitionId, settings) _ _ _ _ _ Hpopulate).
  - by apply property_elem_of.
  - intros [definitionId' settings'] before after _.
    destruct (tags settings'); [|by intros [= <-]].
    intros Hloop.
    refine (forEachOutcome_keeps _ (fun lookup => lookup !! key = Some definition)
              _ _ _ _ Hloop).
    intros variant' before' after' Hvariant'. by apply recordVariant_keeps.
  - intros before after.
    destruct (tags settings) as [templates|] eqn:Htemplates.
    + intros Hloop.
      refine (forEachOutcome_brings _ (fun lookup => lookup !! key = Some definition)
                _ variant _ _ Hvariant _ _ Hloop).
      * intros variant' before' after' Hvariant'. by apply recordVariant_keeps.
      * intros before' after'. by eapply recordVariant_brings.
    + by rewrite (getTagsForVersion_no_tags _ _ _ _ _ _ _ Hsettings Htemplates) in Htags.
Qed.

End Population.

(** C1, as amended: the round trip holds for the tags of the two versions
    that the reverse lookup is populated for, the empty version and ['dev'].
    For every definition id, every registry [R] and path [P] without regular
    expression syntax, and every variant that the lookup is populated for,
    if [getTagsForVersion(id, v, R, P, variant)] with [v] one of those two
    versions produces a tag [R/P/repo:tagPart] on one line, and no other
    definition and variant generates the same tag during the population with
    ["ANY"/"ANY"], then [getDefinitionFromTag(tag, R, P)] returns
    [{id, variant}]. *)
Theorem getDefinitionFromTag_round_trip (config : Config)
    (definitionTagLookup : gmap string DefinitionObject)
    (definitionId version registry registryPath : string) (variant : option string)
    (tagList : list string) (tag repo tagPart : string) :
  populateTagLookup config = Returns definitionTagLookup →
  version ∈ lookupVersions →
  variant ∈ lookupVariants config definitionId →
  getTagsForVersion config definitionId version registry registryPath variant
    = Returns (Some tagList) →
  qualify registry registryPath tag ∈ tagList →
  plainText registry →
  plainText registryPath →
  onOneLine tag →
  tag = repo +:+ ":" +:+ tagPart →
  repo ≠ "" →
  soleOwner config (qualify "ANY" "ANY" tag) (getDefinitionObject definitionId variant) →
  getDefinitionFromTag definitionTagLookup (qualify registry registryPath tag)
    (Some registry) (Some registryPath)
  = Some (Returns (Some (getDefinitionObject definitionId variant))).
Proof.
  intros Hpopulate Hversion Hvariant Htags Hin Hregistry Hpath Hline Htag Hrepo Hsole.
  apply getTagsForVersion_returns in Htags as (settings & templates & Hs & Ht & Hown & ->).
  apply list_elem_of_fmap in Hin as (tag' & Heq & Hbase).
  apply qualify_inj in Heq as <-.
  assert (tagPart ≠ "") as HtagPart.
  { intros ->. apply elem_of_filter_bool in Hbase as [_ Hcolon].
    rewrite Htag in Hcolon. unfold JS.endsWithColon in Hcolon.
    by rewrite lastChar_append in Hcolon. }
  assert (definitionTagLookup !! qualify "ANY" "ANY" tag
          = Some (getDefinitionObject definitionId variant)) as Hlookup.
  { apply (populateTagLookup_owner config _ _ Hsole definitionTagLookup definitionId
             version variant settings _ Hpopulate Hs Hvariant Hversion
             (getTagsForVersion_known _ _ _ _ _ "ANY" "ANY" _ Hs Ht Hown)); [|done].
    apply list_elem_of_fmap. by exists tag. }
  destruct (exec_tagPattern registry registryPath tag repo tagPart
              Hregistry Hpath Hline Htag Hrepo HtagPart)
    as (pattern & repo' & tagPart' & Hpattern & Hexec & Hwhole).
  unfold getDefinitionFromTag. rewrite Hpattern. cbn [mbind option_bind].
  rewrite Hexec.
  replace ("ANY/ANY/" +:+ repo' +:+ ":" +:+ tagPart') with (qualify "ANY" "ANY" tag)
    by (by rewrite <- Hwhole).
  by rewrite Hlookup.
Qed.

Lemma property_singleton {A : Type} (key k : string) (v value : A) :
  property key [(k, v)] = Some value → k = key.
Proof. simpl. by destruct (String.eqb_spec k key). Qed.

Lemma pythonConfig_soleOwner (key : string) :
  soleOwner pythonConfig key (getDefinitionObject "python" None).
Proof.
  intros definitionId variant version tagList Hvariant _ Htags _.
  apply getTagsForVersion_returns in Htags as (settings & templates & Hs & _).
  apply property_singleton in Hs as <-.
  apply list_elem_of_singleton in Hvariant as ->. done.
Qed.

Lemma getDefinitionFromTag_round_trip_witness :
  getDefinitionFromTag pythonLookup (qualify "r" "p" "python:dev-3") (Some "r") (Some "p")
  = Some (Returns (Some (getDefinitionObject "python" None))).
Proof.
  apply (getDefinitionFromTag_round_trip pythonConfig pythonLookup "python" "dev" "r" "p"
           None ["r/p/python:dev-3"] "python:dev-3" "python" "dev-3").
  - vm_compute. reflexivity.
  - right. left.
  - left.
  - vm_compute. reflexivity.
  - left.
  - split; [reflexivity|]. vm_compute. eauto.
  - split; [reflexivity|]. vm_compute. eauto.
  - reflexivity.
  - reflexivity.
  - discriminate.
  - apply pythonConfig_soleOwner.
Defined.

(** C1, as stated, fails: for the recorded version [1.2.3] of [python],
    [getTagsForVersion] produces the tag [r/p/python:1.2.3-3], which the
    lookup populated with ["ANY"/"ANY"] does not hold, neither as it is nor
    without a numeric prefix: [getDefinitionFromTag] returns [undefined], not
    the definition and the variant. *)
Lemma getDefinitionFromTag_misses_versioned_tag :
  populateTagLookup pythonConfig = Returns pythonLookup
  ∧ getTagsForVersion pythonConfig "python" "1.2.3" "r" "p" None
    = Returns (Some ["r/p/python:1.2.3-3"])
  ∧ getDefinitionFromTag pythonLookup "r/p/python:1.2.3-3" (Some "r") (Some "p")
    = Some (Returns None)
  ∧ getDefinitionFromTag pythonLookup "r/p/python:1.2.3-3" (Some "r") (Some "p")
    ≠ Some (Returns (Some (getDefinitionObject "python" None))).
Proof.
  split; [vm_compute; reflexivity|]. split; [vm_compute; reflexivity|].
  split; [vm_compute; reflexivity|]. vm_compute. discriminate.
Qed.

(** A tag that two variants generate belongs to the variant recorded last:
    with the variants [a] and [b] of [img] and the template [img:${VERSION}],
    the tag of ['dev'] for [a] is looked up as the tag of [b]. *)
Lemma getDefinitionFromTag_last_variant_wins :
  populateTagLookup sharedConfig = Returns sharedLookup
  ∧ getTagsForVersion sharedConfig "img" "dev" "r" "p" (Some "a")
    = Returns (Some ["r/p/img:dev"])
  ∧ getDefinitionFromTag sharedLookup "r/p/img:dev" (Some "r") (Some "p")
    = Some (Returns (Some (getDefinitionObject "img" (Some "b")))).
Proof. repeat split; vm_compute; reflexivity. Qed.

(** *** The population returns *)

Lemma forEachOutcome_returns {A B : Type} (f : B → A → Outcome B) (l : list A) (acc : B) :
  (∀ x acc, x ∈ l → ∃ acc', f acc x = Returns acc') →
  ∃ acc', forEachOutcome f l acc = Returns acc'.
Proof.
  revert acc. induction l as [|x l IH]; intros acc Hf; simpl; [by eexists|].
  destruct (Hf x acc) as [acc1 ->]; [by left|]. cbn [mbind Outcome_bind].
  apply IH. intros y b Hy. apply Hf. by right.
Qed.

Lemma property_NoDup {A : Type} (key : string) (value : A) (obj : list (string * A)) :
  NoDup obj.*1 → (key, value) ∈ obj → property key obj = Some value.
Proof.
  induction obj as [|[k v] obj IH]; [by inversion 2|].
  rewrite fmap_cons. intros [Hk Hobj]%NoDup_cons [[= -> ->]|Hin]%elem_of_cons; simpl.
  - by rewrite String.eqb_refl.
  - destruct (String.eqb_spec k key) as [->|Hne]; [|by apply IH].
    destruct Hk. apply list_elem_of_fmap. by exists (key, value).
Qed.

(** What every turn of a loop that returns has done: it returned. *)
Lemma forEachOutcome_returned {A B : Type} (f : B → A → Outcome B) (l : list A)
    (acc acc' : B) (x : A) :
  forEachOutcome f l acc = Returns acc' → x ∈ l → ∃ b b', f b x = Returns b'.
Proof.
  revert acc. induction l as [|y l IH]; intros acc Hloop Hin; [by inversion Hin|].
  cbn [forEachOutcome] in Hloop.
  destruct (f acc y) as [acc1|e] eqn:Hf; [|done]. cbn [mbind Outcome_bind] in Hloop.
  apply elem_of_cons in Hin as [->|Hin]; [by eauto|]. by eapply IH.
Qed.

(** With distinct definition ids, the population of the lookup returns if
    and only if the variant tags of every definition with tags are read by an
    own key for every variant that the lookup is populated for: a declared
    variant that names an inherited member in place of an entry of
    [variantTags] makes [loadConfig] throw. *)
Lemma populateTagLookup_returns (config : Config) :
  NoDup (definitionBuildSettings config).*1 →
  (∃ definitionTagLookup, populateTagLookup config = Returns definitionTagLookup)
  ↔ (∀ definitionId settings variant,
       (definitionId, settings) ∈ definitionBuildSettings config →
       is_Some (tags settings) →
       variant ∈ lookupVariants config definitionId →
       ownVariantTags settings (tagVariant config definitionId variant) = true).
Proof.
  intros Hids. split.
  - intros [definitionTagLookup Hpopulate] definitionId settings variant Hin
      [templates Htemplates] Hvariant.
    pose proof (property_NoDup _ _ _ Hids Hin) as Hsettings.
    unfold populateTagLookup in Hpopulate.
    destruct (forEachOutcome_returned _ _ _ _ _ Hpopulate Hin) as (b & b' & Hturn).
    cbn beta iota in Hturn. rewrite Htemplates in Hturn.
    destruct (forEachOutcome_returned _ _ _ _ _ Hturn Hvariant) as (c & c' & Hrecord).
    cbn beta in Hrecord. unfold recordVersion in Hrecord.
    destruct (ownVariantTags settings (tagVariant config definitionId variant)) eqn:Hown;
      [done|].
    rewrite !(getTagsForVersion_inherited_variant config settings templates definitionId)
      in Hrecord by done.
    by cbn [mbind Outcome_bind] in Hrecord.
  - intros Hown. unfold populateTagLookup. apply forEachOutcome_returns.
    intros [definitionId settings] lookup Hin.
    destruct (tags settings) as [templates|] eqn:Htemplates; [|by eexists].
    apply forEachOutcome_returns. intros variant lookup' Hvariant.
    pose proof (property_NoDup _ _ _ Hids Hin) as Hsettings.
    unfold recordVersion.
    rewrite !(getTagsForVersion_known config settings templates)
      by (done || (apply (Hown _ _ _ Hin); [by rewrite Htemplates|done])).
    cbn [mbind Outcome_bind]. by eexists.
Qed.

(** * Further properties of the module *)

(** ** Releases and versions *)

(** [getVersionFromRelease] does not read the number of a release: two
    release strings of the form [v<digit>...] resolve to the same version,
    the recorded one, and give the same tag list. *)
Theorem getVersionFromRelease_ignores_release_number (config : Config)
    (definitionId release1 release2 : string) (versionPartHandling : Handling)
    (registry registryPath : string) (variant : VariantArgument) :
  isReleaseString release1 = true →
  isReleaseString release2 = true →
  getVersionFromRelease config release1 definitionId
    = getVersionFromRelease config release2 definitionId
  ∧ getTagList config definitionId release1 versionPartHandling registry registryPath variant
    = getTagList config definitionId release2 versionPartHandling registry registryPath
        variant.
Proof.
  intros H1 H2.
  assert (getVersionFromRelease config release1 definitionId
          = getVersionFromRelease config release2 definitionId) as Hsame.
  { unfold getVersionFromRelease, isReleaseString in *.
    destruct release1 as [|a0 [|a1 release1]]; [done..|].
    destruct release2 as [|b0 [|b1 release2]]; [done..|].
    by rewrite H1, H2. }
  split; [exact Hsame|]. unfold getTagList. by rewrite Hsame.
Qed.

Lemma getVersionFromRelease_ignores_release_number_witness :
  getVersionFromRelease pythonConfig "v1.0.0" "python"
    = getVersionFromRelease pythonConfig "v2.5.7" "python"
  ∧ getTagList pythonConfig "python" "v1.0.0" (HString "full-only") "r" "p" NotPassed
    = getTagList pythonConfig "python" "v2.5.7" (HString "full-only") "r" "p" NotPassed.
Proof.
  apply (getVersionFromRelease_ignores_release_number pythonConfig "python" "v1.0.0" "v2.5.7");
    reflexivity.
Defined.

Lemma versionSwitch_nonempty (versionPartHandling : Handling) (version major minor : string)
    (updateLatest updateUnversionedTags : bool) (versionList : list string) :
  versionSwitch versionPartHandling version major minor
    = Some (updateLatest, updateUnversionedTags, versionList) →
  versionList ≠ [].
Proof.
  unfold versionSwitch. destruct versionPartHandling as [[]|mode]; [by intros [= <- <- <-]..|].
  repeat match goal with
         | |- context [String.eqb ?a ?b] => destruct (String.eqb a b)
         end; by intros [= <- <- <-].
Qed.

(** [getTagList] returns a list for a known definition with tags only: for
    an unknown definition it returns [null] or throws, and for a definition
    without [tags] it throws. *)
Theorem getTagList_list_needs_tags (config : Config) (definitionId release : string)
    (versionPartHandling : Handling) (registry registryPath : string)
    (variant : VariantArgument) (tagList : list string) :
  getTagList config definitionId release versionPartHandling registry registryPath variant
    = Returns (Some tagList) →
  ∃ settings templates,
    buildSettings config definitionId = Some settings ∧ tags settings = Some templates.
Proof.
  unfold getTagList.
  destruct (getVersionFromRelease config release definitionId) as [version|]; [|done].
  destruct (String.eqb version "dev").
  - intros (settings & templates & ? & ? & _)%getTagsForVersion_returns. eauto.
  - destruct (JS.split "." version) as [|major [|minor [|patch [|]]]]; try done.
    destruct (versionSwitch versionPartHandling version major minor)
      as [[[updateLatest updateUnversionedTags] versionList]|] eqn:Hswitch; [|done].
    apply versionSwitch_nonempty in Hswitch.
    destruct (buildSettings config definitionId) as [settings|] eqn:Hsettings.
    + destruct (tags settings) as [templates|] eqn:Htags; [eauto|].
      assert (∀ versions : list string, versions ≠ [] →
                forEachOutcome
                  (fun tagList tagVersion =>
                     tagsForVersion ←
                       getTagsForVersion config definitionId tagVersion registry
                         registryPath (variantString variant);
                     match tagsForVersion with
                     | Some tagsForVersion => Returns (tagList ++ tagsForVersion)
                     | None => Throws TypeError
                     end)
                  versions [] = Throws TypeError) as Hthrows.
      { intros [|v versions] Hne; [done|]. cbn [forEachOutcome].
        by rewrite (getTagsForVersion_no_tags _ _ _ _ _ _ _ Hsettings Htags). }
      destruct updateUnversionedTags; cbn [mbind Outcome_bind];
        rewrite Hthrows; try done.
      destruct (versionedTagsOnly settings); [done|]. by destruct versionList.
    + destruct updateUnversionedTags; cbn [mbind Outcome_bind]; [done|].
      destruct (forEachOutcome _ versionList []); cbn [mbind Outcome_bind]; done.
Qed.

Lemma getTagList_list_needs_tags_witness :
  ∃ settings templates,
    buildSettings pythonConfig "python" = Some settings ∧ tags settings = Some templates.
Proof.
  apply (getTagList_list_needs_tags pythonConfig "python" "main" (HString "all") "r" "p"
           NotPassed ["r/p/python:dev-3"]).
  vm_compute. reflexivity.
Defined.

(** The first part of a split text: it has no separator, and the text is
    this part alone or this part, the separator and more. *)
Lemma split_first (sep : ascii) (s : string) :
  ∃ first others,
    JS.split sep s = first :: others
    ∧ JS.includesChar sep first = false
    ∧ (s = first ∨ ∃ rest, s = first +:+ String sep rest).
Proof.
  induction s as [|c s (first & others & Hsplit & Hfirst & Hs)].
  - exists "", []. repeat split. by left.
  - cbn [JS.split]. destruct (Ascii.eqb_spec c sep) as [->|Hne].
    + exists "", (JS.split sep s). repeat split. right. by exists s.
    + rewrite Hsplit. exists (String c first), others. split; [done|]. split.
      * cbn [JS.includesChar]. rewrite Hfirst, orb_false_r.
        apply Ascii.eqb_neq. congruence.
      * destruct Hs as [->|[rest ->]]; [by left|]. right. by exists rest.
Qed.

(** [majorFromRelease] returns ['dev'] for a branch and, for a release, the
    text of the recorded version before its first [.]: a text without [.]; it
    throws when the release has no recorded version. *)
Theorem majorFromRelease_is_first_part (config : Config) (release definitionId : string) :
  (isReleaseString release = false →
   majorFromRelease config release definitionId = Returns "dev")
  ∧ (getVersionFromRelease config release definitionId = None →
     majorFromRelease config release definitionId = Throws TypeError)
  ∧ (∀ version,
       getVersionFromRelease config release definitionId = Some version →
       ∃ major,
         majorFromRelease config release definitionId = Returns major
         ∧ JS.includesChar "." major = false
         ∧ (version = major ∨ ∃ rest, version = major +:+ "." +:+ rest)).
Proof.
  unfold majorFromRelease. split; [|split].
  - intros Hbranch. by rewrite (getVersionFromRelease_branch _ _ _ Hbranch).
  - by intros ->.
  - intros version ->. destruct (String.eqb_spec version "dev") as [->|Hdev].
    + exists "dev". repeat split. by left.
    + destruct (split_first "." version) as (first & others & -> & Hfirst & Hversion).
      exists first. split; [done|]. split; [done|]. exact Hversion.
Qed.

Lemma majorFromRelease_is_first_part_witness :
  ∃ major,
    majorFromRelease pythonConfig "v1.0.0" "python" = Returns major
    ∧ JS.includesChar "." major = false
    ∧ ("1.2.3" = major ∨ ∃ rest, "1.2.3" = major +:+ "." +:+ rest).
Proof.
  destruct (majorFromRelease_is_first_part pythonConfig "v1.0.0" "python") as (_ & _ & H).
  exact (H "1.2.3" eq_refl).
Defined.

(** For a known definition with tags and a release whose recorded version
    has three parts, the tag list of the mode ['major'] is the tag list of
    the version that [majorFromRelease] gives. *)
Theorem getTagList_major_is_majorFromRelease (config : Config) (settings : BuildSettings)
    (templates : list string) (definitionId release registry registryPath : string)
    (variant : VariantArgument) (version major minor patch : string) :
  buildSettings config definitionId = Some settings →
  tags settings = Some templates →
  getVersionFromRelease config release definitionId = Some version →
  version ≠ "dev" →
  JS.split "." version = [major; minor; patch] →
  majorFromRelease config release definitionId = Returns major
  ∧ getTagList config definitionId release (HString "major") registry registryPath variant
    = getTagsForVersion config definitionId major registry registryPath
        (variantString variant).
Proof.
  intros Hsettings Htags Hversion Hdev Hsplit. split.
  - unfold majorFromRelease. rewrite Hversion.
    apply String.eqb_neq in Hdev. by rewrite Hdev, Hsplit.
  - destruct (ownVariantTags settings
                (tagVariant config definitionId (variantString variant))) eqn:Hown.
    + rewrite (getTagList_expands _ _ _ _ _ _ _ Hsettings Htags _ (HString "major") _ _ _ _
                 Hversion Hdev Hsplit eq_refl Hown).
      rewrite (getTagsForVersion_known _ _ _ _ _ _ _ _ Hsettings Htags Hown).
      unfold latestAppended, expandedVersions, versionTags. simpl.
      by rewrite !app_nil_r.
    + rewrite (getTagList_inherited_variant _ _ _ _ _ _ _ Hsettings Htags _
                 (HString "major") _ _ _ _ Hversion Hdev Hsplit eq_refl Hown).
      by rewrite (getTagsForVersion_inherited_variant _ _ _ _ _ _ _ _ Hsettings Htags Hown).
Qed.

Lemma getTagList_major_is_majorFromRelease_witness :
  majorFromRelease pythonConfig "v1.0.0" "python" = Returns "1"
  ∧ getTagList pythonConfig "python" "v1.0.0" (HString "major") "r" "p" NotPassed
    = getTagsForVersion pythonConfig "python" "1" "r" "p" None.
Proof.
  apply (getTagList_major_is_majorFromRelease pythonConfig
           {| tags := Some ["python:${VERSION}-3"]; parent := NoParent;
              variantTags := None; versionedTagsOnly := false;
              latest := LatestBool true; idMismatch := None |}
           ["python:${VERSION}-3"] "python" "v1.0.0" "r" "p" NotPassed "1.2.3" "1" "2" "3");
    [reflexivity | reflexivity | reflexivity | discriminate | reflexivity].
Defined.

(** ** More on the tags of a version *)

(** When no variant is passed, or an empty one, the tags are those of the
    first declared variant. *)
Theorem getTagsForVersion_default_variant (config : Config)
    (definitionId version registry registryPath firstVariant : string)
    (variants : list string) (variant : option string) :
  getVariants config definitionId = Some (firstVariant :: variants) →
  firstVariant ≠ "" →
  truthyVariant variant = false →
  getTagsForVersion config definitionId version registry registryPath variant
  = getTagsForVersion config definitionId version registry registryPath (Some firstVariant).
Proof.
  intros Hvariants Hne Hvariant. unfold getTagsForVersion, tagVariant.
  rewrite Hvariants, Hvariant. simpl. by destruct firstVariant.
Qed.

Lemma getTagsForVersion_default_variant_witness :
  getTagsForVersion familyConfig "base" "dev" "r" "p" None
  = getTagsForVersion familyConfig "base" "dev" "r" "p" (Some "stretch").
Proof.
  apply (getTagsForVersion_default_variant familyConfig "base" "dev" "r" "p" "stretch" []);
    [reflexivity | discriminate | reflexivity].
Defined.

Lemma dedupe_all_same (l : list string) (x : string) :
  l ≠ [] → (∀ y, y ∈ l → y = x) → dedupe l = [x].
Proof.
  destruct l as [|y l]; [done|]. intros _ Hall. simpl.
  rewrite (Hall y) by (apply elem_of_cons; by left). f_equal.
  assert (∀ z, z ∈ dedupe l → z = x) as Hrest.
  { intros z Hz. apply (proj1 (elem_of_dedupe l z)) in Hz.
    apply Hall. apply elem_of_cons. by right. }
  induction (dedupe l) as [|z rest IH]; simpl; [done|].
  rewrite (Hrest z) by (apply elem_of_cons; by left). rewrite String.eqb_refl. simpl.
  apply IH. intros w Hw. apply Hrest. apply elem_of_cons. by right.
Qed.

(** [getLatestTag] returns [null] for an id that the registry does not
    have, unless the id names an inherited member, for which it throws. For
    a known definition with tags it returns, for every template, the text
    after the first [:] replaced by [latest] and prefixed by
    [<registry>/<registryPath>/]; the list has no duplicate entries and keeps
    the first-seen order, also when several templates have the same latest
    form. The text after the [:] is the rest of its line, as for a template
    [repo:text] of one line. *)
Theorem getLatestTag_dedupes (config : Config) (definitionId registry registryPath : string) :
  (buildSettings config definitionId = None →
   getLatestTag config definitionId registry registryPath
   = if inheritedName definitionId then Throws TypeError else Returns None)
  ∧ (∀ settings templates,
       buildSettings config definitionId = Some settings →
       tags settings = Some templates →
       getLatestTag config definitionId registry registryPath
         = Returns (Some (dedupe ((fun tag => qualify registry registryPath (latestForm tag))
                                    <$> templates)))
       ∧ NoDup (dedupe ((fun tag => qualify registry registryPath (latestForm tag))
                          <$> templates)))
  ∧ (∀ repo text,
       JS.includesChar ":" repo = false →
       text ≠ "" →
       JS.lineLength text = String.length text →
       latestForm (repo +:+ ":" +:+ text) = repo +:+ ":latest").
Proof.
  split; [|split].
  - intros H. unfold getLatestTag. by rewrite H.
  - intros settings templates Hs Ht. split; [|apply NoDup_dedupe].
    exact (getLatestTag_with_tags _ _ _ _ _ _ Hs Ht).
  - apply latestForm_repo_text.
Qed.

Lemma getLatestTag_dedupes_witness :
  getLatestTag slimConfig "app" "r" "p" = Returns (Some ["r/p/app:latest"])
  ∧ getLatestTag slimConfig "other" "r" "p" = Returns None.
Proof.
  destruct (getLatestTag_dedupes slimConfig "app" "r" "p") as (_ & H & _).
  destruct (H (settingsWithTags ["app:${VERSION}-${VARIANT}-slim"])
              ["app:${VERSION}-${VARIANT}-slim"] eq_refl eq_refl) as [-> _].
  split; [reflexivity|].
  destruct (getLatestTag_dedupes slimConfig "other" "r" "p") as (Hunknown & _).
  exact (Hunknown eq_refl).
Defined.

(** The templates of one repository have one latest tag: when every
    template is [repo:text] on one line, [getLatestTag] returns
    [<registry>/<registryPath>/repo:latest] alone. *)
Theorem getLatestTag_one_repository (config : Config) (settings : BuildSettings)
    (templates : list string) (definitionId registry registryPath repo : string) :
  buildSettings config definitionId = Some settings →
  tags settings = Some templates →
  templates ≠ [] →
  JS.includesChar ":" repo = false →
  (∀ tag, tag ∈ templates →
     ∃ text, tag = repo +:+ ":" +:+ text ∧ text ≠ "" ∧ onOneLine text) →
  getLatestTag config definitionId registry registryPath
  = Returns (Some [qualify registry registryPath (repo +:+ ":latest")]).
Proof.
  intros Hsettings Htags Hne Hrepo Hshape.
  rewrite (getLatestTag_with_tags _ _ _ _ _ _ Hsettings Htags). do 2 f_equal.
  unfold latestTags. apply dedupe_all_same.
  - by destruct templates.
  - intros latest (tag & -> & Htag)%list_elem_of_fmap.
    destruct (Hshape tag Htag) as (text & -> & Htext & Hline).
    by rewrite latestForm_repo_text.
Qed.

Lemma getLatestTag_one_repository_witness :
  getLatestTag colonConfig "app" "r" "p" = Returns (Some [qualify "r" "p" ("app" +:+ ":latest")]).
Proof.
  apply (getLatestTag_one_repository colonConfig
           (settingsWithTags ["app:${VERSION}"; "app:${VERSION}-slim"])
           ["app:${VERSION}"; "app:${VERSION}-slim"]);
    [reflexivity | reflexivity | discriminate | reflexivity |].
  intros tag Htag. set_unfold.
  destruct Htag as [->|[->|[]]]; [by exists "${VERSION}"|by exists "${VERSION}-slim"].
Defined.

(** ** More on the reverse lookup *)

Lemma includesChar_drop (c : ascii) (k : nat) (s : string) :
  JS.includesChar c (JS.drop k s) = true → JS.includesChar c s = true.
Proof.
  revert s. induction k as [|k IH]; intros [|d s]; simpl; try done.
  intros H%IH. rewrite H. apply orb_true_r.
Qed.

Lemma tryLengths_matches (rest : string → option (list string)) (capture : bool)
    (s : string) (n : nat) (groups : list string) :
  JS.tryLengths rest capture s n = Some groups →
  ∃ k groups', 1 ≤ k ≤ n ∧ rest (JS.drop k s) = Some groups'.
Proof.
  induction n as [|n IH]; [done|]. cbn [JS.tryLengths].
  destruct (rest (JS.drop (S n) s)) as [groups'|] eqn:Hrest.
  - intros _. exists (S n), groups'. split; [lia|done].
  - intros (k & groups' & ? & ?)%IH. exists k, groups'. split; [lia|done].
Qed.

(** A text that a pattern matches holds the literal characters of the
    pattern. *)
Lemma matchItems_has_char (items : list JS.RegexItem) (s : string) (groups : list string)
    (c : ascii) :
  JS.matchItems items s = Some groups →
  JS.RChar c ∈ items →
  JS.includesChar c s = true.
Proof.
  revert s groups. induction items as [|item items IH]; intros s groups Hmatch Hin.
  - by inversion Hin.
  - destruct item as [d| | |].
    + destruct s as [|e s]; [done|]. cbn [JS.matchItems] in Hmatch.
      destruct (Ascii.eqb_spec d e) as [->|]; [|done].
      cbn [JS.includesChar]. apply elem_of_cons in Hin as [[= ->]|Hin].
      * by rewrite Ascii.eqb_refl.
      * rewrite (IH _ _ Hmatch Hin). apply orb_true_r.
    + destruct s as [|e s]; [done|]. cbn [JS.matchItems] in Hmatch.
      destruct (JS.isLineTerminator e); [done|].
      apply elem_of_cons in Hin as [[=]|Hin].
      cbn [JS.includesChar]. rewrite (IH _ _ Hmatch Hin). apply orb_true_r.
    + cbn [JS.matchItems] in Hmatch.
      apply tryLengths_matches in Hmatch as (k & groups' & _ & Hrest).
      apply elem_of_cons in Hin as [[=]|Hin].
      eapply includesChar_drop, IH; done.
    + cbn [JS.matchItems] in Hmatch.
      apply tryLengths_matches in Hmatch as (k & groups' & _ & Hrest).
      apply elem_of_cons in Hin as [[=]|Hin].
      eapply includesChar_drop, IH; done.
Qed.





(** The greedy [.+] stops at the longest length after which the rest
    matches. *)
Lemma tryLengths_longest (rest : string → option (list string)) (s : string) (n k : nat)
    (groups : list string) :
  1 ≤ k ≤ n →
  (∀ j, k < j ≤ n → rest (JS.drop j s) = None) →
  rest (JS.drop k s) = Some groups →
  JS.tryLengths rest true s n = Some (JS.take k s :: groups).
Proof.
  intros Hk Hlonger Hrest. induction n as [|n IH]; [lia|]. cbn [JS.tryLengths].
  destruct (decide (k = S n)) as [->|Hne].
  - by rewrite Hrest.
  - rewrite Hlonger by lia. apply IH; [lia|]. intros j Hj. apply Hlonger. lia.
Qed.

Lemma take_append_length (a b : string) : JS.take (String.length a) (a +:+ b) = a.
Proof. induction a as [|c a IH]; simpl; [by destruct b|by rewrite IH]. Qed.

Lemma drop_append_more (a b : string) (j : nat) :
  String.length a ≤ j → JS.drop j (a +:+ b) = JS.drop (j - String.length a) b.
Proof.
  revert j. induction a as [|c a IH]; intros j Hj; simpl.
  - by rewrite Nat.sub_0_r.
  - destruct j as [|j]; [simpl in Hj; lia|]. simpl. apply IH. simpl in Hj. lia.
Qed.

Lemma matchItems_colon_none (rest : list JS.RegexItem) (s : string) :
  JS.includesChar ":" s = false → JS.matchItems (JS.RChar ":" :: rest) s = None.
Proof.
  destruct s as [|c s]; [done|]. cbn [JS.includesChar JS.matchItems].
  intros [Hc _]%orb_false_iff. by rewrite Hc.
Qed.

Lemma includesChar_drop_false (c : ascii) (k : nat) (s : string) :
  JS.includesChar c s = false → JS.includesChar c (JS.drop k s) = false.
Proof.
  intros H. destruct (JS.includesChar c (JS.drop k s)) eqn:Hdrop; [|done].
  apply includesChar_drop in Hdrop. congruence.
Qed.

(** [(.+):(.+)] splits a text [repo:tagPart] on one line at its last [:]. *)
Lemma matchItems_last_colon (repo tagPart : string) :
  onOneLine (repo +:+ ":" +:+ tagPart) →
  repo ≠ "" →
  tagPart ≠ "" →
  JS.includesChar ":" tagPart = false →
  JS.matchItems [JS.RGroupDotPlus; JS.RChar ":"; JS.RGroupDotPlus]
    (repo +:+ ":" +:+ tagPart)
  = Some [repo; tagPart].
Proof.
  intros Hline Hrepo HtagPart Hcolon. rewrite matchItems_group.
  rewrite <- (take_append_length repo (":" +:+ tagPart)) at 3.
  apply tryLengths_longest.
  - rewrite Hline, length_append. destruct repo; [done|]. simpl. lia.
  - intros j Hj. rewrite drop_append_more by lia.
    destruct (j - String.length repo) as [|m] eqn:Hm; [lia|].
    change (JS.drop (S m) (":" +:+ tagPart)) with (JS.drop m tagPart).
    apply matchItems_colon_none. by apply includesChar_drop_false.
  - rewrite drop_append_length.
    change (":" +:+ tagPart) with (String ":" tagPart).
    rewrite matchItems_char, matchItems_group, tryLengths_last.
    apply onOneLine_append in Hline as [_ Hline].
    apply (onOneLine_append ":" tagPart) in Hline as [_ Hline].
    pose proof (take_onOneLine _ Hline) as Htake.
    destruct (JS.lineLength tagPart) eqn:Hn.
    + destruct tagPart; [done|]. unfold onOneLine in Hline. simpl in *. lia.
    + by rewrite Htake.
Qed.

Lemma digitsLength_append (digits rest : string) :
  digitsOnly digits →
  JS.digitsLength (digits +:+ "-" +:+ rest) = String.length digits.
Proof.
  unfold digitsOnly. induction digits as [|c digits IH]; [done|].
  change (String c digits +:+ "-" +:+ rest) with (String c (digits +:+ "-" +:+ rest)).
  cbn [JS.digitsLength String.length]. destruct (JS.isDigit c); [|done].
  intros [= H]. by rewrite IH.
Qed.

(** A numeric prefix and its dash are removed. *)
Lemma stripNumericPrefix_digits (digits rest : string) :
  digitsOnly digits →
  digits ≠ "" →
  JS.stripNumericPrefix (digits +:+ "-" +:+ rest) = rest.
Proof.
  intros Hdigits Hne. unfold JS.stripNumericPrefix.
  rewrite (digitsLength_append _ _ Hdigits).
  destruct (String.length digits) as [|n] eqn:Hlength; [by destruct digits|].
  rewrite <- Hlength, drop_append_length. done.
Qed.

(** For a tag [R/P/repo:tagPart] on one line, [getDefinitionFromTag] returns
    the entry of [ANY/ANY/repo:tagPart] and, when there is none, the entry of
    the tag part without its numeric prefix: a tag [repo:<digits>-rest] that
    the lookup does not hold is looked up as [repo:rest]. *)
Theorem getDefinitionFromTag_numeric_prefix
    (definitionTagLookup : gmap string DefinitionObject)
    (registry registryPath repo tagPart : string) :
  plainText registry →
  plainText registryPath →
  onOneLine (repo +:+ ":" +:+ tagPart) →
  repo ≠ "" →
  tagPart ≠ "" →
  JS.includesChar ":" tagPart = false →
  getDefinitionFromTag definitionTagLookup
    (qualify registry registryPath (repo +:+ ":" +:+ tagPart))
    (Some registry) (Some registryPath)
  = Some (Returns
      match definitionTagLookup !! ("ANY/ANY/" +:+ repo +:+ ":" +:+ tagPart) with
      | Some definition => Some definition
      | None =>
          definitionTagLookup !! ("ANY/ANY/" +:+ repo +:+ ":" +:+ JS.stripNumericPrefix tagPart)
      end)
  ∧ ∀ digits rest,
      tagPart = digits +:+ "-" +:+ rest →
      digitsOnly digits →
      digits ≠ "" →
      definitionTagLookup !! ("ANY/ANY/" +:+ repo +:+ ":" +:+ tagPart) = None →
      getDefinitionFromTag definitionTagLookup
        (qualify registry registryPath (repo +:+ ":" +:+ tagPart))
        (Some registry) (Some registryPath)
      = Some (Returns (definitionTagLookup !! ("ANY/ANY/" +:+ repo +:+ ":" +:+ rest))).
Proof.
  intros [Hregistry [registryItems HregistryItems]] [Hpath [pathItems HpathItems]]
    Hline Hrepo HtagPart Hcolon.
  assert (getDefinitionFromTag definitionTagLookup
            (qualify registry registryPath (repo +:+ ":" +:+ tagPart))
            (Some registry) (Some registryPath)
          = Some (Returns
              match definitionTagLookup !! ("ANY/ANY/" +:+ repo +:+ ":" +:+ tagPart) with
              | Some definition => Some definition
              | None =>
                  definitionTagLookup
                    !! ("ANY/ANY/" +:+ repo +:+ ":" +:+ JS.stripNumericPrefix tagPart)
              end)) as Hresult.
  { unfold getDefinitionFromTag, tagPattern, patternPart. simpl truthyVariant.
    simpl propertyKey. rewrite Hregistry, Hpath, HregistryItems, HpathItems.
    cbn [mbind option_bind].
    rewrite (exec_matchItems _ _ [repo; tagPart]).
    - by destruct (definitionTagLookup !! ("ANY/ANY/" +:+ repo +:+ ":" +:+ tagPart)).
    - unfold qualify.
      rewrite (matchItems_plainItems _ _ _ _ HregistryItems).
      change ("/" +:+ registryPath +:+ "/" +:+ repo +:+ ":" +:+ tagPart)
        with (String "/" (registryPath +:+ "/" +:+ repo +:+ ":" +:+ tagPart)).
      cbn [app]. rewrite matchItems_char.
      rewrite (matchItems_plainItems _ _ _ _ HpathItems).
      change ("/" +:+ repo +:+ ":" +:+ tagPart)
        with (String "/" (repo +:+ ":" +:+ tagPart)).
      rewrite matchItems_char. by apply matchItems_last_colon. }
  split; [exact Hresult|].
  intros digits rest Hshape Hdigits Hne Hnone.
  rewrite Hresult, Hnone. rewrite Hshape at 1. by rewrite stripNumericPrefix_digits.
Qed.

Lemma getDefinitionFromTag_numeric_prefix_witness :
  getDefinitionFromTag pythonLookup (qualify "r" "p" ("python" +:+ ":" +:+ "1-3"))
    (Some "r") (Some "p")
  = Some (Returns (pythonLookup !! ("ANY/ANY/" +:+ "python" +:+ ":" +:+ "3"))).
Proof.
  destruct (getDefinitionFromTag_numeric_prefix pythonLookup "r" "p" "python" "1-3")
    as [_ H].
  - split; [reflexivity|]. vm_compute. eauto.
  - split; [reflexivity|]. vm_compute. eauto.
  - reflexivity.
  - discriminate.
  - discriminate.
  - reflexivity.
  - apply (H "1" "3"); [reflexivity|reflexivity|discriminate|]. vm_compute. reflexivity.
Defined.

Section LookupEntries.

Variable config : Config.

Lemma recordVersion_generated (definitionId version : string) (variant : option string)
    (settings : BuildSettings) (before after : gmap string DefinitionObject) :
  (definitionId, settings) ∈ definitionBuildSettings config →
  variant ∈ lookupVariants config definitionId →
  version ∈ lookupVersions →
  recordVersion config definitionId version variant before = Returns after →
  generatedEntries config before →
  generatedEntries config after.
Proof.
  intros Hin Hvariant Hversion. unfold recordVersion.
  destruct (getTagsForVersion config definitionId version "ANY" "ANY" variant)
    as [[tagList|]|e] eqn:Htags; cbn [mbind Outcome_bind]; [|done..].
  intros [= <-] Hbefore key definition. rewrite recordTags_lookup.
  destruct (decide (key ∈ tagList)) as [Hkey|Hkey].
  - rewrite bool_decide_eq_true_2 by done. intros [= <-].
    by exists settings, version, tagList.
  - rewrite bool_decide_eq_false_2 by done. apply Hbefore.
Qed.

Lemma recordVersion_has (definitionId version : string) (variant : option string)
    (key : string) (before after : gmap string DefinitionObject) :
  recordVersion config definitionId version variant before = Returns after →
  is_Some (before !! key) →
  is_Some (after !! key).
Proof.
  unfold recordVersion.
  destruct (getTagsForVersion config definitionId version "ANY" "ANY" variant)
    as [[tagList|]|e]; cbn [mbind Outcome_bind]; [|done..].
  intros [= <-] Hbefore. rewrite recordTags_lookup.
  by destruct (bool_decide (key ∈ tagList)).
Qed.

Lemma recordVersion_adds (definitionId version : string) (variant : option string)
    (key : string) (tagList : list string) (before after : gmap string DefinitionObject) :
  getTagsForVersion config definitionId version "ANY" "ANY" variant
    = Returns (Some tagList) →
  key ∈ tagList →
  recordVersion config definitionId version variant before = Returns after →
  is_Some (after !! key).
Proof.
  intros Htags Hkey. unfold recordVersion. rewrite Htags. cbn [mbind Outcome_bind].
  intros [= <-]. rewrite recordTags_lookup. by rewrite bool_decide_eq_true_2.
Qed.

End LookupEntries.

Lemma populateTagLookup_generated (config : Config)
    (definitionTagLookup : gmap string DefinitionObject) :
  populateTagLookup config = Returns definitionTagLookup →
  generatedEntries config definitionTagLookup.
Proof.
  intros Hpopulate. unfold populateTagLookup in Hpopulate.
  refine (forEachOutcome_keeps _ (generatedEntries config) _ _ _ _ Hpopulate _).
  - intros [definitionId settings] before after Hin.
    destruct (tags settings); [|by intros [= <-]].
    intros Hloop.
    refine (forEachOutcome_keeps _ (generatedEntries config) _ _ _ _ Hloop).
    intros variant' before' after' Hvariant'.
    destruct (recordVersion config definitionId "" variant' before')
      as [middle|e] eqn:Hblank; cbn [mbind Outcome_bind]; [|done].
    intros Hdev Hbefore.
    eapply (recordVersion_generated _ _ "dev"); [exact Hin|done|by right; left|done|].
    eapply (recordVersion_generated _ _ ""); [exact Hin|done|by left|done|done].
  - intros k d. by rewrite lookup_empty.
Qed.

(** Every entry of the populated lookup was generated: its key is a tag of
    the empty version or of ['dev'] of its definition, for its variant and
    with ["ANY"/"ANY"]; the definition is in the registry and the variant is
    a placeholder, a declared variant, or none for a definition without
    variants. *)
Theorem populateTagLookup_entries_are_generated (config : Config)
    (definitionTagLookup : gmap string DefinitionObject) (key : string)
    (definition : DefinitionObject) :
  populateTagLookup config = Returns definitionTagLookup →
  definitionTagLookup !! key = Some definition →
  generates config definition key
  ∧ ∃ base, key = "ANY/ANY/" +:+ base ∧ JS.lastChar key ≠ Some ":"%char.
Proof.
  intros Hpopulate Hkey.
  pose proof (populateTagLookup_generated _ _ Hpopulate key definition Hkey) as Hgenerates.
  split; [exact Hgenerates|].
  destruct Hgenerates as (settings & version & tagList & _ & _ & _ & Htags & Hin).
  apply getTagsForVersion_returns in Htags as (s & t & _ & _ & _ & ->).
  apply list_elem_of_fmap in Hin as (base & -> & Hbase).
  exists base. split; [done|].
  apply elem_of_filter_bool in Hbase as [_ Hcolon].
  rewrite lastChar_qualify. unfold JS.endsWithColon in Hcolon.
  destruct (JS.lastChar base) as [c|]; simpl; [|done].
  intros [= ->]. done.
Qed.

Lemma populateTagLookup_entries_are_generated_witness :
  generates pythonConfig (getDefinitionObject "python" None) "ANY/ANY/python:dev-3"
  ∧ ∃ base, "ANY/ANY/python:dev-3" = "ANY/ANY/" +:+ base
            ∧ JS.lastChar "ANY/ANY/python:dev-3" ≠ Some ":"%char.
Proof.
  apply (populateTagLookup_entries_are_generated pythonConfig pythonLookup);
    vm_compute; reflexivity.
Defined.

(** The lookup answers for every tag of the two versions it is populated
    for, with a definition and a variant that generate the tag, which need
    not be those the tag was asked for: for a known definition, a one-line
    tag [R/P/repo:tagPart] of the empty version or of ['dev'], for a variant
    of the lookup, is looked up as a definition and a variant that generate
    [ANY/ANY/repo:tagPart]. *)
Theorem getDefinitionFromTag_finds_a_generator (config : Config)
    (definitionTagLookup : gmap string DefinitionObject)
    (definitionId version registry registryPath : string) (variant : option string)
    (tagList : list string) (tag repo tagPart : string) :
  populateTagLookup config = Returns definitionTagLookup →
  version ∈ lookupVersions →
  variant ∈ lookupVariants config definitionId →
  getTagsForVersion config definitionId version registry registryPath variant
    = Returns (Some tagList) →
  qualify registry registryPath tag ∈ tagList →
  plainText registry →
  plainText registryPath →
  onOneLine tag →
  tag = repo +:+ ":" +:+ tagPart →
  repo ≠ "" →
  ∃ definition,
    getDefinitionFromTag definitionTagLookup (qualify registry registryPath tag)
      (Some registry) (Some registryPath)
    = Some (Returns (Some definition))
    ∧ generates config definition (qualify "ANY" "ANY" tag).
Proof.
  intros Hpopulate Hversion Hvariant Htags Hin Hregistry Hpath Hline Htag Hrepo.
  apply getTagsForVersion_returns in Htags as (settings & templates & Hs & Ht & Hown & ->).
  apply list_elem_of_fmap in Hin as (tag' & Heq & Hbase).
  apply qualify_inj in Heq as <-.
  assert (tagPart ≠ "") as HtagPart.
  { intros ->. apply elem_of_filter_bool in Hbase as [_ Hcolon].
    rewrite Htag in Hcolon. unfold JS.endsWithColon in Hcolon.
    by rewrite lastChar_append in Hcolon. }
  assert (is_Some (definitionTagLookup !! qualify "ANY" "ANY" tag)) as [definition Hlookup].
  { unfold populateTagLookup in Hpopulate.
    refine (forEachOutcome_brings _
              (fun lookup => is_Some (lookup !! qualify "ANY" "ANY" tag))
              _ (definitionId, settings) _ _ _ _ _ Hpopulate).
    - by apply property_elem_of.
    - intros [definitionId' settings'] before after _.
      destruct (tags settings'); [|by intros [= <-]].
      intros Hloop.
      refine (forEachOutcome_keeps _
                (fun lookup => is_Some (lookup !! qualify "ANY" "ANY" tag))
                _ _ _ _ Hloop).
      intros variant' before' after' _.
      destruct (recordVersion config definitionId' "" variant' before')
        as [middle|e] eqn:Hblank; cbn [mbind Outcome_bind]; [|done].
      intros Hdev Hbefore.
      eapply recordVersion_has; [exact Hdev|]. by eapply recordVersion_has.
    - intros before after. rewrite Ht. intros Hloop.
      refine (forEachOutcome_brings _
                (fun lookup => is_Some (lookup !! qualify "ANY" "ANY" tag))
                _ variant _ _ Hvariant _ _ Hloop).
      + intros variant' before' after' _.
        destruct (recordVersion config definitionId "" variant' before')
          as [middle|e] eqn:Hblank; cbn [mbind Outcome_bind]; [|done].
        intros Hdev Hbefore.
        eapply recordVersion_has; [exact Hdev|]. by eapply recordVersion_has.
      + intros before' after'.
        destruct (recordVersion config definitionId "" variant before')
          as [middle|e] eqn:Hblank; cbn [mbind Outcome_bind]; [|done].
        intros Hdev.
        assert (qualify "ANY" "ANY" tag
                ∈ qualify "ANY" "ANY"
                    <$> baseTags config settings templates definitionId version variant)
          as Hany by (apply list_elem_of_fmap; by exists tag).
        unfold lookupVersions in Hversion.
        apply elem_of_cons in Hversion as [->|Hversion].
        * eapply recordVersion_has; [exact Hdev|].
          eapply recordVersion_adds; [|exact Hany|exact Hblank].
          by apply getTagsForVersion_known.
        * apply list_elem_of_singleton in Hversion as ->.
          eapply recordVersion_adds; [|exact Hany|exact Hdev].
          by apply getTagsForVersion_known. }
  exists definition. split.
  - destruct (exec_tagPattern registry registryPath tag repo tagPart
                Hregistry Hpath Hline Htag Hrepo HtagPart)
      as (pattern & repo' & tagPart' & Hpattern & Hexec & Hwhole).
    unfold getDefinitionFromTag. rewrite Hpattern. cbn [mbind option_bind].
    rewrite Hexec.
    replace ("ANY/ANY/" +:+ repo' +:+ ":" +:+ tagPart') with (qualify "ANY" "ANY" tag)
      by (by rewrite <- Hwhole).
    by rewrite Hlookup.
  - by apply (populateTagLookup_generated _ _ Hpopulate).
Qed.

Lemma getDefinitionFromTag_finds_a_generator_witness :
  ∃ definition,
    getDefinitionFromTag sharedLookup (qualify "r" "p" "img:dev") (Some "r") (Some "p")
    = Some (Returns (Some definition))
    ∧ generates sharedConfig definition (qualify "ANY" "ANY" "img:dev").
Proof.
  apply (getDefinitionFromTag_finds_a_generator sharedConfig sharedLookup "img" "dev" "r" "p"
           (Some "a") ["r/p/img:dev"] "img:dev" "img" "dev").
  - vm_compute. reflexivity.
  - right. left.
  - right. right. left.
  - vm_compute. reflexivity.
  - left.
  - split; [reflexivity|]. vm_compute. eauto.
  - split; [reflexivity|]. vm_compute. eauto.
  - reflexivity.
  - reflexivity.
  - discriminate.
Defined.

(** ** More on the planner *)

Lemma existsb_sameItem (item : DefinitionObject) (group : Group) :
  existsb (sameItem item) group = true ↔ item ∈ group.
Proof.
  rewrite existsb_exists. unfold sameItem. split.
  - intros (x & Hx%list_elem_of_In & ->%bool_decide_eq_true). done.
  - intros H. exists item. split; [by apply list_elem_of_In|by apply bool_decide_eq_true].
Qed.

Lemma pushToGroupOf_None (parentItem childItem : DefinitionObject) (groups : list Group) :
  pushToGroupOf parentItem childItem groups = None ↔ ∀ group, group ∈ groups → parentItem ∉ group.
Proof.
  induction groups as [|group groups IH]; cbn [pushToGroupOf].
  - split; [|done]. intros _ group Hgroup. by inversion Hgroup.
  - destruct (existsb (sameItem parentItem) group) eqn:Hparent.
    + split; [done|]. intros Hnone. apply existsb_sameItem in Hparent.
      destruct (Hnone group); [by left|done].
    + assert (parentItem ∉ group) as Hout.
      { intros Hin%existsb_sameItem. congruence. }
      destruct (pushToGroupOf parentItem childItem groups) as [rest|] eqn:Hrest.
      * split; [done|]. intros Hnone.
        assert (Some rest = None) as Himpossible; [|done].
        apply IH. intros g Hg. apply Hnone. by right.
      * split; [|done]. intros _ g [->|Hg]%elem_of_cons; [done|].
        by apply (proj1 IH).
Qed.

(** The child is pushed to the first group that holds the parent. *)
Lemma pushToGroupOf_first (parentItem childItem : DefinitionObject)
    (front : list Group) (group : Group) (back : list Group) :
  parentItem ∈ group →
  (∀ earlier, earlier ∈ front → parentItem ∉ earlier) →
  pushToGroupOf parentItem childItem (front ++ group :: back)
  = Some (front ++ (group ++ [childItem]) :: back).
Proof.
  intros Hin. induction front as [|first front IH]; intros Hfront.
  - cbn [app pushToGroupOf]. apply existsb_sameItem in Hin. by rewrite Hin.
  - cbn [app pushToGroupOf].
    destruct (existsb (sameItem parentItem) first) eqn:Hfirst.
    + apply existsb_sameItem in Hfirst. destruct (Hfront first); [by left|done].
    + rewrite IH; [done|]. intros earlier Hearlier. apply Hfront. by right.
Qed.

(** [addToVariantsList] puts the child at the end of the first group of
    [variantsList] that holds the parent, and leaves the groups before and
    after it as they are; when no group holds the parent, it adds a new last
    group of the parent and the child, in this order. In both cases it adds
    the parent at the end of [skipParentVariants]. *)
Theorem addToVariantsList_groups_child_with_parent (parentItem childItem : DefinitionObject)
    (st : PlannerState) :
  skipParentVariants (addToVariantsList parentItem childItem st).2
  = skipParentVariants st ++ [parentItem]
  ∧ (∀ front group back,
       variantsList st = front ++ group :: back →
       parentItem ∈ group →
       (∀ earlier, earlier ∈ front → parentItem ∉ earlier) →
       variantsList (addToVariantsList parentItem childItem st).2
       = front ++ (group ++ [childItem]) :: back)
  ∧ ((∀ group, group ∈ variantsList st → parentItem ∉ group) →
     variantsList (addToVariantsList parentItem childItem st).2
     = variantsList st ++ [[parentItem; childItem]]).
Proof.
  unfold addToVariantsList. cbn [snd variantsList skipParentVariants].
  split; [done|]. split.
  - intros front group back -> Hin Hfront.
    by rewrite (pushToGroupOf_first _ _ _ _ _ Hin Hfront).
  - intros Hnone. apply (proj2 (pushToGroupOf_None parentItem childItem _)) in Hnone.
    by rewrite Hnone.
Qed.

Lemma addToVariantsList_groups_child_with_parent_witness :
  variantsList
    (addToVariantsList (getDefinitionObject "base" None) (getDefinitionObject "child" None)
       {| variantsList :=
            [[getDefinitionObject "other" None];
             [getDefinitionObject "base" None; getDefinitionObject "first" None];
             [getDefinitionObject "base" None]];
          skipParentVariants := [] |}).2
  = [[getDefinitionObject "other" None];
     [getDefinitionObject "base" None; getDefinitionObject "first" None;
      getDefinitionObject "child" None];
     [getDefinitionObject "base" None]].
Proof.
  destruct (addToVariantsList_groups_child_with_parent
              (getDefinitionObject "base" None) (getDefinitionObject "child" None)
              {| variantsList :=
                   [[getDefinitionObject "other" None];
                    [getDefinitionObject "base" None; getDefinitionObject "first" None];
                    [getDefinitionObject "base" None]];
                 skipParentVariants := [] |}) as (_ & Hfirst & _).
  apply (Hfirst [[getDefinitionObject "other" None]]
           [getDefinitionObject "base" None; getDefinitionObject "first" None]
           [[getDefinitionObject "base" None]]).
  - reflexivity.
  - left.
  - intros earlier Hearlier%list_elem_of_singleton. subst earlier.
    intros Hin%list_elem_of_singleton. discriminate.
Defined.

(** *** Registries without parents *)

Lemma planner_bind (A B : Type) (m : Planner A) (f : A → Planner B) (st st' : PlannerState)
    (a : A) :
  m st = (Returns a, st') → (m ≫= f) st = f a st'.
Proof. intros H. unfold mbind, Planner_bind. by rewrite H. Qed.

(** The state with more groups at the end of [variantsList]. *)
Lemma forEachPlanner_pushes {A : Type} (f : A → Planner unit) (groupsOf : A → list Group)
    (l : list A) (st : PlannerState) :
  (∀ x st, f x st
           = (Returns (),
              {| variantsList := variantsList st ++ groupsOf x;
                 skipParentVariants := skipParentVariants st |})) →
  forEachPlanner f l st
  = (Returns (),
     {| variantsList := variantsList st ++ concat (groupsOf <$> l);
        skipParentVariants := skipParentVariants st |}).
Proof.
  intros Hf. revert st. induction l as [|x l IH]; intros st.
  - simpl. rewrite app_nil_r. by destruct st.
  - cbn [forEachPlanner]. rewrite (planner_bind _ _ _ _ _ _ _ (Hf x st)).
    rewrite IH. simpl. by rewrite app_assoc.
Qed.

Lemma bucketByParent_parentless (config : Config) (definitionsToSkip : list string)
    (settings : list (string * BuildSettings)) (parentBuckets : ParentBuckets)
    (dupeBuckets noParentList : list string) :
  (∀ definitionId buildSettings,
     (definitionId, buildSettings) ∈ settings →
     truthyParent (parent buildSettings) = false) →
  forEachOutcome
    (fun '(parentBuckets, dupeBuckets, noParentList) '(definitionId, settings) =>
       if bool_decide (definitionId ∈ definitionsToSkip)
       then Returns (parentBuckets, dupeBuckets, noParentList)
       else
         let parentId := parent settings in
         if truthyParent parentId then
           let '(parentId, parentBuckets, dupeBuckets) :=
             match parentId with
             | ParentMap variantParentMap =>
                 createMultiParentBucket variantParentMap parentBuckets dupeBuckets
             | ParentId parentId => (Some parentId, parentBuckets, dupeBuckets)
             | NoParent => (None, parentBuckets, dupeBuckets)
             end in
           parentBuckets ← bucketDefinition config definitionId parentId parentBuckets;
           Returns (parentBuckets, dupeBuckets, noParentList)
         else Returns (parentBuckets, dupeBuckets, noParentList ++ [definitionId]))
    settings (parentBuckets, dupeBuckets, noParentList)
  = Returns (parentBuckets, dupeBuckets,
             noParentList
             ++ List.filter
                  (fun definitionId => negb (bool_decide (definitionId ∈ definitionsToSkip)))
                  settings.*1).
Proof.
  revert noParentList. induction settings as [|[definitionId buildSettings] settings IH];
    intros noParentList Hparentless.
  - simpl. by rewrite app_nil_r.
  - cbn [forEachOutcome]. rewrite fmap_cons. cbn [fst List.filter].
    assert (∀ d b, (d, b) ∈ settings → truthyParent (parent b) = false) as Hrest.
    { intros d b Hin. apply (Hparentless d b). by right. }
    destruct (bool_decide (definitionId ∈ definitionsToSkip)); cbn [negb mbind Outcome_bind].
    + by apply IH.
    + rewrite (Hparentless definitionId buildSettings) by by left.
      cbn [mbind Outcome_bind]. rewrite (IH _ Hrest). by rewrite <- app_assoc.
Qed.

(** For a registry in which no definition has a parent, the planning passes
    never throw and add, for every definition that is not skipped and in the
    order of the registry, one group of one item for every variant, or one
    group without variant for a definition with tags and without variants;
    the groups that [variantsList] held stay in front of them. *)
Theorem planGroups_without_parents (config : Config) (definitionsToSkip : list string)
    (st : PlannerState) :
  (∀ definitionId settings,
     (definitionId, settings) ∈ definitionBuildSettings config →
     truthyParent (parent settings) = false) →
  planGroups config definitionsToSkip st
  = (Returns (),
     {| variantsList :=
          variantsList st ++ concat (ownGroups config <$> keptIds config definitionsToSkip);
        skipParentVariants := skipParentVariants st |}).
Proof.
  intros Hparentless. unfold planGroups, bucketByParent.
  rewrite (bucketByParent_parentless _ _ _ _ _ _ Hparentless).
  cbn [pruneBuckets bucketRefs fold_left app clubBuckets].
  change (mret () ≫= _) with
    (addNoParentList config (keptIds config definitionsToSkip)).
  unfold addNoParentList. apply forEachPlanner_pushes.
  intros definitionId st'. unfold ownGroups.
  destruct (definitionVariants config !! definitionId) as [variants|].
  - rewrite (forEachPlanner_pushes
               (fun variant => pushGroup [getDefinitionObject definitionId (Some variant)])
               (fun variant => [[getDefinitionObject definitionId (Some variant)]]))
      by done.
    assert (∀ variants : list string,
              concat ((fun variant => [[getDefinitionObject definitionId (Some variant)]])
                      <$> variants)
              = (fun variant => [getDefinitionObject definitionId (Some variant)])
                <$> variants) as Hconcat.
    { intros l. induction l as [|variant l IH]; [done|].
      rewrite !fmap_cons. cbn [concat app]. by rewrite IH. }
    by rewrite Hconcat.
  - destruct (buildSettings config definitionId ≫= tags); [done|].
    simpl. rewrite app_nil_r. by destruct st'.
Qed.

Lemma planGroups_without_parents_witness :
  planGroups loneConfig [] initialState
  = (Returns (),
     {| variantsList :=
          variantsList initialState ++ concat (ownGroups loneConfig <$> keptIds loneConfig []);
        skipParentVariants := skipParentVariants initialState |}).
Proof.
  apply (planGroups_without_parents loneConfig [] initialState).
  intros definitionId settings Hin. apply list_elem_of_singleton in Hin.
  by injection Hin as -> ->.
Defined.

(** *** The page that is returned *)

Lemma paginate_length (pageTotal : Z) (groups pages : list Group) :
  (0 < pageTotal)%Z →
  paginate pageTotal groups = Returns pages →
  length pages = Z.to_nat pageTotal.
Proof.
  intros Hpositive. unfold paginate.
  destruct (bool_decide (pageTotal < Z.of_nat (length groups))%Z) eqn:Hmore.
  - apply bool_decide_eq_true in Hmore.
    rewrite bool_decide_eq_false_2 by lia. intros [= <-].
    rewrite foldExcessPages_closed by lia.
    rewrite length_app, length_take. simpl. lia.
  - apply bool_decide_eq_false in Hmore.
    destruct (bool_decide (Z.of_nat (length groups) < pageTotal)%Z) eqn:Hfewer.
    + apply bool_decide_eq_true in Hfewer. intros [= <-].
      unfold padPages. rewrite length_app, length_replicate. lia.
    + apply bool_decide_eq_false in Hfewer. intros [= <-]. lia.
Qed.

Lemma orOne_positive (x : Z) : (0 ≤ x)%Z → (0 < orOne x)%Z.
Proof. unfold orOne. case_bool_decide; lia. Qed.

(** When [getSortedDefinitionBuildList] returns, for a page total that is not
    negative (an omitted or zero page total counting as one, like an omitted
    or zero page), [variantsList] is left with exactly as many pages as the
    page total, and the result is a page (not [undefined]) exactly when the
    page number is between one and the page total. *)
Theorem getSortedDefinitionBuildList_page_bounds (config : Config) (page pageTotal : Z)
    (definitionsToSkip : list string) (st st' : PlannerState) (result : option Group) :
  (0 ≤ pageTotal)%Z →
  getSortedDefinitionBuildList config page pageTotal definitionsToSkip st
  = (Returns result, st') →
  length (variantsList st') = Z.to_nat (orOne pageTotal)
  ∧ (is_Some result ↔ (1 ≤ orOne page ≤ orOne pageTotal)%Z).
Proof.
  intros Htotal%orOne_positive. unfold getSortedDefinitionBuildList.
  unfold mbind, Planner_bind.
  destruct (planGroups config definitionsToSkip st) as [[[]|e] planned]; [|done].
  unfold paginateVariantsList.
  destruct (paginate (orOne pageTotal) (variantsList planned)) as [pages|e] eqn:Hpages;
    [|done].
  intros [= <- <-]. apply (paginate_length _ _ _ Htotal) in Hpages.
  split; [done|]. unfold pageAt. case_bool_decide as Hpage.
  - split; [by intros [? ?]|lia].
  - rewrite lookup_lt_is_Some. lia.
Qed.

Lemma getSortedDefinitionBuildList_page_bounds_witness :
  length (variantsList (getSortedDefinitionBuildList familyConfig 2 3 [] initialState).2)
  = Z.to_nat (orOne 3)
  ∧ (is_Some (pageAt 2 (variantsList
                          (getSortedDefinitionBuildList familyConfig 2 3 [] initialState).2))
     ↔ (1 ≤ orOne 2 ≤ orOne 3)%Z).
Proof.
  apply (getSortedDefinitionBuildList_page_bounds familyConfig 2 3 [] initialState).
  - lia.
  - vm_compute. reflexivity.
Defined.

(** ** Parent tags *)

Lemma getParentTagForVersion_single_parent (config : Config) (parentVariant : ParentVariant)
    (settings : BuildSettings) (definitionId parentId version registry registryPath : string)
    (variant : option string) :
  buildSettings config definitionId = Some settings →
  parent settings = ParentId parentId →
  parentId ≠ "" →
  getParentTagForVersion config parentVariant definitionId version registry registryPath
    variant
  = parentVariant ←
      match getVariants config parentId with
      | Some parentVariantList =>
          parentVariant ← resolveParentVariant parentVariant (Some parentId) variant;
          parentVariantId ← variantIdForParent settings variant;
          if includesOption parentVariantList parentVariantId
          then Returns parentVariant
          else Throws (ThrownString
                         (noParentVariantMessage parentVariantId (Some parentId)
                            parentVariantList))
      | None => Returns None
      end;
    firstParentTag config parentId version registry registryPath parentVariant.
Proof.
  intros Hsettings Hparent Hne. unfold getParentTagForVersion.
  rewrite Hsettings, Hparent.
  cbn [truthyParent mbind Outcome_bind propertyKey default getTagsForParent].
  by destruct parentId.
Qed.

(** For a definition whose parent is a definition without variants, the
    parent tag is the first tag of the parent for the version that the
    release has for the parent, with the first template of the parent and no
    variant: it depends neither on the variant that is passed nor on the
    [parentVariant] of the build settings, and no variant is rejected. *)
Theorem getParentTagForVersion_parent_without_variants (config : Config)
    (parentVariant : ParentVariant) (settings : BuildSettings)
    (definitionId parentId version registry registryPath : string) (variant : option string) :
  buildSettings config definitionId = Some settings →
  parent settings = ParentId parentId →
  parentId ≠ "" →
  getVariants config parentId = None →
  getParentTagForVersion config parentVariant definitionId version registry registryPath
    variant
  = firstParentTag config parentId version registry registryPath None.
Proof.
  intros Hsettings Hparent Hne Hvariants.
  rewrite (getParentTagForVersion_single_parent _ _ _ _ _ _ _ _ _ Hsettings Hparent Hne).
  by rewrite Hvariants.
Qed.

Lemma getParentTagForVersion_parent_without_variants_witness :
  getParentTagForVersion plainParentConfig (ParentVariantName "other") "child" "v1.0.0" "r" "p"
    (Some "slim")
  = firstParentTag plainParentConfig "base" "v1.0.0" "r" "p" None.
Proof.
  apply (getParentTagForVersion_parent_without_variants plainParentConfig
           (ParentVariantName "other")
           {| tags := Some ["child:${VERSION}-${VARIANT}"]; parent := ParentId "base";
              variantTags := None; versionedTagsOnly := false; latest := LatestAbsent;
              idMismatch := None |});
    [reflexivity | reflexivity | discriminate | reflexivity].
Defined.

(** For a definition whose parent is a definition with variants, it is the
    variant of the child (its second part for a definition with
    [idMismatch]) that has to be a variant of the parent, whatever the
    [parentVariant] of the build settings: the function throws its message
    when it is not one; when it is one, a [parentVariant] name of the build
    settings is the variant of the parent tag, and is not looked for among
    the variants of the parent. *)
Theorem getParentTagForVersion_validates_child_variant (config : Config)
    (settings : BuildSettings) (definitionId parentId version registry registryPath : string)
    (variant : string) (parentVariantList : list string) :
  buildSettings config definitionId = Some settings →
  parent settings = ParentId parentId →
  parentId ≠ "" →
  getVariants config parentId = Some parentVariantList →
  (parentVariantId settings variant ∉ parentVariantList →
   ∀ parentVariant,
     getParentTagForVersion config parentVariant definitionId version registry registryPath
       (Some variant)
     = Throws (ThrownString
                 ("Unable to determine variant for parent. Variant "
                  +:+ parentVariantId settings variant +:+ " is not in " +:+ parentId
                  +:+ " list: " +:+ String.concat "," parentVariantList)))
  ∧ (parentVariantId settings variant ∈ parentVariantList →
     getParentTagForVersion config NoParentVariant definitionId version registry registryPath
       (Some variant)
     = firstParentTag config parentId version registry registryPath (Some variant)
     ∧ ∀ parentVariant,
         parentVariant ≠ "" →
         getParentTagForVersion config (ParentVariantName parentVariant) definitionId version
           registry registryPath (Some variant)
         = firstParentTag config parentId version registry registryPath (Some parentVariant)).
Proof.
  intros Hsettings Hparent Hne Hvariants. split.
  - intros Hout parentVariant.
    rewrite (getParentTagForVersion_single_parent _ _ _ _ _ _ _ _ _ Hsettings Hparent Hne).
    rewrite Hvariants.
    assert (∃ resolved,
              resolveParentVariant parentVariant (Some parentId) (Some variant)
              = Returns resolved) as [resolved ->].
    { destruct parentVariant as [|name|variantMap]; simpl; [eauto| |].
      - destruct (JS.truthy name); eauto.
      - destruct (JS.truthy variant); eauto. }
    cbn [mbind Outcome_bind variantIdForParent includesOption].
    by rewrite bool_decide_eq_false_2.
  - intros Hin. split; [|intros parentVariant HparentVariant].
    + rewrite (getParentTagForVersion_single_parent _ _ _ _ _ _ _ _ _ Hsettings Hparent Hne).
      rewrite Hvariants.
      cbn [resolveParentVariant mbind Outcome_bind variantIdForParent includesOption].
      by rewrite bool_decide_eq_true_2.
    + rewrite (getParentTagForVersion_single_parent _ _ _ _ _ _ _ _ _ Hsettings Hparent Hne).
      rewrite Hvariants. cbn [resolveParentVariant].
      destruct parentVariant; [done|].
      cbn [JS.truthy mbind Outcome_bind variantIdForParent includesOption].
      by rewrite bool_decide_eq_true_2.
Qed.

Lemma getParentTagForVersion_validates_child_variant_witness :
  getParentTagForVersion familyConfig (ParentVariantName "stretch") "child" "main" "r" "p"
    (Some "buster")
  = Throws (ThrownString
              "Unable to determine variant for parent. Variant buster is not in base list: stretch").
Proof.
  destruct (getParentTagForVersion_validates_child_variant familyConfig
              {| tags := Some ["child:${VERSION}-${VARIANT}"]; parent := ParentId "base";
                 variantTags := None; versionedTagsOnly := false; latest := LatestAbsent;
                 idMismatch := None |}
              "child" "base" "main" "r" "p" "buster" ["stretch"]) as [Hrejected _];
    [reflexivity | reflexivity | discriminate | reflexivity |].
  apply (Hrejected ltac:(apply not_elem_of_cons; split; [discriminate|apply not_elem_of_nil])
           (ParentVariantName "stretch")).
Defined.

(** For a definition with a multi-parent [parent], the parent is the one of
    the variant that is passed, or the one of the first entry when no variant
    is passed; for a parent without variants the parent tag is its first tag.
    A variant without entry gives no parent, and the function throws a
    [TypeError] (when no definition has the name [undefined]). *)
Theorem getParentTagForVersion_multi_parent (config : Config) (parentVariant : ParentVariant)
    (settings : BuildSettings) (variantParentMap : list (string * string))
    (definitionId version registry registryPath : string) :
  buildSettings config definitionId = Some settings →
  parent settings = ParentMap variantParentMap →
  (∀ variant parentId,
     variant ≠ "" →
     property variant variantParentMap = Some parentId →
     getVariants config parentId = None →
     getParentTagForVersion config parentVariant definitionId version registry registryPath
       (Some variant)
     = firstParentTag config parentId version registry registryPath None)
  ∧ (∀ firstVariant parentId others,
       variantParentMap = (firstVariant, parentId) :: others →
       getVariants config parentId = None →
       getParentTagForVersion config parentVariant definitionId version registry registryPath
         None
       = firstParentTag config parentId version registry registryPath None)
  ∧ (∀ variant,
       variant ≠ "" →
       property variant variantParentMap = None →
       buildSettings config "undefined" = None →
       getVariants config "undefined" = None →
       getParentTagForVersion config parentVariant definitionId version registry registryPath
         (Some variant)
       = Throws TypeError).
Proof.
  intros Hsettings Hparent. unfold getParentTagForVersion.
  rewrite Hsettings, Hparent. cbn [truthyParent]. split; [|split].
  - intros variant parentId Hne Hentry Hvariants. unfold parentOfVariant.
    destruct variant; [done|]. cbn [truthyVariant JS.truthy propertyKey].
    rewrite Hentry. cbn [mbind Outcome_bind propertyKey]. rewrite Hvariants. done.
  - intros firstVariant parentId others -> Hvariants. unfold parentOfVariant.
    cbn [truthyVariant property]. rewrite String.eqb_refl.
    cbn [mbind Outcome_bind propertyKey]. rewrite Hvariants. done.
  - intros variant Hne Hentry Hundefined Hvariants. unfold parentOfVariant.
    destruct variant; [done|]. cbn [truthyVariant JS.truthy propertyKey].
    rewrite Hentry. destruct (inheritedName _); [done|].
    cbn [mbind Outcome_bind propertyKey]. rewrite Hvariants.
    cbn [mbind Outcome_bind getTagsForParent]. by rewrite Hundefined.
Qed.

Lemma getParentTagForVersion_multi_parent_witness :
  getParentTagForVersion multiParentConfig NoParentVariant "cpp" "main" "r" "p" (Some "focal")
  = firstParentTag multiParentConfig "ubuntu" "main" "r" "p" None
  ∧ getParentTagForVersion multiParentConfig NoParentVariant "cpp" "main" "r" "p" None
    = firstParentTag multiParentConfig "debian" "main" "r" "p" None
  ∧ getParentTagForVersion multiParentConfig NoParentVariant "cpp" "main" "r" "p"
      (Some "jammy")
    = Throws TypeError.
Proof.
  destruct (getParentTagForVersion_multi_parent multiParentConfig NoParentVariant
              multiParentSettings [("buster", "debian"); ("focal", "ubuntu")]
              "cpp" "main" "r" "p") as (Hvariant & Hfirst & Hmissing);
    [reflexivity | reflexivity |].
  split; [|split].
  - apply Hvariant; [discriminate | reflexivity | reflexivity].
  - apply (Hfirst "buster" "debian" [("focal", "ubuntu")]); reflexivity.
  - apply Hmissing; [discriminate | reflexivity | reflexivity | reflexivity].
Defined.

(** ** Updated tags *)

Lemma plainItems_length (source : string) (items : list JS.RegexItem) :
  JS.plainItems source = Some items → length items = String.length source.
Proof.
  revert items. induction source as [|c source IH]; intros items.
  - by intros [= <-].
  - cbn [JS.plainItems]. destruct (JS.isRegexSyntax c); [done|].
    destruct (JS.plainItems source) as [items'|]; [|done].
    intros [= <-]. simpl. by rewrite (IH items').
Qed.

Lemma plainItems_append (a b : string) (itemsA itemsB : list JS.RegexItem) :
  JS.plainItems a = Some itemsA →
  JS.plainItems b = Some itemsB →
  JS.plainItems (a +:+ b) = Some (itemsA ++ itemsB).
Proof.
  revert itemsA. induction a as [|c a IH]; intros itemsA.
  - by intros [= <-].
  - change (String c a +:+ b) with (String c (a +:+ b)). cbn [JS.plainItems].
    destruct (JS.isRegexSyntax c); [done|].
    destruct (JS.plainItems a) as [items'|]; [|done].
    intros [= <-] Hb. by rewrite (IH items' eq_refl Hb).
Qed.

Lemma plainItems_no_dollar (source : string) (items : list JS.RegexItem) :
  JS.plainItems source = Some items → JS.includesChar "$" source = false.
Proof.
  revert items. induction source as [|c source IH]; intros items; [done|].
  cbn [JS.plainItems JS.includesChar].
  destruct (JS.isRegexSyntax c) eqn:Hsyntax; [done|].
  destruct (JS.plainItems source) as [items'|]; [|done]. intros _.
  rewrite (IH items' eq_refl), orb_false_r.
  destruct (Ascii.eqb_spec "$" c) as [<-|]; [done|done].
Qed.

Lemma includesChar_append (c : ascii) (a b : string) :
  JS.includesChar c (a +:+ b) = JS.includesChar c a || JS.includesChar c b.
Proof.
  induction a as [|d a IH]; [done|].
  change (String d a +:+ b) with (String d (a +:+ b)). cbn [JS.includesChar].
  by rewrite IH, orb_assoc.
Qed.

(** The items of a text match the text, and nothing more. *)
Lemma matchFixed_plainItems (source : string) (items : list JS.RegexItem) (s : string) :
  JS.plainItems source = Some items →
  matchFixed items (source +:+ s) = Some (source, s).
Proof.
  intros Hitems. unfold matchFixed.
  rewrite <- (app_nil_r items) at 1.
  rewrite (matchItems_plainItems _ _ _ _ Hitems). cbn [JS.matchItems].
  rewrite (plainItems_length _ _ Hitems).
  by rewrite take_append_length, drop_append_length.
Qed.

(** A replacement string without [$] stands for itself. *)
Lemma getSubstitutionWithGroup_plain (matched before after : string) (group : option string)
    (replacement : string) :
  JS.includesChar "$" replacement = false →
  getSubstitutionWithGroup matched before after group replacement = replacement.
Proof.
  induction replacement as [|c r IH]; [done|].
  cbn [JS.includesChar getSubstitutionWithGroup].
  intros [Hc Hr]%orb_false_iff. rewrite Ascii.eqb_sym, Hc. by rewrite IH.
Qed.

Lemma searchGroup_here (m : GroupMatcher) (s matched after : string) (group : option string) :
  m s = Some (matched, group, after) →
  searchGroup m s = Some ("", matched, group, after).
Proof. intros H. destruct s; simpl; by rewrite H. Qed.

(** [(.+):] takes a text [repo:rest] on one line up to its last [:]. *)
Lemma matchItems_repository (repo rest : string) :
  onOneLine (repo +:+ ":" +:+ rest) →
  repo ≠ "" →
  JS.includesChar ":" rest = false →
  JS.matchItems [JS.RGroupDotPlus; JS.RChar ":"] (repo +:+ ":" +:+ rest) = Some [repo].
Proof.
  intros Hline Hrepo Hcolon. rewrite matchItems_group.
  rewrite <- (take_append_length repo (":" +:+ rest)) at 3.
  apply tryLengths_longest.
  - rewrite Hline, length_append. destruct repo; [done|]. simpl. lia.
  - intros j Hj. rewrite drop_append_more by lia.
    destruct (j - String.length repo) as [|m] eqn:Hm; [lia|].
    change (JS.drop (S m) (":" +:+ rest)) with (JS.drop m rest).
    apply matchItems_colon_none. by apply includesChar_drop_false.
  - rewrite drop_append_length.
    change (":" +:+ rest) with (String ":" rest).
    by rewrite matchItems_char.
Qed.

(** The items of the text [dev-] match the texts that start with it. *)
Lemma matchFixed_dev_None (s : string) :
  JS.stripPrefix "dev-" s = None →
  matchFixed [JS.RChar "d"; JS.RChar "e"; JS.RChar "v"; JS.RChar "-"] s = None.
Proof.
  unfold matchFixed.
  destruct s as [|c0 [|c1 [|c2 [|c3 s]]]]; cbn [JS.stripPrefix JS.matchItems];
    repeat match goal with
           | |- context [Ascii.eqb ?a ?b] => destruct (Ascii.eqb a b)
           end; done.
Qed.

Lemma matchFixed_no_char (items : list JS.RegexItem) (s : string) (c : ascii) :
  JS.RChar c ∈ items → JS.includesChar c s = false → matchFixed items s = None.
Proof.
  intros Hin Hs. unfold matchFixed.
  destruct (JS.matchItems items s) as [groups|] eqn:Hmatch; [|done].
  apply (matchItems_has_char _ _ _ c) in Hmatch; [congruence|done].
Qed.

(** The pattern of [updateByPattern] at the start of a tag
    [R/P/repo:rest]: the prefix [R/P/repo:] is matched, and the group takes
    what [group] says of [rest]. *)
Lemma updateByPattern_at_prefix (registry registryPath repo rest updatedVersion : string)
    (updatedRegistry updatedRegistryPath : option string)
    (versionItems : list JS.RegexItem) :
  plainText registry →
  plainText registryPath →
  is_Some (JS.plainItems repo) →
  JS.plainItems updatedVersion = Some versionItems →
  onOneLine (repo +:+ ":" +:+ rest) →
  repo ≠ "" →
  JS.includesChar ":" rest = false →
  ∃ prefixItems,
    JS.plainItems (registry +:+ "/" +:+ registryPath +:+ "/" +:+ repo +:+ ":")
      = Some prefixItems
    ∧ updateByPattern (qualify registry registryPath (repo +:+ ":" +:+ rest))
        (Some registry) (Some registryPath) updatedVersion updatedRegistry updatedRegistryPath
      = Some (Returns
                (replaceGroup (optionalVersionPrefix prefixItems versionItems)
                   (propertyKey updatedRegistry +:+ "/" +:+ propertyKey updatedRegistryPath
                    +:+ "/" +:+ repo +:+ ":" +:+ updatedVersion +:+ "-")
                   (qualify registry registryPath (repo +:+ ":" +:+ rest)))).
Proof.
  intros [_ [registryItems Hregistry]] [_ [pathItems Hpath]] [repoItems Hrepo] Hversion
    Hline Hne Hcolon.
  exists (registryItems ++ [JS.RChar "/"] ++ pathItems ++ [JS.RChar "/"] ++ repoItems
          ++ [JS.RChar ":"]).
  split.
  - repeat (apply plainItems_append; [done|]).
    repeat first [apply (plainItems_append "/" _ [JS.RChar "/"]); [done|]
                 |apply plainItems_append; [done|]].
    done.
  - unfold updateByPattern, repositoryPattern, updatedTagPattern. cbn [propertyKey].
    rewrite Hregistry, Hpath. cbn [mbind option_bind].
    rewrite (exec_matchItems _ _ [repo]).
    + by rewrite Hrepo, Hversion.
    + unfold qualify. rewrite (matchItems_plainItems _ _ _ _ Hregistry).
      change ("/" +:+ registryPath +:+ "/" +:+ repo +:+ ":" +:+ rest)
        with (String "/" (registryPath +:+ "/" +:+ repo +:+ ":" +:+ rest)).
      cbn [app]. rewrite matchItems_char.
      rewrite (matchItems_plainItems _ _ _ _ Hpath).
      change ("/" +:+ repo +:+ ":" +:+ rest) with (String "/" (repo +:+ ":" +:+ rest)).
      rewrite matchItems_char. by apply matchItems_repository.
Qed.

(** The replacement at a prefix that is matched at the start of the text:
    the prefix and what the group takes are replaced. *)
Lemma replaceGroup_at_prefix (prefixText rest replacement : string)
    (prefixItems versionItems : list JS.RegexItem) :
  JS.plainItems prefixText = Some prefixItems →
  JS.includesChar "$" replacement = false →
  replaceGroup (optionalVersionPrefix prefixItems versionItems) replacement
    (prefixText +:+ rest)
  = replacement
    +:+ match matchFixed [JS.RChar "d"; JS.RChar "e"; JS.RChar "v"; JS.RChar "-"] rest with
        | Some (_, after) => after
        | None =>
            match matchFixed (versionItems ++ [JS.RChar "-"]) rest with
            | Some (_, after) => after
            | None => rest
            end
        end.
Proof.
  intros Hprefix Hdollar. unfold replaceGroup.
  assert (∃ matched group,
            optionalVersionPrefix prefixItems versionItems (prefixText +:+ rest)
            = Some (matched, group,
                    match matchFixed [JS.RChar "d"; JS.RChar "e"; JS.RChar "v"; JS.RChar "-"]
                            rest with
                    | Some (_, after) => after
                    | None =>
                        match matchFixed (versionItems ++ [JS.RChar "-"]) rest with
                        | Some (_, after) => after
                        | None => rest
                        end
                    end)) as (matched & group & Hmatch).
  { unfold optionalVersionPrefix. rewrite (matchFixed_plainItems _ _ _ Hprefix).
    destruct (matchFixed [JS.RChar "d"; JS.RChar "e"; JS.RChar "v"; JS.RChar "-"] rest)
      as [[g after]|]; [eauto|].
    destruct (matchFixed (versionItems ++ [JS.RChar "-"]) rest) as [[g after]|]; eauto. }
  rewrite (searchGroup_here _ _ _ _ _ Hmatch).
  by rewrite getSubstitutionWithGroup_plain.
Qed.

(** A tag [R/P/repo:rest] that the lookup does not hold is updated by the
    regular expression: the registry and the registry path become the
    updated ones, and the version and a dash come after the [:], in the
    place of a prefix [dev-] or of the version and a dash when [rest] starts
    with one of them (a tag that has the version is not given it twice), and
    in front of a [rest] without dash. *)
Theorem getUpdatedTag_rewrites_unknown_tag (config : Config)
    (definitionTagLookup : gmap string DefinitionObject)
    (registry registryPath repo rest updatedVersion : string)
    (updatedRegistry updatedRegistryPath variant : option string) :
  plainText registry →
  plainText registryPath →
  is_Some (JS.plainItems repo) →
  is_Some (JS.plainItems updatedVersion) →
  onOneLine (repo +:+ ":" +:+ rest) →
  repo ≠ "" →
  JS.includesChar ":" rest = false →
  JS.includesChar "$" (propertyKey (orElse updatedRegistry (Some registry))) = false →
  JS.includesChar "$" (propertyKey (orElse updatedRegistryPath (Some registryPath))) = false →
  getDefinitionFromTag definitionTagLookup
    (qualify registry registryPath (repo +:+ ":" +:+ rest)) (Some registry) (Some registryPath)
  = Some (Returns None) →
  (∀ tail,
     rest = "dev-" +:+ tail →
     getUpdatedTag config definitionTagLookup
       (qualify registry registryPath (repo +:+ ":" +:+ rest)) (Some registry)
       (Some registryPath) updatedVersion updatedRegistry updatedRegistryPath variant
     = Some (Returns
               (qualify (propertyKey (orElse updatedRegistry (Some registry)))
                  (propertyKey (orElse updatedRegistryPath (Some registryPath)))
                  (repo +:+ ":" +:+ updatedVersion +:+ "-" +:+ tail))))
  ∧ (∀ tail,
       rest = updatedVersion +:+ "-" +:+ tail →
       JS.stripPrefix "dev-" rest = None →
       getUpdatedTag config definitionTagLookup
         (qualify registry registryPath (repo +:+ ":" +:+ rest)) (Some registry)
         (Some registryPath) updatedVersion updatedRegistry updatedRegistryPath variant
       = Some (Returns
                 (qualify (propertyKey (orElse updatedRegistry (Some registry)))
                    (propertyKey (orElse updatedRegistryPath (Some registryPath)))
                    (repo +:+ ":" +:+ rest))))
  ∧ (JS.includesChar "-" rest = false →
     getUpdatedTag config definitionTagLookup
       (qualify registry registryPath (repo +:+ ":" +:+ rest)) (Some registry)
       (Some registryPath) updatedVersion updatedRegistry updatedRegistryPath variant
     = Some (Returns
               (qualify (propertyKey (orElse updatedRegistry (Some registry)))
                  (propertyKey (orElse updatedRegistryPath (Some registryPath)))
                  (repo +:+ ":" +:+ updatedVersion +:+ "-" +:+ rest)))).
Proof.
  intros Hregistry Hpath Hrepo [versionItems Hversion] Hline Hne Hcolon HdollarR HdollarP
    Hlookup.
  destruct (updateByPattern_at_prefix registry registryPath repo rest updatedVersion
              (orElse updatedRegistry (Some registry))
              (orElse updatedRegistryPath (Some registryPath)) versionItems
              Hregistry Hpath Hrepo Hversion Hline Hne Hcolon)
    as (prefixItems & Hprefix & Hupdate).
  assert (getUpdatedTag config definitionTagLookup
            (qualify registry registryPath (repo +:+ ":" +:+ rest)) (Some registry)
            (Some registryPath) updatedVersion updatedRegistry updatedRegistryPath variant
          = Some (Returns
                    ((propertyKey (orElse updatedRegistry (Some registry)) +:+ "/"
                      +:+ propertyKey (orElse updatedRegistryPath (Some registryPath))
                      +:+ "/" +:+ repo +:+ ":" +:+ updatedVersion +:+ "-")
                     +:+ match matchFixed
                                 [JS.RChar "d"; JS.RChar "e"; JS.RChar "v"; JS.RChar "-"]
                                 rest with
                         | Some (_, after) => after
                         | None =>
                             match matchFixed (versionItems ++ [JS.RChar "-"]) rest with
                             | Some (_, after) => after
                             | None => rest
                             end
                         end))) as Hresult.
  { unfold getUpdatedTag. rewrite Hlookup. cbn [mbind option_bind].
    rewrite Hupdate. do 2 f_equal.
    replace (qualify registry registryPath (repo +:+ ":" +:+ rest))
      with ((registry +:+ "/" +:+ registryPath +:+ "/" +:+ repo +:+ ":") +:+ rest)
      by (unfold qualify; by rewrite !append_assoc).
    apply (replaceGroup_at_prefix _ _ _ _ _ Hprefix).
    destruct Hrepo as [repoItems Hrepo].
    rewrite !includesChar_append, HdollarR, HdollarP.
    rewrite (plainItems_no_dollar _ _ Hrepo), (plainItems_no_dollar _ _ Hversion). done. }
  rewrite Hresult. unfold qualify. split; [|split].
  - intros tail ->.
    rewrite (matchFixed_plainItems "dev-"
               [JS.RChar "d"; JS.RChar "e"; JS.RChar "v"; JS.RChar "-"] tail eq_refl).
    by rewrite !append_assoc.
  - intros tail Hrest Hdev. rewrite (matchFixed_dev_None _ Hdev).
    rewrite Hrest at 1.
    rewrite <- (append_assoc updatedVersion "-" tail).
    rewrite (matchFixed_plainItems (updatedVersion +:+ "-") _ tail
               (plainItems_append _ "-" _ [JS.RChar "-"] Hversion eq_refl)).
    rewrite Hrest. by rewrite !append_assoc.
  - intros Hdash.
    rewrite (matchFixed_no_char _ rest "-") by (try done; set_unfold; tauto).
    rewrite (matchFixed_no_char _ rest "-"); [|set_unfold; tauto|done].
    by rewrite !append_assoc.
Qed.

Lemma getUpdatedTag_rewrites_unknown_tag_witness :
  getUpdatedTag pythonConfig pythonLookup (qualify "r" "p" ("python" +:+ ":" +:+ "1.2.3-3"))
    (Some "r") (Some "p") "1.2.3" (Some "mcr") None None
  = Some (Returns (qualify "mcr" "p" ("python" +:+ ":" +:+ "1.2.3-3"))).
Proof.
  destruct (getUpdatedTag_rewrites_unknown_tag pythonConfig pythonLookup "r" "p" "python"
              "1.2.3-3" "1.2.3" (Some "mcr") None None) as (_ & Hversion & _).
  - split; [reflexivity|]. vm_compute. eauto.
  - split; [reflexivity|]. vm_compute. eauto.
  - vm_compute. eauto.
  - vm_compute. eauto.
  - reflexivity.
  - discriminate.
  - reflexivity.
  - reflexivity.
  - reflexivity.
  - vm_compute. reflexivity.
  - apply (Hversion "3"); reflexivity.
Defined.

(** A tag of the lookup is updated to the first tag of its definition: for a
    known definition and a one-line tag [R/P/repo:tagPart] of the empty
    version or of ['dev'], for a variant of the lookup, that no other
    definition and variant generate, the updated tag is the first tag that
    the definition has for the updated version, the variant and the updated
    registry, whichever template the tag comes from; it is the tag itself
    when the definition has no tag for the updated version. *)
Theorem getUpdatedTag_first_tag_of_definition (config : Config)
    (definitionTagLookup : gmap string DefinitionObject)
    (definitionId version registry registryPath updatedVersion : string)
    (updatedRegistry updatedRegistryPath variant : option string)
    (tagList : list string) (tag repo tagPart : string) :
  populateTagLookup config = Returns definitionTagLookup →
  version ∈ lookupVersions →
  variant ∈ lookupVariants config definitionId →
  getTagsForVersion config definitionId version registry registryPath variant
    = Returns (Some tagList) →
  qualify registry registryPath tag ∈ tagList →
  plainText registry →
  plainText registryPath →
  onOneLine tag →
  tag = repo +:+ ":" +:+ tagPart →
  repo ≠ "" →
  soleOwner config (qualify "ANY" "ANY" tag) (getDefinitionObject definitionId variant) →
  ∃ updatedTags,
    getTagsForVersion config definitionId updatedVersion
      (propertyKey (orElse updatedRegistry (Some registry)))
      (propertyKey (orElse updatedRegistryPath (Some registryPath))) variant
    = Returns (Some updatedTags)
    ∧ getUpdatedTag config definitionTagLookup (qualify registry registryPath tag)
        (Some registry) (Some registryPath) updatedVersion updatedRegistry updatedRegistryPath
        None
      = Some (Returns (default (qualify registry registryPath tag) (head updatedTags))).
Proof.
  intros Hpopulate Hversion Hvariant Htags Hin Hregistry Hpath Hline Htag Hrepo Hsole.
  apply getTagsForVersion_returns in Htags as (settings & templates & Hs & Ht & Hown & ->).
  apply list_elem_of_fmap in Hin as (tag' & Heq & Hbase).
  apply qualify_inj in Heq as <-.
  assert (tagPart ≠ "") as HtagPart.
  { intros ->. apply elem_of_filter_bool in Hbase as [_ Hcolon].
    rewrite Htag in Hcolon. unfold JS.endsWithColon in Hcolon.
    by rewrite lastChar_append in Hcolon. }
  assert (definitionTagLookup !! qualify "ANY" "ANY" tag
          = Some (getDefinitionObject definitionId variant)) as Hlookup.
  { apply (populateTagLookup_owner config _ _ Hsole definitionTagLookup definitionId
             version variant settings _ Hpopulate Hs Hvariant Hversion
             (getTagsForVersion_known _ _ _ _ _ "ANY" "ANY" _ Hs Ht Hown)); [|done].
    apply list_elem_of_fmap. by exists tag. }
  destruct (exec_tagPattern registry registryPath tag repo tagPart
              Hregistry Hpath Hline Htag Hrepo HtagPart)
    as (pattern & repo' & tagPart' & Hpattern & Hexec & Hwhole).
  eexists. split; [by apply getTagsForVersion_known|].
  unfold getUpdatedTag, getDefinitionFromTag. rewrite Hpattern. cbn [mbind option_bind].
  rewrite Hexec.
  replace ("ANY/ANY/" +:+ repo' +:+ ":" +:+ tagPart') with (qualify "ANY" "ANY" tag)
    by (by rewrite <- Hwhole).
  rewrite Hlookup. cbn [truthyVariant].
  rewrite (getTagsForVersion_known _ _ _ _ _ _ _ _ Hs Ht Hown). cbn [mbind Outcome_bind].
  by destruct (qualify _ _ <$> _).
Qed.

Lemma colonConfig_soleOwner (key : string) :
  soleOwner colonConfig key (getDefinitionObject "app" None).
Proof.
  intros definitionId variant version tagList Hvariant _ Htags _.
  apply getTagsForVersion_returns in Htags as (settings & templates & Hs & _).
  apply property_singleton in Hs as <-.
  apply list_elem_of_singleton in Hvariant as ->. done.
Qed.

Lemma getUpdatedTag_first_tag_of_definition_witness :
  ∃ updatedTags,
    getTagsForVersion colonConfig "app" "1.2.3" (propertyKey (orElse (Some "mcr") (Some "r")))
      (propertyKey (orElse None (Some "p"))) None
    = Returns (Some updatedTags)
    ∧ getUpdatedTag colonConfig colonLookup (qualify "r" "p" "app:dev-slim") (Some "r")
        (Some "p") "1.2.3" (Some "mcr") None None
      = Some (Returns (default (qualify "r" "p" "app:dev-slim") (head updatedTags))).
Proof.
  apply (getUpdatedTag_first_tag_of_definition colonConfig colonLookup "app" "dev" "r" "p"
           "1.2.3" (Some "mcr") None None ["r/p/app:dev"; "r/p/app:dev-slim"]
           "app:dev-slim" "app" "dev-slim").
  - vm_compute. reflexivity.
  - right. left.
  - left.
  - vm_compute. reflexivity.
  - right. left.
  - split; [reflexivity|]. vm_compute. eauto.
  - split; [reflexivity|]. vm_compute. eauto.
  - reflexivity.
  - reflexivity.
  - discriminate.
  - apply colonConfig_soleOwner.
Defined.

(** *** Tags that match no pattern *)



(** Literal items match at the start of the texts that start with their
    text only. *)
Lemma matchItems_literal_None (source : string) (items rest : list JS.RegexItem) (s : string) :
  JS.plainItems source = Some items →
  JS.includesChar "." source = false →
  JS.stripPrefix source s = None →
  JS.matchItems (items ++ rest) s = None.
Proof.
  revert items s. induction source as [|c source IH]; intros items s; [done|].
  cbn [JS.plainItems JS.includesChar JS.stripPrefix].
  destruct (JS.isRegexSyntax c); [done|].
  destruct (JS.plainItems source) as [items'|]; [|done].
  intros [= <-] [Hc Hsource]%orb_false_iff.
  rewrite Ascii.eqb_sym, Hc. cbn [app JS.matchItems].
  destruct s as [|d s]; [done|]. destruct (Ascii.eqb c d); [|done].
  by apply IH.
Qed.

Lemma exec_literal_None (source : string) (items rest : list JS.RegexItem) (s : string) :
  JS.plainItems source = Some items →
  JS.includesChar "." source = false →
  JS.search (JS.literal source) s = None →
  JS.exec (items ++ rest) s = None.
Proof.
  intros Hitems Hdot. induction s as [|c s IH]; rewrite search_unfold; unfold JS.literal at 1.
  - destruct (JS.stripPrefix source "") eqn:Hprefix; [done|]. intros _.
    cbn [JS.exec]. by rewrite (matchItems_literal_None _ _ _ _ Hitems Hdot Hprefix).
  - destruct (JS.stripPrefix source (String c s)) eqn:Hprefix; [done|].
    destruct (JS.search (JS.literal source) s) as [[[before matched] after]|] eqn:Hsearch;
      [done|].
    intros _. cbn [JS.exec].
    rewrite (matchItems_literal_None _ _ _ _ Hitems Hdot Hprefix). by apply IH.
Qed.

(** Without a current registry, the pattern that updates a tag that the
    lookup does not hold starts with the text [undefined/]: for such a tag,
    [getUpdatedTag] throws a [TypeError], unless the tag has this text. *)
Theorem getUpdatedTag_unknown_tag_needs_registry (config : Config)
    (definitionTagLookup : gmap string DefinitionObject) (currentTag updatedVersion : string)
    (currentRegistryPath updatedRegistry updatedRegistryPath variant : option string) :
  getDefinitionFromTag definitionTagLookup currentTag None currentRegistryPath
    = Some (Returns None) →
  is_Some (JS.plainItems (propertyKey currentRegistryPath)) →
  JS.search (JS.literal "undefined/") currentTag = None →
  getUpdatedTag config definitionTagLookup currentTag None currentRegistryPath
    updatedVersion updatedRegistry updatedRegistryPath variant
  = Some (Throws TypeError).
Proof.
  intros Hlookup [pathItems Hpath] Htext. unfold getUpdatedTag. rewrite Hlookup.
  cbn [mbind option_bind]. unfold updateByPattern, repositoryPattern.
  rewrite Hpath. cbn [propertyKey]. 
  change (JS.plainItems "undefined")
    with (Some [JS.RChar "u"; JS.RChar "n"; JS.RChar "d"; JS.RChar "e"; JS.RChar "f";
                JS.RChar "i"; JS.RChar "n"; JS.RChar "e"; JS.RChar "d"]).
  cbn [mbind option_bind].
  change ([JS.RChar "u"; JS.RChar "n"; JS.RChar "d"; JS.RChar "e"; JS.RChar "f";
           JS.RChar "i"; JS.RChar "n"; JS.RChar "e"; JS.RChar "d"]
          ++ [JS.RChar "/"] ++ pathItems
          ++ [JS.RChar "/"; JS.RGroupDotPlus; JS.RChar ":"])
    with ([JS.RChar "u"; JS.RChar "n"; JS.RChar "d"; JS.RChar "e"; JS.RChar "f";
           JS.RChar "i"; JS.RChar "n"; JS.RChar "e"; JS.RChar "d"; JS.RChar "/"]
          ++ pathItems ++ [JS.RChar "/"; JS.RGroupDotPlus; JS.RChar ":"]).
  by rewrite (exec_literal_None "undefined/" _ _ _ eq_refl eq_refl Htext).
Qed.

Lemma getUpdatedTag_unknown_tag_needs_registry_witness :
  getUpdatedTag pythonConfig pythonLookup "r/p/python:1.2.3-3" None (Some "p") "2.0.0"
    (Some "mcr") None None
  = Some (Throws TypeError).
Proof.
  apply getUpdatedTag_unknown_tag_needs_registry; vm_compute; eauto.
Defined.

(** ** Parents that the registry does not have *)

Lemma forEachOutcome_throws {A B : Type} (f : B → A → Outcome B) (l : list A) (acc : B)
    (x : A) (e : Thrown) :
  x ∈ l →
  (∀ acc, f acc x = Throws e) →
  (∀ acc y e', f acc y = Throws e' → e' = e) →
  forEachOutcome f l acc = Throws e.
Proof.
  intros Hin Hx Honly. revert acc. induction l as [|y l IH]; intros acc.
  - by inversion Hin.
  - cbn [forEachOutcome]. destruct (f acc y) as [acc'|e'] eqn:Hy.
    + cbn [mbind Outcome_bind]. apply elem_of_cons in Hin as [->|Hin]; [|by apply IH].
      rewrite Hx in Hy. done.
    + cbn [mbind Outcome_bind]. by rewrite (Honly _ _ _ Hy).
Qed.

Lemma bucketDefinition_throws_TypeError (config : Config) (definitionId : string)
    (parentId : option string) (parentBuckets : ParentBuckets) (e : Thrown) :
  bucketDefinition config definitionId parentId parentBuckets = Throws e → e = TypeError.
Proof.
  unfold bucketDefinition.
  destruct (parentId ≫= buildSettings config) as [parentSettings|]; [|by intros [= <-]].
  destruct (truthyParent (parent parentSettings)).
  - destruct (bucketOrNew _ _ _) as [bucket buckets].
    by destruct (bucketOrNew _ _ _).
  - by destruct (bucketOrNew _ _ _).
Qed.

(** A definition that is not skipped and whose parent is an id that the
    registry does not have makes [getSortedDefinitionBuildList] throw a
    [TypeError], for every page; the module-level variables stay as they
    are. *)
Theorem getSortedDefinitionBuildList_unknown_parent_throws (config : Config)
    (page pageTotal : Z) (definitionsToSkip : list string) (st : PlannerState)
    (definitionId parentId : string) (settings : BuildSettings) :
  (definitionId, settings) ∈ definitionBuildSettings config →
  definitionId ∉ definitionsToSkip →
  parent settings = ParentId parentId →
  parentId ≠ "" →
  buildSettings config parentId = None →
  getSortedDefinitionBuildList config page pageTotal definitionsToSkip st
  = (Throws TypeError, st).
Proof.
  intros Hin Hkept Hparent Hne Hunknown.
  unfold getSortedDefinitionBuildList, planGroups, bucketByParent.
  erewrite (forEachOutcome_throws _ _ _ (definitionId, settings) TypeError Hin); [done|..].
  - intros [[parentBuckets dupeBuckets] noParentList].
    rewrite bool_decide_eq_false_2 by done. rewrite Hparent.
    cbn [truthyParent]. destruct parentId; [done|]. cbn [JS.truthy].
    unfold bucketDefinition. cbn [mbind option_bind]. by rewrite Hunknown.
  - intros [[parentBuckets dupeBuckets] noParentList] [id' settings'] e'.
    destruct (bool_decide (id' ∈ definitionsToSkip)); [done|].
    destruct (truthyParent (parent settings')); [|done].
    destruct (parent settings') as [|p|m].
    + destruct (bucketDefinition config id' None parentBuckets) eqn:Hbucket; [done|].
      intros [= <-]. by eapply bucketDefinition_throws_TypeError.
    + destruct (bucketDefinition config id' (Some p) parentBuckets) eqn:Hbucket; [done|].
      intros [= <-]. by eapply bucketDefinition_throws_TypeError.
    + destruct (createMultiParentBucket m parentBuckets dupeBuckets) as [[p buckets] dupes].
      destruct (bucketDefinition config id' p buckets) eqn:Hbucket; [done|].
      intros [= <-]. by eapply bucketDefinition_throws_TypeError.
Qed.

Lemma getSortedDefinitionBuildList_unknown_parent_throws_witness :
  getSortedDefinitionBuildList orphanConfig 1 1 ["base"] initialState
  = (Throws TypeError, initialState).
Proof.
  apply (getSortedDefinitionBuildList_unknown_parent_throws orphanConfig 1 1 ["base"]
           initialState "child" "missing" orphanSettings).
  - right. left.
  - apply not_elem_of_cons. split; [discriminate|apply not_elem_of_nil].
  - reflexivity.
  - discriminate.
  - reflexivity.
Defined.

(** ** A skipped parent *)

Lemma forEachOutcome_app {A B : Type} (f : B → A → Outcome B) (l1 l2 : list A) (acc : B) :
  forEachOutcome f (l1 ++ l2) acc
  = (acc' ← forEachOutcome f l1 acc; forEachOutcome f l2 acc').
Proof.
  revert acc. induction l1 as [|x l1 IH]; intros acc; [done|].
  cbn [app forEachOutcome]. destruct (f acc x) as [acc'|e]; cbn [mbind Outcome_bind]; [|done].
  apply IH.
Qed.

Lemma indexOf_None (x : string) (l : list string) : x ∉ l → indexOf x l = None.
Proof.
  induction l as [|y l IH]; [done|]. intros [Hne Hout]%not_elem_of_cons.
  cbn [indexOf]. destruct (String.eqb_spec y x) as [->|_]; [done|]. by rewrite IH.
Qed.

Lemma pushToGroupOf_items (parentItem childItem : DefinitionObject) (groups groups' : list Group)
    (group : Group) (item : DefinitionObject) :
  pushToGroupOf parentItem childItem groups = Some groups' →
  group ∈ groups' →
  item ∈ group →
  item = childItem ∨ ∃ old, old ∈ groups ∧ item ∈ old.
Proof.
  revert groups'. induction groups as [|first groups IH]; intros groups'; [done|].
  cbn [pushToGroupOf]. destruct (existsb (sameItem parentItem) first).
  - intros [= <-] [->|Hgroup]%elem_of_cons Hitem.
    + apply elem_of_app in Hitem as [Hitem|Hitem%list_elem_of_singleton]; [|by left].
      right. exists first. split; [by left|done].
    + right. exists group. split; [by right|done].
  - destruct (pushToGroupOf parentItem childItem groups) as [rest|]; [|done].
    intros [= <-] [->|Hgroup]%elem_of_cons Hitem.
    + right. exists first. split; [by left|done].
    + destruct (IH rest eq_refl Hgroup Hitem) as [->|(old & Hold & Hin)]; [by left|].
      right. exists old. split; [by right|done].
Qed.

Section Unplanned.

Variable definitionId : string.

Lemma pushGroup_unplanned (group : Group) (st : PlannerState) :
  (∀ item, item ∈ group → id item ≠ definitionId) →
  unplanned definitionId st →
  unplanned definitionId (pushGroup group st).2.
Proof.
  intros Hgroup Hst g item. cbn [pushGroup snd variantsList].
  intros [Hg|Hg%list_elem_of_singleton]%elem_of_app Hitem.
  - by apply (Hst g).
  - subst g. by apply Hgroup.
Qed.

Lemma addToVariantsList_unplanned (parentItem childItem : DefinitionObject)
    (st : PlannerState) :
  id parentItem ≠ definitionId →
  id childItem ≠ definitionId →
  unplanned definitionId st →
  unplanned definitionId (addToVariantsList parentItem childItem st).2.
Proof.
  intros Hparent Hchild Hst g item. unfold addToVariantsList. cbn [snd variantsList].
  destruct (pushToGroupOf parentItem childItem (variantsList st)) as [groups'|] eqn:Hpush.
  - intros Hg Hitem.
    destruct (pushToGroupOf_items _ _ _ _ _ _ Hpush Hg Hitem) as [->|(old & Hold & Hin)];
      [done|]. by apply (Hst old).
  - intros [Hg|Hg%list_elem_of_singleton]%elem_of_app Hitem.
    + by apply (Hst g).
    + subst g. apply elem_of_cons in Hitem as [->|Hitem]; [done|].
      apply list_elem_of_singleton in Hitem as ->. done.
Qed.

Lemma bind_unplanned {A B : Type} (m : Planner A) (f : A → Planner B) (st : PlannerState) :
  unplanned definitionId (m st).2 →
  (∀ a st', unplanned definitionId st' → unplanned definitionId (f a st').2) →
  unplanned definitionId ((m ≫= f) st).2.
Proof.
  intros Hm Hf. unfold mbind, Planner_bind.
  destruct (m st) as [[a|e] st']; [by apply Hf|done].
Qed.

Lemma forEachPlanner_unplanned {A : Type} (f : A → Planner unit) (l : list A)
    (st : PlannerState) :
  (∀ x st', x ∈ l → unplanned definitionId st' → unplanned definitionId (f x st').2) →
  unplanned definitionId st →
  unplanned definitionId (forEachPlanner f l st).2.
Proof.
  revert st. induction l as [|x l IH]; intros st Hf Hst; [done|].
  cbn [forEachPlanner]. apply bind_unplanned; [apply Hf; [by left|done]|].
  intros _ st'. apply IH. intros y st'' Hy. apply Hf. by right.
Qed.

Lemma includesVariant_state (parentVariants : option (list string)) (variant : string)
    (st : PlannerState) :
  (includesVariant parentVariants variant st).2 = st.
Proof. by destruct parentVariants. Qed.

End Unplanned.

(** What [clubDefinition] adds for a definition with one parent or none are
    items of the definition, of its parent and of the key of its bucket. *)
Lemma clubDefinition_unplanned (config : Config) (absent key definitionId : string)
    (settings : BuildSettings) (st : PlannerState) :
  buildSettings config definitionId = Some settings →
  (∀ variantParentMap, parent settings ≠ ParentMap variantParentMap) →
  (∀ parentId, parent settings = ParentId parentId → parentId ≠ "" → parentId ≠ absent) →
  definitionId ≠ absent →
  key ≠ absent →
  unplanned absent st →
  unplanned absent (clubDefinition config key (BId definitionId) st).2.
Proof.
  intros Hsettings Hmap Hparent Hid Hkey Hst. unfold clubDefinition. rewrite Hsettings.
  assert (∀ variants st',
            unplanned absent st' →
            unplanned absent
              (forEachPlanner
                 (fun variant =>
                    keep ← notSkipped definitionId variant;
                    if keep : bool
                    then pushGroup [getDefinitionObject definitionId (Some variant)]
                    else mret ())
                 variants st').2) as Hroot.
  { intros variants st'. apply forEachPlanner_unplanned. intros variant st'' _ Hst''.
    apply bind_unplanned; [done|]. intros [] st3 Hst3; [|done].
    apply pushGroup_unplanned; [|done].
    intros item Hitem%list_elem_of_singleton; by subst item. }
  destruct (parent settings) as [|parentId|variantParentMap] eqn:Hp.
  - destruct (definitionVariants config !! definitionId) as [variants|]; [|done].
    by apply Hroot.
  - pose proof (Hparent parentId eq_refl) as HparentId.
    destruct (definitionVariants config !! definitionId) as [variants|].
    + destruct parentId as [|c parentId]; [by apply Hroot|].
      specialize (HparentId ltac:(done)).
      apply forEachPlanner_unplanned; [|done]. intros variant st' _ Hst'.
      apply bind_unplanned; [by rewrite includesVariant_state|].
      intros [] st'' Hst''.
      * by apply addToVariantsList_unplanned.
      * apply pushGroup_unplanned; [|done]. intros item Hitem%list_elem_of_singleton; by subst item.
    + destruct parentId as [|c parentId].
      * destruct (tags settings); [|done].
        apply pushGroup_unplanned; [|done].
        intros item [->|Hitem%list_elem_of_singleton]%elem_of_cons; [done|by subst item].
      * destruct (tags settings); [|done].
        apply pushGroup_unplanned; [|done].
        intros item [->|Hitem%list_elem_of_singleton]%elem_of_cons; [done|by subst item].
  - by destruct (Hmap variantParentMap).
Qed.

Lemma bucketDefinition_first_child (config : Config) (definitionId parentId : string)
    (parentSettings : BuildSettings) :
  buildSettings config parentId = Some parentSettings →
  truthyParent (parent parentSettings) = false →
  definitionId ≠ parentId →
  bucketDefinition config definitionId (Some parentId)
    {| bucketRefs := []; bucketArrays := [] |}
  = Returns {| bucketRefs := [(parentId, Some 0)];
               bucketArrays := [[BId parentId; BId definitionId]] |}.
Proof.
  intros Hsettings Hparent Hne. unfold bucketDefinition. cbn [mbind option_bind].
  rewrite Hsettings, Hparent. cbn [propertyKey bucketKey].
  unfold bucketOrNew, bucketRef. cbn [bucketRefs property mjoin option_join newArray].
  unfold setBucket, pushAbsent, readArray, writeArray. cbn.
  rewrite bool_decide_eq_false_2; [done|].
  intros Hin%list_elem_of_singleton. congruence.
Qed.

(** Skipping a parent leaves a definition out: in a registry with distinct
    ids where one definition, not skipped, has a parent that is skipped, and
    the other definitions have no parent, the parent is not in the list of
    the definitions without parent, so that the last definition of this list
    is removed in the place of the parent: this definition, which is not
    skipped, gets no group. *)
Theorem planGroups_skipped_parent_drops_last (config : Config)
    (definitionsToSkip : list string) (st : PlannerState)
    (before after : list (string * BuildSettings))
    (definitionId parentId dropped : string) (settings parentSettings : BuildSettings) :
  definitionBuildSettings config = before ++ (definitionId, settings) :: after →
  NoDup (definitionBuildSettings config).*1 →
  (∀ otherId otherSettings,
     (otherId, otherSettings) ∈ before ++ after →
     truthyParent (parent otherSettings) = false) →
  definitionId ∉ definitionsToSkip →
  parent settings = ParentId parentId →
  parentId ≠ "" →
  parentId ∈ definitionsToSkip →
  buildSettings config parentId = Some parentSettings →
  last (List.filter (fun otherId => negb (bool_decide (otherId ∈ definitionsToSkip)))
          (before ++ after).*1) = Some dropped →
  unplanned dropped st →
  unplanned dropped (planGroups config definitionsToSkip st).2.
Proof.
  intros Hregistry Hdistinct Hparentless Hkept Hparent Hne Hskipped HparentSettings Hlast Hst.
  set (kept := fun otherId : string => negb (bool_decide (otherId ∈ definitionsToSkip))) in *.
  assert (definitionId ≠ parentId) as Hself by (intros ->; done).
  assert (truthyParent (parent parentSettings) = false) as Hroot.
  { apply property_elem_of in HparentSettings. rewrite Hregistry in HparentSettings.
    apply elem_of_app in HparentSettings as [Hin|[[= -> ->]|Hin]%elem_of_cons]; [|done|].
    - apply (Hparentless parentId). apply elem_of_app. by left.
    - apply (Hparentless parentId). apply elem_of_app. by right. }
  assert (buildSettings config definitionId = Some settings) as Hsettings.
  { apply property_NoDup; [done|]. rewrite Hregistry. apply elem_of_app. right. by left. }
  apply last_Some in Hlast as [others Hothers].
  assert ((dropped ∉ others) ∧ dropped ≠ definitionId ∧ dropped ≠ parentId)
    as (Hothers_out & Hdropped_id & Hdropped_parent).
  { assert (dropped ∈ List.filter kept (before ++ after).*1) as Hin
      by (rewrite Hothers; apply elem_of_app; right; by left).
    apply list_elem_of_In in Hin. apply filter_In in Hin as [Hin Hk].
    apply list_elem_of_In in Hin.
    rewrite Hregistry, fmap_app, fmap_cons in Hdistinct. cbn [fst] in Hdistinct.
    apply NoDup_app in Hdistinct as (Hb & Hsep & [Hc Ha]%NoDup_cons).
    split; [|split].
    - assert (NoDup (List.filter kept (before ++ after).*1)) as Hnodup.
      { apply NoDup_filter_bool. rewrite fmap_app. apply NoDup_app. split; [done|].
        split; [|done]. intros x Hx Hx'. apply (Hsep x Hx). by right. }
      rewrite Hothers in Hnodup. apply NoDup_app in Hnodup as (_ & Hnodup & _).
      intros Hdup. apply (Hnodup dropped Hdup). by left.
    - intros ->. rewrite fmap_app in Hin. apply elem_of_app in Hin as [Hin|Hin]; [|done].
      apply (Hsep definitionId Hin). by left.
    - intros ->. unfold kept in Hk. by rewrite bool_decide_eq_true_2 in Hk. }
  unfold planGroups, bucketByParent. rewrite Hregistry, forEachOutcome_app.
  rewrite (bucketByParent_parentless config definitionsToSkip before).
  2: { intros otherId otherSettings Hin. apply (Hparentless otherId).
       apply elem_of_app. by left. }
  cbn [mbind Outcome_bind forEachOutcome].
  rewrite bool_decide_eq_false_2 by done. rewrite Hparent.
  destruct parentId as [|c parentId]; [done|]. cbn [truthyParent JS.truthy].
  rewrite (bucketDefinition_first_child _ _ _ _ HparentSettings Hroot Hself).
  cbn [mbind Outcome_bind].
  rewrite (bucketByParent_parentless config definitionsToSkip after).
  2: { intros otherId otherSettings Hin. apply (Hparentless otherId).
       apply elem_of_app. by right. }
  cbn [app]. fold kept. rewrite <- List.filter_app, <- fmap_app, Hothers.
  cbn [pruneBuckets fold_left bucketRefs JS.truthy].
  unfold spliceIndexOf. rewrite indexOf_None.
  2: { intros Hin. apply list_elem_of_In in Hin. rewrite <- Hothers in Hin.
       apply filter_In in Hin as [_ Hk]. unfold kept in Hk.
       by rewrite bool_decide_eq_true_2 in Hk. }
  rewrite removelast_last.
  apply bind_unplanned.
  - cbn [clubBuckets]. apply bind_unplanned; [|done].
    apply forEachPlanner_unplanned; [|done].
    intros item st' Hitem Hst'.
    assert (item = BId definitionId ∨ item = BId (String c parentId)) as [->| ->].
    { revert Hitem. unfold readArray. cbn. set_unfold. tauto. }
    + apply (clubDefinition_unplanned _ _ _ _ settings); try done.
      * intros variantParentMap. by rewrite Hparent.
      * intros p. rewrite Hparent. by intros [= <-].
    + apply (clubDefinition_unplanned _ _ _ _ parentSettings); try done.
      * intros variantParentMap Hmap. by rewrite Hmap in Hroot.
      * intros p Hp. rewrite Hp in Hroot. by destruct p.
  - intros _ st' Hst'. unfold addNoParentList.
    apply forEachPlanner_unplanned; [|done].
    intros otherId st'' Hin Hst''.
    assert (otherId ≠ dropped) as Hother by (intros ->; done).
    destruct (definitionVariants config !! otherId) as [variants|].
    + apply forEachPlanner_unplanned; [|done]. intros variant st3 _ Hst3.
      apply pushGroup_unplanned; [|done].
      intros item Hitem%list_elem_of_singleton; by subst item.
    + destruct (buildSettings config otherId ≫= tags); [|done].
      apply pushGroup_unplanned; [|done].
      intros item Hitem%list_elem_of_singleton; by subst item.
Qed.

Lemma planGroups_skipped_parent_drops_last_witness :
  planGroups bystanderConfig ["base"] initialState
  = (Returns (),
     {| variantsList := [[getDefinitionObject "base" None; getDefinitionObject "child" None]];
        skipParentVariants := [] |})
  ∧ unplanned "other" (planGroups bystanderConfig ["base"] initialState).2.
Proof.
  split; [vm_compute; reflexivity|].
  apply (planGroups_skipped_parent_drops_last bystanderConfig ["base"] initialState
           [("other", settingsWithTags ["other:${VERSION}"]);
            ("base", settingsWithTags ["base:${VERSION}"])]
           [] "child" "base" "other"
           {| tags := Some ["child:${VERSION}"]; parent := ParentId "base";
              variantTags := None; versionedTagsOnly := false; latest := LatestAbsent;
              idMismatch := None |}
           (settingsWithTags ["base:${VERSION}"])).
  - reflexivity.
  - repeat (apply NoDup_cons_2; [set_unfold; intuition discriminate|]). apply NoDup_nil_2.
  - intros otherId otherSettings Hin. set_unfold.
    destruct Hin as [[= -> ->]|[[= -> ->]|[]]]; reflexivity.
  - apply not_elem_of_cons. split; [discriminate|apply not_elem_of_nil].
  - reflexivity.
  - discriminate.
  - left.
  - reflexivity.
  - reflexivity.
  - intros group item Hgroup. inversion Hgroup.
Defined.

(** ** The registry of a tag list *)

Lemma dedupe_fmap (f : string → string) (l : list string) :
  (∀ x y, f x = f y → x = y) → dedupe (f <$> l) = f <$> dedupe l.
Proof.
  intros Hinj. induction l as [|x l IH]; [done|].
  rewrite fmap_cons. cbn [dedupe]. rewrite fmap_cons, IH, filter_fmap. do 2 f_equal.
  apply filter_ext_bool. intros y.
  destruct (String.eqb_spec (f y) (f x)) as [Heq|Hne].
  - apply Hinj in Heq as ->. by rewrite String.eqb_refl.
  - destruct (String.eqb_spec y x) as [->|]; done.
Qed.

Lemma versionTags_qualify (config : Config) (settings : BuildSettings)
    (templates : list string) (definitionId registry registryPath : string)
    (variant : option string) (versionList : list string) :
  versionTags config settings templates definitionId registry registryPath variant versionList
  = qualify registry registryPath
      <$> concat ((fun version =>
                     baseTags config settings templates definitionId version variant)
                  <$> versionList).
Proof.
  unfold versionTags. induction versionList as [|version versionList IH]; [done|].
  rewrite !fmap_cons. cbn [concat]. by rewrite fmap_app, IH.
Qed.

(** The registry and the registry path are a prefix of the tags and nothing
    more: for a known definition with tags, a release, a mode and a variant,
    there is one list of tags without registry, or one error, such that
    [getTagList] returns for every registry and registry path this list with
    [<registry>/<registryPath>/] in front of every tag, or throws this
    error. *)
Theorem getTagList_registry_is_a_prefix (config : Config) (settings : BuildSettings)
    (templates : list string) (definitionId release : string) (versionPartHandling : Handling)
    (variant : VariantArgument) :
  buildSettings config definitionId = Some settings →
  tags settings = Some templates →
  ∃ outcome : Outcome (list string),
    ∀ registry registryPath,
      getTagList config definitionId release versionPartHandling registry registryPath variant
      = match outcome with
        | Returns tagList => Returns (Some (qualify registry registryPath <$> tagList))
        | Throws e => Throws e
        end.
Proof.
  intros Hsettings Htags.
  destruct (getVersionFromRelease config release definitionId) as [version|] eqn:Hversion.
  2: { exists (Throws TypeError). intros registry registryPath. unfold getTagList.
       by rewrite Hversion. }
  destruct (ownVariantTags settings
              (tagVariant config definitionId (variantString variant))) eqn:Hown.
  2: { destruct (String.eqb_spec version "dev") as [->|Hdev].
       { exists (Throws TypeError). intros registry registryPath. unfold getTagList.
         rewrite Hversion. change (String.eqb "dev" "dev") with true.
         by apply (getTagsForVersion_inherited_variant _ settings templates). }
       destruct (JS.split "." version) as [|major [|minor [|patch [|extra parts]]]] eqn:Hsplit.
       1-3, 5: exists (Throws (ThrownString
                                 ("Invalid version format in " +:+ version +:+ ".")));
         intros registry registryPath; unfold getTagList; rewrite Hversion;
         apply String.eqb_neq in Hdev; by rewrite Hdev, Hsplit.
       exists (Throws TypeError). intros registry registryPath.
       destruct (knownHandling versionPartHandling) eqn:Hknown.
       - by apply (getTagList_inherited_variant _ settings templates _ _ _ _ Hsettings Htags
                     _ _ version major minor patch).
       - unfold getTagList.
         rewrite Hversion. apply String.eqb_neq in Hdev. rewrite Hdev, Hsplit.
         by rewrite (versionSwitch_unknown _ _ _ _ Hknown). }
  destruct (String.eqb_spec version "dev") as [->|Hdev].
  { exists (Returns (baseTags config settings templates definitionId "dev"
                       (variantString variant))).
    intros registry registryPath. unfold getTagList. rewrite Hversion. cbn [String.eqb].
    change (String.eqb "dev" "dev") with true.
    by apply getTagsForVersion_known. }
  destruct (JS.split "." version) as [|major [|minor [|patch [|extra parts]]]] eqn:Hsplit.
  1-3, 5: exists (Throws (ThrownString ("Invalid version format in " +:+ version +:+ ".")));
    intros registry registryPath; unfold getTagList; rewrite Hversion;
    apply String.eqb_neq in Hdev; by rewrite Hdev, Hsplit.
  destruct (knownHandling versionPartHandling) eqn:Hknown.
  - exists (Returns
              (concat ((fun version =>
                          baseTags config settings templates definitionId version
                            (variantString variant))
                       <$> expandedVersions versionPartHandling settings version major minor)
               ++ (if latestAppended versionPartHandling settings
                        (getVariants config definitionId) variant
                   then dedupe (latestForm <$> templates)
                   else []))).
    intros registry registryPath.
    rewrite (getTagList_expands _ _ _ _ _ _ _ Hsettings Htags _ _ _ _ _ _
               Hversion Hdev Hsplit Hknown Hown).
    rewrite fmap_app, versionTags_qualify. do 3 f_equal.
    destruct (latestAppended _ _ _ _); [|done].
    unfold latestTags.
    rewrite (list_fmap_compose latestForm (qualify registry registryPath)).
    apply dedupe_fmap. intros x y. apply qualify_inj.
  - exists (Throws TypeError). intros registry registryPath. unfold getTagList.
    rewrite Hversion. apply String.eqb_neq in Hdev. rewrite Hdev, Hsplit.
    by rewrite (versionSwitch_unknown _ _ _ _ Hknown).
Qed.

Lemma getTagList_registry_is_a_prefix_witness :
  ∃ outcome : Outcome (list string),
    ∀ registry registryPath,
      getTagList pythonConfig "python" "v1.0.0" (HBool true) registry registryPath NotPassed
      = match outcome with
        | Returns tagList => Returns (Some (qualify registry registryPath <$> tagList))
        | Throws e => Throws e
        end.
Proof.
  apply (getTagList_registry_is_a_prefix pythonConfig
           {| tags := Some ["python:${VERSION}-3"]; parent := NoParent;
              variantTags := None; versionedTagsOnly := false;
              latest := LatestBool true; idMismatch := None |}
           ["python:${VERSION}-3"]); reflexivity.
Defined.

(** ** Families *)

Lemma planner_bind_keeps {A B : Type} (P : PlannerState → Prop) (m : Planner A)
    (f : A → Planner B) (st : PlannerState) :
  P (m st).2 → (∀ a st', P st' → P (f a st').2) → P ((m ≫= f) st).2.
Proof.
  intros Hm Hf. unfold mbind, Planner_bind.
  destruct (m st) as [[a|e] st']; [by apply Hf|done].
Qed.

Lemma forEachPlanner_keeps {A : Type} (P : PlannerState → Prop) (f : A → Planner unit)
    (l : list A) (st : PlannerState) :
  (∀ x st', x ∈ l → P st' → P (f x st').2) → P st → P (forEachPlanner f l st).2.
Proof.
  revert st. induction l as [|x l IH]; intros st Hf Hst; [done|].
  cbn [forEachPlanner]. apply planner_bind_keeps; [apply Hf; [by left|done]|].
  intros _ st'. apply IH. intros y st'' Hy. apply Hf. by right.
Qed.

Lemma setProperty_same {A : Type} (key : string) (value : A) (obj : list (string * A)) :
  property key obj = Some value → setProperty key value obj = obj.
Proof.
  induction obj as [|[k v] obj IH]; [done|]. cbn [property setProperty].
  destruct (String.eqb k key); [by intros [= ->]|]. intros H. by rewrite IH.
Qed.

Lemma setProperty_new {A : Type} (key : string) (value : A) (obj : list (string * A)) :
  property key obj = None → setProperty key value obj = obj ++ [(key, value)].
Proof.
  induction obj as [|[k v] obj IH]; [done|]. cbn [property setProperty].
  destruct (String.eqb k key); [done|]. intros H. by rewrite IH.
Qed.

Lemma property_None {A : Type} (key : string) (obj : list (string * A)) :
  property key obj = None → key ∉ obj.*1.
Proof.
  induction obj as [|[k v] obj IH]; [intros _; apply not_elem_of_nil|].
  cbn [property]. destruct (String.eqb_spec k key) as [->|Hne]; [done|].
  intros H. rewrite fmap_cons. apply not_elem_of_cons. split; [done|by apply IH].
Qed.

(** *** The groups *)

Lemma pushToGroupOf_split (parentItem childItem : DefinitionObject)
    (groups groups' : list Group) :
  pushToGroupOf parentItem childItem groups = Some groups' →
  ∃ front group back,
    groups = front ++ group :: back
    ∧ parentItem ∈ group
    ∧ groups' = front ++ (group ++ [childItem]) :: back.
Proof.
  revert groups'. induction groups as [|first groups IH]; intros groups'; [done|].
  cbn [pushToGroupOf]. destruct (existsb (sameItem parentItem) first) eqn:Hfirst.
  - intros [= <-]. exists [], first, groups. by apply existsb_sameItem in Hfirst.
  - destruct (pushToGroupOf parentItem childItem groups) as [rest|]; [|done].
    intros [= <-]. destruct (IH rest eq_refl) as (front & group & back & -> & Hin & ->).
    by exists (first :: front), group, back.
Qed.

Section Families.

Variable config : Config.
Hypothesis Hdistinct : NoDup (definitionBuildSettings config).*1.
Hypothesis HoneLevel : oneLevel config.

Lemma pushGroup_family (group : Group) (st : PlannerState) :
  match group with
  | [] => False
  | first :: others => ∀ child, child ∈ others → childOf config child first
  end →
  familyGroups config st →
  familyGroups config (pushGroup group st).2.
Proof.
  intros Hgroup Hst g. cbn [pushGroup snd variantsList].
  intros [Hg|Hg%list_elem_of_singleton]%elem_of_app; [by apply Hst|by subst g].
Qed.

Lemma pushGroup_single_family (item : DefinitionObject) (st : PlannerState) :
  familyGroups config st → familyGroups config (pushGroup [item] st).2.
Proof. apply pushGroup_family. intros child Hchild. by inversion Hchild. Qed.

Lemma addToVariantsList_family (parentItem childItem : DefinitionObject)
    (parentSettings : BuildSettings) (st : PlannerState) :
  buildSettings config (id parentItem) = Some parentSettings →
  parent parentSettings = NoParent →
  childOf config childItem parentItem →
  familyGroups config st →
  familyGroups config (addToVariantsList parentItem childItem st).2.
Proof.
  intros HparentSettings Hparentless Hchild Hst g.
  unfold addToVariantsList. cbn [snd variantsList].
  destruct (pushToGroupOf parentItem childItem (variantsList st)) as [groups'|] eqn:Hpush.
  - apply pushToGroupOf_split in Hpush as (front & group & back & Hgroups & Hin & ->).
    assert (group ∈ variantsList st) as Hgroup
      by (rewrite Hgroups; apply elem_of_app; right; by left).
    intros [Hg|[->|Hg]%elem_of_cons]%elem_of_app.
    + apply Hst. rewrite Hgroups. apply elem_of_app. by left.
    + specialize (Hst group Hgroup). destruct group as [|first others]; [done|].
      cbn [app]. intros child [Hold|Hnew%list_elem_of_singleton]%elem_of_app;
        [by apply Hst|]. subst child.
      apply elem_of_cons in Hin as [<-|Hin]; [done|].
      destruct (Hst parentItem Hin) as (s & Hs & Hp & _). congruence.
    + apply Hst. rewrite Hgroups. apply elem_of_app. right. by right.
  - intros [Hg|Hg%list_elem_of_singleton]%elem_of_app; [by apply Hst|]. subst g.
    intros child Hin%list_elem_of_singleton. by subst child.
Qed.

(** What [clubDefinition] adds for a definition of the bucket of its parent
    are groups of one item, and children in the group of their parent. *)
Lemma clubDefinition_family (key : string) (item : BucketItem) (st : PlannerState) :
  bucketItemOf config key item →
  familyGroups config st →
  familyGroups config (clubDefinition config key item st).2.
Proof.
  intros Hitem Hst. destruct item as [definitionId|]; [|done].
  unfold clubDefinition.
  destruct (buildSettings config definitionId) as [settings|] eqn:Hsettings; [|done].
  assert (∀ variants st',
            familyGroups config st' →
            familyGroups config
              (forEachPlanner
                 (fun variant =>
                    keep ← notSkipped definitionId variant;
                    if keep : bool
                    then pushGroup [getDefinitionObject definitionId (Some variant)]
                    else mret ())
                 variants st').2) as Hroot.
  { intros variants st'. apply forEachPlanner_keeps. intros variant st'' _ Hst''.
    apply planner_bind_keeps; [done|]. intros [] st3 Hst3; [|done].
    by apply pushGroup_single_family. }
  destruct (HoneLevel definitionId settings (property_elem_of _ _ _ Hsettings))
    as [Hparent|(parentId & parentSettings & Hparent & Hne & HparentSettings & Hparentless)];
    rewrite Hparent.
  - destruct (definitionVariants config !! definitionId) as [variants|]; [|done].
    by apply Hroot.
  - pose proof (Hitem settings parentId Hsettings Hparent Hne) as <-.
    destruct parentId as [|c parentId]; [done|].
    destruct (definitionVariants config !! definitionId) as [variants|].
    + apply forEachPlanner_keeps; [|done]. intros variant st' _ Hst'.
      apply planner_bind_keeps; [by rewrite includesVariant_state|].
      intros [] st'' Hst''; [|by apply pushGroup_single_family].
      apply (addToVariantsList_family _ _ parentSettings); [done..| |done].
      by exists settings.
    + destruct (tags settings); [|done].
      apply pushGroup_family; [|done].
      intros child Hchild%list_elem_of_singleton. subst child. by exists settings.
Qed.

Lemma readArray_reversed (index other : nat) (parentBuckets : ParentBuckets)
    (item : BucketItem) :
  item ∈ readArray other
           (writeArray index (reverse (readArray index parentBuckets)) parentBuckets) →
  item ∈ readArray other parentBuckets.
Proof.
  unfold readArray, writeArray. cbn [bucketArrays].
  destruct (decide (other = index)) as [->|Hne].
  - destruct (decide (index < length (bucketArrays parentBuckets))) as [Hlt|Hge].
    + rewrite list_lookup_insert_eq by done. simpl. by rewrite elem_of_reverse.
    + by rewrite list_insert_ge by lia.
  - by rewrite list_lookup_insert_ne.
Qed.

Lemma clubBuckets_family (refs : list (string * option nat)) (parentBuckets : ParentBuckets)
    (st : PlannerState) :
  (∀ key index item,
     (key, Some index) ∈ refs →
     item ∈ readArray index parentBuckets →
     bucketItemOf config key item) →
  familyGroups config st →
  familyGroups config (clubBuckets config refs parentBuckets st).2.
Proof.
  revert parentBuckets st. induction refs as [|[key [index|]] refs IH];
    intros parentBuckets st Hitems Hst; [done| |].
  - cbn [clubBuckets]. apply planner_bind_keeps.
    + apply forEachPlanner_keeps; [|done]. intros item st' Hitem Hst'.
      apply clubDefinition_family; [|done].
      apply (Hitems key index); [by left|]. by apply elem_of_reverse.
    + intros _ st' Hst'. apply IH; [|done]. intros key' index' item Hin Hitem.
      apply (Hitems key' index'); [by right|]. by eapply readArray_reversed.
  - cbn [clubBuckets]. apply IH; [|done]. intros key' index' item Hin.
    apply Hitems. by right.
Qed.

Lemma addNoParentList_family (noParentList : list string) (st : PlannerState) :
  familyGroups config st →
  familyGroups config (addNoParentList config noParentList st).2.
Proof.
  unfold addNoParentList. apply forEachPlanner_keeps. intros definitionId st' _ Hst'.
  destruct (definitionVariants config !! definitionId) as [variants|].
  - apply forEachPlanner_keeps; [|done]. intros variant st'' _ Hst''.
    by apply pushGroup_single_family.
  - destruct (buildSettings config definitionId ≫= tags); [|done].
    by apply pushGroup_single_family.
Qed.

End Families.

(** *** The buckets *)

Lemma familyBuckets_empty (config : Config) :
  familyBuckets config {| bucketRefs := []; bucketArrays := [] |}.
Proof.
  split; [apply NoDup_nil_2|]. cbn [bucketRefs].
  repeat split; intros; by match goal with H : _ ∈ [] |- _ => inversion H end.
Qed.

Lemma pushAbsent_family (config : Config) (parentBuckets : ParentBuckets) (key : string)
    (index : nat) (item : BucketItem) :
  familyBuckets config parentBuckets →
  (key, Some index) ∈ bucketRefs parentBuckets →
  bucketItemOf config key item →
  familyBuckets config (pushAbsent index item parentBuckets).
Proof.
  intros (Hkeys & Hrefs & Hown & Hitems) Hkey Hitem. unfold pushAbsent.
  destruct (bool_decide (item ∈ readArray index parentBuckets)); [done|].
  unfold writeArray. split; [done|]. cbn [bucketRefs bucketArrays]. split; [|split; [done|]].
  - intros key' ref Hin. destruct (Hrefs key' ref Hin) as (index' & -> & Hlt).
    exists index'. split; [done|]. by rewrite length_insert.
  - intros key' index' item' Hin. unfold readArray at 1. cbn [bucketArrays].
    destruct (decide (index' = index)) as [->|Hne].
    + destruct (Hrefs key (Some index) Hkey) as (i & [= <-] & Hlt).
      rewrite list_lookup_insert_eq by done. simpl.
      rewrite (Hown key' key index Hin Hkey).
      intros [Hold|Hnew%list_elem_of_singleton]%elem_of_app; [|by subst item'].
      by apply (Hitems key index).
    + rewrite list_lookup_insert_ne by done. by apply Hitems.
Qed.

Lemma bucketOrNew_family (config : Config) (parentBuckets bucketed : ParentBuckets)
    (key : string) (index : nat) :
  familyBuckets config parentBuckets →
  bucketItemOf config key (BId key) →
  bucketOrNew key (BId key) parentBuckets = (index, bucketed) →
  familyBuckets config (setBucket key (Some index) bucketed)
  ∧ (key, Some index) ∈ bucketRefs (setBucket key (Some index) bucketed).
Proof.
  intros (Hkeys & Hrefs & Hown & Hitems) Hitem. unfold bucketOrNew, bucketRef.
  destruct (property key (bucketRefs parentBuckets)) as [ref|] eqn:Hproperty.
  - pose proof (property_elem_of _ _ _ Hproperty) as Hin.
    destruct (Hrefs key ref Hin) as (i & -> & Hlt). cbn [mjoin option_join].
    intros [= <- <-]. unfold setBucket. rewrite (setProperty_same _ _ _ Hproperty).
    cbn [bucketRefs]. split; [|done]. by destruct parentBuckets.
  - cbn [mjoin option_join]. unfold newArray. intros [= <- <-].
    unfold setBucket. cbn [bucketRefs bucketArrays].
    rewrite (setProperty_new _ _ _ Hproperty). split; [|apply elem_of_app; right; by left].
    apply property_None in Hproperty.
    split; [|cbn [bucketRefs bucketArrays]; split; [|split]].
    + cbn [bucketRefs]. rewrite fmap_app. apply NoDup_app. split; [done|].
      split; [|apply NoDup_singleton].
      intros k Hk Hk'%list_elem_of_singleton. by subst k.
    + intros key' ref [Hin|Hin%list_elem_of_singleton]%elem_of_app.
      * destruct (Hrefs key' ref Hin) as (i & -> & Hlt). exists i. split; [done|].
        rewrite length_app. simpl. lia.
      * injection Hin as -> ->. eexists. split; [done|]. rewrite length_app. simpl. lia.
    + intros key1 key2 i [H1|H1%list_elem_of_singleton]%elem_of_app
        [H2|H2%list_elem_of_singleton]%elem_of_app.
      * by apply (Hown key1 key2 i).
      * injection H2 as -> ->. destruct (Hrefs key1 _ H1) as (i & [= <-] & Hlt). lia.
      * injection H1 as -> ->. destruct (Hrefs key2 _ H2) as (i & [= <-] & Hlt). lia.
      * injection H1 as -> ->. by injection H2 as ->.
    + intros key' i item [Hin|Hin%list_elem_of_singleton]%elem_of_app.
      * destruct (Hrefs key' _ Hin) as (j & [= <-] & Hlt).
        unfold readArray. cbn [bucketArrays]. rewrite lookup_app_l by done.
        by apply Hitems.
      * injection Hin as -> ->. unfold readArray. cbn [bucketArrays].
        rewrite list_lookup_middle by done. simpl.
        intros Hin%list_elem_of_singleton. by subst item.
Qed.

Section FamilyBuckets.

Variable config : Config.
Hypothesis Hdistinct : NoDup (definitionBuildSettings config).*1.

Lemma bucketDefinition_family (definitionId parentId : string)
    (settings parentSettings : BuildSettings) (parentBuckets bucketed : ParentBuckets) :
  (definitionId, settings) ∈ definitionBuildSettings config →
  parent settings = ParentId parentId →
  buildSettings config parentId = Some parentSettings →
  parent parentSettings = NoParent →
  familyBuckets config parentBuckets →
  bucketDefinition config definitionId (Some parentId) parentBuckets = Returns bucketed →
  familyBuckets config bucketed.
Proof.
  intros Hin Hparent HparentSettings Hparentless Hbuckets. unfold bucketDefinition.
  cbn [mbind option_bind]. rewrite HparentSettings, Hparentless.
  cbn [truthyParent propertyKey bucketKey].
  destruct (bucketOrNew parentId (BId parentId) parentBuckets) as [index parentBuckets1]
    eqn:Hbucket.
  intros [= <-].
  assert (bucketItemOf config parentId (BId parentId)) as Hself
    by (intros s p Hs Hp; congruence).
  destruct (bucketOrNew_family config _ _ _ _ Hbuckets Hself Hbucket) as [Hfamily Hkey].
  apply (pushAbsent_family _ _ parentId); [done..|].
  intros s p Hs Hp _. unfold buildSettings in Hs.
  rewrite (property_NoDup _ _ _ Hdistinct Hin) in Hs. congruence.
Qed.

Lemma bucketByParent_family (definitionsToSkip noParentList dupeBuckets : list string)
    (parentBuckets : ParentBuckets) :
  oneLevel config →
  bucketByParent config definitionsToSkip = Returns (parentBuckets, dupeBuckets, noParentList) →
  familyBuckets config parentBuckets ∧ dupeBuckets = [].
Proof.
  intros HoneLevel Hreturns. unfold bucketByParent in Hreturns.
  refine (forEachOutcome_keeps _
            (fun '(parentBuckets, dupeBuckets, _) =>
               familyBuckets config parentBuckets ∧ dupeBuckets = [])
            _ _ (parentBuckets, dupeBuckets, noParentList) _ Hreturns _).
  - intros [definitionId settings] [[buckets dupes] parentless] [[buckets' dupes'] parentless']
      Hin.
    destruct (bool_decide (definitionId ∈ definitionsToSkip)); [by intros [= <- <- <-]|].
    destruct (HoneLevel definitionId settings Hin)
      as [Hparent|(parentId & parentSettings & Hparent & Hne & HparentSettings & Hparentless)];
      rewrite Hparent.
    + by intros [= <- <- <-].
    + destruct parentId as [|c parentId]; [done|]. cbn [truthyParent JS.truthy].
      destruct (bucketDefinition config definitionId (Some (String c parentId)) buckets)
        as [bucketed|e] eqn:Hbucket; [|done].
      cbn [mbind Outcome_bind]. intros [= <- <- <-] [Hfamily ->]. split; [|done].
      by eapply bucketDefinition_family.
  - split; [apply familyBuckets_empty|done].
Qed.

End FamilyBuckets.

(** Children are grouped under their parent: in a registry with distinct ids
    where every definition has no parent or a parent without parent, every
    group that the planning passes leave in [variantsList] is an item
    followed by items of children of the definition of this item, for the
    variant of this item; this holds whether the passes return or throw,
    when it holds of the groups that [variantsList] held. *)
Theorem planGroups_groups_children_under_parent (config : Config)
    (definitionsToSkip : list string) (st : PlannerState) :
  NoDup (definitionBuildSettings config).*1 →
  oneLevel config →
  familyGroups config st →
  familyGroups config (planGroups config definitionsToSkip st).2.
Proof.
  intros Hdistinct HoneLevel Hst. unfold planGroups.
  destruct (bucketByParent config definitionsToSkip)
    as [[[parentBuckets dupeBuckets] noParentList]|e] eqn:Hbuckets; [|done].
  apply (bucketByParent_family _ Hdistinct) in Hbuckets as [(_ & _ & _ & Hitems) ->];
    [|done].
  cbn [pruneBuckets fold_left].
  apply planner_bind_keeps.
  - by apply clubBuckets_family.
  - intros _ st' Hst'. by apply addNoParentList_family.
Qed.

Lemma planGroups_groups_children_under_parent_witness :
  familyGroups familyConfig (planGroups familyConfig [] initialState).2.
Proof.
  apply planGroups_groups_children_under_parent.
  - repeat (apply NoDup_cons_2; [set_unfold; intuition discriminate|]). apply NoDup_nil_2.
  - intros definitionId settings Hin. set_unfold.
    destruct Hin as [[= -> ->]|[[= -> ->]|[]]]; [by left|].
    right. exists "base", (settingsWithTags ["base:${VERSION}-${VARIANT}"]). done.
  - intros group Hgroup. inversion Hgroup.
Defined.

(** ** What the planner keeps *)

Lemma extends_refl (st : PlannerState) : extends st st.
Proof. split; [|done]. intros i group Hi. by exists group. Qed.

Lemma extends_trans (st1 st2 st3 : PlannerState) :
  extends st1 st2 → extends st2 st3 → extends st1 st3.
Proof.
  intros [Hgroups12 Hskip12] [Hgroups23 Hskip23]. split; [|by etrans].
  intros i group Hi. destruct (Hgroups12 i group Hi) as (group2 & Hi2 & Hprefix2).
  destruct (Hgroups23 i group2 Hi2) as (group3 & Hi3 & Hprefix3).
  exists group3. split; [done|by etrans].
Qed.

Lemma pushGroup_extends (group : Group) (st : PlannerState) :
  extends st (pushGroup group st).2.
Proof.
  split; [|done]. intros i g Hi. exists g. split; [|done].
  cbn [pushGroup snd variantsList]. by apply lookup_app_l_Some.
Qed.

Lemma addToVariantsList_extends (parentItem childItem : DefinitionObject)
    (st : PlannerState) :
  extends st (addToVariantsList parentItem childItem st).2.
Proof.
  unfold addToVariantsList. cbn [snd]. split; cbn [variantsList skipParentVariants].
  2: by apply prefix_app_r.
  intros i g Hi.
  destruct (pushToGroupOf parentItem childItem (variantsList st)) as [groups'|] eqn:Hpush.
  - apply pushToGroupOf_split in Hpush as (front & group & back & Hgroups & _ & ->).
    rewrite Hgroups in Hi.
    destruct (decide (i < length front)) as [Hlt|Hge].
    + rewrite lookup_app_l in Hi by done. exists g. by rewrite lookup_app_l.
    + rewrite lookup_app_r in Hi by lia. rewrite lookup_app_r by lia.
      destruct (i - length front) as [|j]; simpl in *.
      * injection Hi as <-. eexists. split; [done|]. by apply prefix_app_r.
      * by exists g.
  - exists g. split; [|done]. by apply lookup_app_l_Some.
Qed.

Section Extends.

Variable config : Config.
Variable st0 : PlannerState.

Lemma clubDefinition_extends (key : string) (item : BucketItem) (st : PlannerState) :
  extends st0 st → extends st0 (clubDefinition config key item st).2.
Proof.
  assert (∀ group st', extends st0 st' → extends st0 (pushGroup group st').2) as Hpush.
  { intros group st' Hst'. eapply extends_trans; [done|apply pushGroup_extends]. }
  assert (∀ parentItem childItem st',
            extends st0 st' → extends st0 (addToVariantsList parentItem childItem st').2)
    as Hadd.
  { intros parentItem childItem st' Hst'.
    eapply extends_trans; [done|apply addToVariantsList_extends]. }
  intros Hst. destruct item as [definitionId|]; [|done]. unfold clubDefinition.
  destruct (buildSettings config definitionId) as [settings|]; [|done].
  assert (∀ variants st',
            extends st0 st' →
            extends st0
              (forEachPlanner
                 (fun variant =>
                    keep ← notSkipped definitionId variant;
                    if keep : bool
                    then pushGroup [getDefinitionObject definitionId (Some variant)]
                    else mret ())
                 variants st').2) as Hroot.
  { intros variants st'. apply forEachPlanner_keeps. intros variant st'' _ Hst''.
    apply planner_bind_keeps; [done|]. intros [] st3 Hst3; [by apply Hpush|done]. }
  destruct (definitionVariants config !! definitionId) as [variants|],
    (parent settings) as [|parentId|variantParentMap].
  - by apply Hroot.
  - destruct parentId as [|c parentId]; [by apply Hroot|].
    apply forEachPlanner_keeps; [|done]. intros variant st' _ Hst'.
    apply planner_bind_keeps; [by rewrite includesVariant_state|].
    intros [] st'' Hst''; [by apply Hadd|by apply Hpush].
  - apply forEachPlanner_keeps; [|done]. intros [commonVariant parentObjId] st' _ Hst'.
    destruct (JS.truthy commonVariant).
    + apply planner_bind_keeps; [by rewrite includesVariant_state|].
      intros [] st'' Hst''; [by apply Hadd|].
      destruct (JS.truthy parentObjId); [by apply Hpush|done].
    + destruct (tags settings); [by apply Hpush|done].
  - done.
  - destruct (tags settings); [by apply Hpush|done].
  - apply forEachPlanner_keeps; [|done]. intros [commonVariant parentObjId] st' _ Hst'.
    destruct (JS.truthy commonVariant).
    + apply planner_bind_keeps; [by rewrite includesVariant_state|].
      intros [] st'' Hst''; [by apply Hadd|].
      destruct (JS.truthy parentObjId); [by apply Hpush|done].
    + destruct (tags settings); [by apply Hpush|done].
Qed.

Lemma clubBuckets_extends (refs : list (string * option nat)) (parentBuckets : ParentBuckets)
    (st : PlannerState) :
  extends st0 st → extends st0 (clubBuckets config refs parentBuckets st).2.
Proof.
  revert parentBuckets st. induction refs as [|[key [index|]] refs IH];
    intros parentBuckets st Hst; [done| |by apply IH].
  cbn [clubBuckets]. apply planner_bind_keeps.
  - apply forEachPlanner_keeps; [|done]. intros item st' _. apply clubDefinition_extends.
  - intros _ st'. apply IH.
Qed.

Lemma addNoParentList_extends (noParentList : list string) (st : PlannerState) :
  extends st0 st → extends st0 (addNoParentList config noParentList st).2.
Proof.
  unfold addNoParentList. apply forEachPlanner_keeps. intros definitionId st' _ Hst'.
  destruct (definitionVariants config !! definitionId) as [variants|].
  - apply forEachPlanner_keeps; [|done]. intros variant st'' _ Hst''.
    eapply extends_trans; [done|apply pushGroup_extends].
  - destruct (buildSettings config definitionId ≫= tags); [|done].
    eapply extends_trans; [done|apply pushGroup_extends].
Qed.

End Extends.

(** The planning passes of [getSortedDefinitionBuildList] only add to the
    module-level variables, for every registry and whether they return or
    throw: every group that [variantsList] held is at its place, with its
    items in front of the items it has got, new groups come after them, and
    [skipParentVariants] has its items in front of those it has got. Nothing
    that an earlier call has planned is forgotten. *)
Theorem planGroups_only_adds (config : Config) (definitionsToSkip : list string)
    (st : PlannerState) :
  extends st (planGroups config definitionsToSkip st).2.
Proof.
  unfold planGroups.
  destruct (bucketByParent config definitionsToSkip)
    as [[[parentBuckets dupeBuckets] noParentList]|e]; [|apply extends_refl].
  destruct (pruneBuckets parentBuckets dupeBuckets noParentList) as [pruned kept].
  apply (planner_bind_keeps (extends st)).
  - apply clubBuckets_extends, extends_refl.
  - intros _ st'. apply addNoParentList_extends.
Qed.

(** ** Buckets *)

Lemma property_setProperty {A : Type} (key key' : string) (value : A)
    (obj : list (string * A)) :
  property key (setProperty key' value obj)
  = if String.eqb key' key then Some value else property key obj.
Proof.
  induction obj as [|[k v] obj IH]; cbn [setProperty property].
  - by destruct (String.eqb key' key).
  - destruct (String.eqb_spec k key') as [->|Hne]; cbn [property].
    + by destruct (String.eqb key' key).
    + rewrite IH. destruct (String.eqb_spec k key) as [->|Hne']; [|done].
      destruct (String.eqb_spec key' key) as [->|]; done.
Qed.

Lemma bucketRef_setBucket (key key' : string) (ref : option nat)
    (parentBuckets : ParentBuckets) :
  bucketRef key (setBucket key' ref parentBuckets)
  = if String.eqb key' key then ref else bucketRef key parentBuckets.
Proof.
  unfold bucketRef, setBucket. cbn [bucketRefs]. rewrite property_setProperty.
  by destruct (String.eqb key' key).
Qed.

Lemma bucketRef_pushAbsent (key : string) (index : nat) (item : BucketItem)
    (parentBuckets : ParentBuckets) :
  bucketRef key (pushAbsent index item parentBuckets) = bucketRef key parentBuckets.
Proof. unfold pushAbsent. by destruct (bool_decide _). Qed.

Lemma createMultiParentBucket_merge (parentId : string) (firstParentBucket : nat)
    (variantParentMap : list (string * string)) (parentBuckets : ParentBuckets)
    (dupeBuckets : list string) (key : string) :
  (bucketRef key parentBuckets = Some firstParentBucket
   ∨ (key ∈ variantParentMap.*2 ∧ key ≠ parentId)) →
  bucketRef key
    (fold_left
       (fun '(parentBuckets, dupeBuckets) '(currentVariant, currentParentId) =>
          if String.eqb currentParentId parentId then (parentBuckets, dupeBuckets)
          else
            let merged :=
              match bucketRef currentParentId parentBuckets with
              | Some currentParentBucket =>
                  if bool_decide (currentParentId ∈ dupeBuckets)
                  then pushAbsent firstParentBucket (BId currentParentId) parentBuckets
                  else writeArray firstParentBucket
                         (readArray firstParentBucket parentBuckets
                          ++ readArray currentParentBucket parentBuckets)
                         parentBuckets
              | None => pushAbsent firstParentBucket (BId currentParentId) parentBuckets
              end in
            (setBucket currentParentId (Some firstParentBucket) merged,
             dupeBuckets ++ [currentParentId]))
       variantParentMap (parentBuckets, dupeBuckets)).1
  = Some firstParentBucket.
Proof.
  revert parentBuckets dupeBuckets.
  induction variantParentMap as [|[currentVariant currentParentId] variantParentMap IH];
    intros parentBuckets dupeBuckets Hkey.
  - destruct Hkey as [Hkey|[Hin _]]; [done|by inversion Hin].
  - cbn [fold_left]. destruct (String.eqb_spec currentParentId parentId) as [->|Hne].
    + apply IH. destruct Hkey as [Hkey|[Hin Hother]]; [by left|]. right.
      rewrite fmap_cons in Hin. apply elem_of_cons in Hin as [->|Hin]; done.
    + apply IH. destruct (String.eqb_spec currentParentId key) as [->|Hkey'].
      * left. by rewrite bucketRef_setBucket, String.eqb_refl.
      * destruct Hkey as [Hkey|[Hin Hother]].
        -- left. rewrite bucketRef_setBucket.
           destruct (String.eqb_spec currentParentId key) as [|_]; [done|].
           destruct (bucketRef currentParentId parentBuckets); [|by rewrite bucketRef_pushAbsent].
           destruct (bool_decide _); [by rewrite bucketRef_pushAbsent|done].
        -- right. rewrite fmap_cons in Hin.
           apply elem_of_cons in Hin as [->|Hin]; done.
Qed.

(** [createMultiParentBucket] returns the parent of the first variant and
    leaves one bucket for all the parents of the map: after it, the key of
    every parent refers to the same array. *)
Theorem createMultiParentBucket_shares_one_bucket (variantParentMap : list (string * string))
    (parentBuckets : ParentBuckets) (dupeBuckets : list string) :
  variantParentMap ≠ [] →
  ∃ firstVariant parentId firstParentBucket,
    head variantParentMap = Some (firstVariant, parentId)
    ∧ (createMultiParentBucket variantParentMap parentBuckets dupeBuckets).1.1
      = Some parentId
    ∧ ∀ currentVariant currentParentId,
        (currentVariant, currentParentId) ∈ variantParentMap →
        bucketRef currentParentId
          (createMultiParentBucket variantParentMap parentBuckets dupeBuckets).1.2
        = Some firstParentBucket.
Proof.
  destruct variantParentMap as [|[firstVariant parentId] others]; [done|].
  intros _. unfold createMultiParentBucket.
  destruct (bucketOrNew parentId (BId parentId) parentBuckets)
    as [firstParentBucket bucketed] eqn:Hbucket.
  exists firstVariant, parentId, firstParentBucket.
  destruct (fold_left _ ((firstVariant, parentId) :: others) (bucketed, dupeBuckets))
    as [merged dupes] eqn:Hfold.
  cbn [fst snd head]. split; [done|]. split; [done|].
  intros currentVariant currentParentId Hin. rewrite bucketRef_setBucket.
  destruct (String.eqb_spec parentId currentParentId) as [|Hne]; [done|].
  change merged with (merged, dupes).1. rewrite <- Hfold.
  apply createMultiParentBucket_merge. right. split; [|done].
  apply list_elem_of_fmap. by exists (currentVariant, currentParentId).
Qed.

Lemma createMultiParentBucket_shares_one_bucket_witness :
  ∃ firstVariant parentId firstParentBucket,
    head [("buster", "debian"); ("focal", "ubuntu")] = Some (firstVariant, parentId)
    ∧ (createMultiParentBucket [("buster", "debian"); ("focal", "ubuntu")]
         {| bucketRefs := []; bucketArrays := [] |} []).1.1
      = Some parentId
    ∧ ∀ currentVariant currentParentId,
        (currentVariant, currentParentId) ∈ [("buster", "debian"); ("focal", "ubuntu")] →
        bucketRef currentParentId
          (createMultiParentBucket [("buster", "debian"); ("focal", "ubuntu")]
             {| bucketRefs := []; bucketArrays := [] |} []).1.2
        = Some firstParentBucket.
Proof.
  apply (createMultiParentBucket_shares_one_bucket [("buster", "debian"); ("focal", "ubuntu")]
           {| bucketRefs := []; bucketArrays := [] |} []).
  discriminate.
Defined.

Lemma readArray_pushAbsent_new (index : nat) (item : BucketItem)
    (parentBuckets : ParentBuckets) :
  index < length (bucketArrays parentBuckets) →
  item ∈ readArray index (pushAbsent index item parentBuckets).
Proof.
  intros Hlt. unfold pushAbsent. case_bool_decide as Hin; [done|].
  unfold readArray at 1, writeArray. cbn [bucketArrays].
  rewrite list_lookup_insert_eq by done. simpl. apply elem_of_app. right. by left.
Qed.

Lemma readArray_pushAbsent_old (index other : nat) (item old : BucketItem)
    (parentBuckets : ParentBuckets) :
  old ∈ readArray other parentBuckets →
  old ∈ readArray other (pushAbsent index item parentBuckets).
Proof.
  intros Hold. unfold pushAbsent. case_bool_decide as Hin; [done|].
  unfold readArray at 1, writeArray. cbn [bucketArrays].
  destruct (decide (other = index)) as [->|Hne].
  - destruct (decide (index < length (bucketArrays parentBuckets))) as [Hlt|Hge].
    + rewrite list_lookup_insert_eq by done. simpl. apply elem_of_app. by left.
    + by rewrite list_insert_ge by lia.
  - by rewrite list_lookup_insert_ne.
Qed.

Lemma length_pushAbsent (index : nat) (item : BucketItem) (parentBuckets : ParentBuckets) :
  length (bucketArrays (pushAbsent index item parentBuckets))
  = length (bucketArrays parentBuckets).
Proof.
  unfold pushAbsent. case_bool_decide; [done|]. unfold writeArray. cbn [bucketArrays].
  by rewrite length_insert.
Qed.

(** [parentBuckets[key] = parentBuckets[key] || [owner]] followed by the
    [push] of an item that the bucket does not hold: the item is in the
    bucket of the key, and what the buckets held stays where it was. *)
Lemma bucket_push (key : string) (owner item : BucketItem) (parentBuckets : ParentBuckets) :
  validBuckets parentBuckets →
  ∃ index bucketed,
    bucketOrNew key owner parentBuckets = (index, bucketed)
    ∧ validBuckets (pushAbsent index item (setBucket key (Some index) bucketed))
    ∧ bucketRef key (pushAbsent index item (setBucket key (Some index) bucketed))
      = Some index
    ∧ item ∈ readArray index (pushAbsent index item (setBucket key (Some index) bucketed))
    ∧ (∀ other old,
         old ∈ readArray other parentBuckets →
         old ∈ readArray other (pushAbsent index item (setBucket key (Some index) bucketed)))
    ∧ (∀ key' index',
         bucketRef key' parentBuckets = Some index' →
         bucketRef key' (pushAbsent index item (setBucket key (Some index) bucketed))
         = Some index').
Proof.
  intros Hvalid. unfold bucketOrNew.
  destruct (bucketRef key parentBuckets) as [index|] eqn:Hkey.
  - exists index, parentBuckets. split; [done|].
    pose proof (Hvalid key index Hkey) as Hlt.
    assert (∀ key',
              bucketRef key' (pushAbsent index item (setBucket key (Some index) parentBuckets))
              = if String.eqb key key' then Some index else bucketRef key' parentBuckets)
      as Hrefs by (intros key'; by rewrite bucketRef_pushAbsent, bucketRef_setBucket).
    split; [|split; [|split; [|split]]].
    + intros key' index'. rewrite Hrefs, length_pushAbsent. cbn [setBucket bucketArrays].
      destruct (String.eqb key key'); [by intros [= <-]|apply Hvalid].
    + by rewrite Hrefs, String.eqb_refl.
    + by apply readArray_pushAbsent_new.
    + intros other old Hold. by apply readArray_pushAbsent_old.
    + intros key' index'. rewrite Hrefs.
      destruct (String.eqb_spec key key') as [<-|]; [|done]. by rewrite Hkey.
  - unfold newArray. eexists _, _. split; [done|].
    set (bucketed := {| bucketRefs := bucketRefs parentBuckets;
                        bucketArrays := bucketArrays parentBuckets ++ [[owner]] |}).
    set (index := length (bucketArrays parentBuckets)).
    assert (∀ key',
              bucketRef key' (pushAbsent index item (setBucket key (Some index) bucketed))
              = if String.eqb key key' then Some index else bucketRef key' parentBuckets)
      as Hrefs by (intros key'; by rewrite bucketRef_pushAbsent, bucketRef_setBucket).
    assert (length (bucketArrays (setBucket key (Some index) bucketed)) = S index)
      as Hlength by (cbn [setBucket bucketed bucketArrays]; rewrite length_app; simpl; lia).
    split; [|split; [|split; [|split]]].
    + intros key' index'. rewrite Hrefs, length_pushAbsent, Hlength.
      destruct (String.eqb key key'); [intros [= <-]; lia|].
      intros H%Hvalid. unfold index. lia.
    + by rewrite Hrefs, String.eqb_refl.
    + apply readArray_pushAbsent_new. rewrite Hlength. lia.
    + intros other old Hold. apply readArray_pushAbsent_old.
      unfold readArray in *. cbn [setBucket bucketed bucketArrays].
      destruct (bucketArrays parentBuckets !! other) as [items|] eqn:Hother;
        [|by inversion Hold].
      by rewrite (lookup_app_l_Some _ _ _ _ Hother).
    + intros key' index'. rewrite Hrefs.
      destruct (String.eqb_spec key key') as [<-|]; [|done]. by rewrite Hkey.
Qed.

(** [bucketDefinition] puts a definition in the bucket of its parent, or,
    when the parent has a parent, in the bucket of this one, together with
    its parent: one level of parents of parents, and no more. It returns
    for every parent that the registry has, and what the buckets held stays
    where it was. *)
Theorem bucketDefinition_joins_bucket (config : Config) (definitionId parentId : string)
    (parentSettings : BuildSettings) (parentBuckets : ParentBuckets) :
  validBuckets parentBuckets →
  buildSettings config parentId = Some parentSettings →
  ∃ bucketed,
    bucketDefinition config definitionId (Some parentId) parentBuckets = Returns bucketed
    ∧ validBuckets bucketed
    ∧ (truthyParent (parent parentSettings) = false →
       ∃ index,
         bucketRef parentId bucketed = Some index
         ∧ BId definitionId ∈ readArray index bucketed)
    ∧ (∀ grandParentId,
         parent parentSettings = ParentId grandParentId →
         grandParentId ≠ "" →
         ∃ index,
           bucketRef grandParentId bucketed = Some index
           ∧ BId parentId ∈ readArray index bucketed
           ∧ BId definitionId ∈ readArray index bucketed)
    ∧ (∀ other old,
         old ∈ readArray other parentBuckets → old ∈ readArray other bucketed).
Proof.
  intros Hvalid Hsettings. unfold bucketDefinition. cbn [mbind option_bind].
  rewrite Hsettings. cbn [propertyKey].
  destruct (truthyParent (parent parentSettings)) eqn:Htruthy.
  - set (owner := match parent parentSettings with
                  | ParentId grandParentId => BId grandParentId
                  | _ => BObject
                  end).
    destruct (bucket_push (bucketKey owner) owner (BId parentId) parentBuckets Hvalid)
      as (index1 & bucketed1 & -> & Hvalid1 & Hkey1 & Hparent1 & Hold1 & Hrefs1).
    destruct (bucket_push (bucketKey owner) owner (BId definitionId) _ Hvalid1)
      as (index2 & bucketed2 & -> & Hvalid2 & Hkey2 & Hitem2 & Hold2 & Hrefs2).
    eexists. split; [done|]. split; [done|]. split; [done|]. split.
    + intros grandParentId Hparent Hne. exists index2.
      assert (bucketKey owner = grandParentId) as Hkey by (unfold owner; by rewrite Hparent).
      rewrite Hkey in *. split; [done|]. split; [|done].
      apply Hold2. rewrite (Hrefs2 _ _ Hkey1) in Hkey2. by injection Hkey2 as <-.
    + intros other old Hin. by apply Hold2, Hold1.
  - destruct (bucket_push parentId (BId parentId) (BId definitionId) parentBuckets Hvalid)
      as (index & bucketed & Hbucket & Hvalid' & Hkey & Hitem & Hold & Hrefs).
    cbn [bucketKey]. rewrite Hbucket.
    eexists. split; [done|]. split; [done|]. split; [by exists index|]. split; [|done].
    intros grandParentId Hparent Hne. rewrite Hparent in Htruthy. by destruct grandParentId.
Qed.

Lemma bucketDefinition_joins_bucket_witness :
  ∃ bucketed,
    bucketDefinition familyConfig "child" (Some "base")
      {| bucketRefs := []; bucketArrays := [] |}
    = Returns bucketed
    ∧ ∃ index,
        bucketRef "base" bucketed = Some index ∧ BId "child" ∈ readArray index bucketed.
Proof.
  destruct (bucketDefinition_joins_bucket familyConfig "child" "base"
              (settingsWithTags ["base:${VERSION}-${VARIANT}"])
              {| bucketRefs := []; bucketArrays := [] |})
    as (bucketed & Hreturns & _ & Hparentless & _).
  - intros key index Hkey. by vm_compute in Hkey.
  - reflexivity.
  - exists bucketed. split; [exact Hreturns|]. by apply Hparentless.
Defined.

(** ** Pages of a registry without parents *)

(** With enough pages, a page is a group: for a registry in which no
    definition has a parent and a page total that is at least the number of
    groups, [getSortedDefinitionBuildList] returns for the page [n] the
    [n]-th group (the groups that [variantsList] held, then one group for
    every variant of every definition that is not skipped), an empty page
    when there is no [n]-th group, and leaves the groups and the empty pages
    in [variantsList]. *)
Theorem getSortedDefinitionBuildList_one_group_a_page (config : Config) (page pageTotal : Z)
    (definitionsToSkip : list string) (st : PlannerState) :
  (∀ definitionId settings,
     (definitionId, settings) ∈ definitionBuildSettings config →
     truthyParent (parent settings) = false) →
  (1 ≤ page ≤ pageTotal)%Z →
  (Z.of_nat (length (variantsList st
                     ++ concat (ownGroups config <$> keptIds config definitionsToSkip)))
   ≤ pageTotal)%Z →
  getSortedDefinitionBuildList config page pageTotal definitionsToSkip st
  = (Returns
       (Some (default []
                ((variantsList st
                  ++ concat (ownGroups config <$> keptIds config definitionsToSkip))
                 !! Z.to_nat (page - 1)))),
     {| variantsList :=
          (variantsList st ++ concat (ownGroups config <$> keptIds config definitionsToSkip))
          ++ replicate
               (Z.to_nat pageTotal
                - length (variantsList st
                          ++ concat (ownGroups config <$> keptIds config definitionsToSkip)))
               [];
        skipParentVariants := skipParentVariants st |}).
Proof.
  intros Hparentless Hpage Htotal.
  set (groups := variantsList st
                 ++ concat (ownGroups config <$> keptIds config definitionsToSkip)) in *.
  assert (planGroups config definitionsToSkip st
          = (Returns (),
             {| variantsList := groups; skipParentVariants := skipParentVariants st |}))
    as Hplan.
  { unfold planGroups, bucketByParent.
    rewrite (bucketByParent_parentless _ _ _ _ _ _ Hparentless).
    cbn [pruneBuckets bucketRefs fold_left app clubBuckets].
    change (mret () ≫= _) with
      (addNoParentList config (keptIds config definitionsToSkip)).
    unfold addNoParentList. apply forEachPlanner_pushes.
    intros definitionId st'. unfold ownGroups.
    destruct (definitionVariants config !! definitionId) as [variants|].
    - rewrite (forEachPlanner_pushes
                 (fun variant => pushGroup [getDefinitionObject definitionId (Some variant)])
                 (fun variant => [[getDefinitionObject definitionId (Some variant)]]))
        by done.
      assert (∀ variants : list string,
                concat ((fun variant => [[getDefinitionObject definitionId (Some variant)]])
                        <$> variants)
                = (fun variant => [getDefinitionObject definitionId (Some variant)])
                  <$> variants) as Hconcat.
      { intros l. induction l as [|variant l IH]; [done|].
        rewrite !fmap_cons. cbn [concat app]. by rewrite IH. }
      by rewrite Hconcat.
    - destruct (buildSettings config definitionId ≫= tags); [done|].
      simpl. rewrite app_nil_r. by destruct st'. }
  unfold getSortedDefinitionBuildList, orOne.
  rewrite !bool_decide_eq_false_2 by lia.
  rewrite (planner_bind _ _ _ _ _ _ _ Hplan).
  unfold paginateVariantsList, paginate. cbn [variantsList skipParentVariants].
  rewrite bool_decide_eq_false_2 by lia.
  assert ((if bool_decide (Z.of_nat (length groups) < pageTotal)%Z
           then Returns (padPages (Z.to_nat pageTotal) groups)
           else Returns groups)
          = Returns (groups ++ replicate (Z.to_nat pageTotal - length groups) [])) as ->.
  { case_bool_decide; [done|].
    replace (Z.to_nat pageTotal - length groups) with 0 by lia.
    simpl. by rewrite app_nil_r. }
  do 3 f_equal. unfold pageAt. rewrite bool_decide_eq_false_2 by lia.
  destruct (groups !! Z.to_nat (page - 1)) as [group|] eqn:Hgroup.
  - by rewrite (lookup_app_l_Some _ _ _ _ Hgroup).
  - apply lookup_ge_None in Hgroup. rewrite lookup_app_r by done.
    rewrite lookup_replicate_2 by lia. done.
Qed.

Lemma getSortedDefinitionBuildList_one_group_a_page_witness :
  getSortedDefinitionBuildList loneConfig 2 3 [] initialState
  = (Returns
       (Some (default []
                ((variantsList initialState
                  ++ concat (ownGroups loneConfig <$> keptIds loneConfig []))
                 !! Z.to_nat (2 - 1)))),
     {| variantsList :=
          (variantsList initialState
           ++ concat (ownGroups loneConfig <$> keptIds loneConfig []))
          ++ replicate
               (Z.to_nat 3
                - length (variantsList initialState
                          ++ concat (ownGroups loneConfig <$> keptIds loneConfig [])))
               [];
        skipParentVariants := skipParentVariants initialState |}).
Proof.
  apply (getSortedDefinitionBuildList_one_group_a_page loneConfig 2 3 [] initialState).
  - intros definitionId settings Hin. apply list_elem_of_singleton in Hin.
    by injection Hin as -> ->.
  - lia.
  - vm_compute. discriminate.
Defined.

Lemma populateTagLookup_returns_witness :
  (∃ definitionTagLookup, populateTagLookup sharedConfig = Returns definitionTagLookup)
  ↔ (∀ definitionId settings variant,
       (definitionId, settings) ∈ definitionBuildSettings sharedConfig →
       is_Some (tags settings) →
       variant ∈ lookupVariants sharedConfig definitionId →
       ownVariantTags settings (tagVariant sharedConfig definitionId variant) = true).
Proof.
  apply (populateTagLookup_returns sharedConfig).
  apply NoDup_cons_2; [apply not_elem_of_nil|apply NoDup_nil_2].
Defined.
